(** * Harvesting pipeline of the Wavre council deliberations

    Shallow embedding of [extraire_deliberations.py] and
    [pipeline_journalistique.py]: session detection, paginated link
    harvesting, per-item content extraction, the JSON corpus snapshot and
    the orchestrator that decides whether a session was already harvested.

    Network, clock, file system and standard output are threaded through
    a state-and-exception monad over a [monde]; every effect is appended
    to a chronological [journal]. *)

From Stdlib Require Import ZArith Lia Ascii String.
From stdpp Require Import gmap strings list pretty.
From Stdlib Require Import NArith.


(** ** Exceptions *)

(** The exception classes the two scripts can meet.  [RequestException]
    stands for whatever [requests.get] or [BeautifulSoup] raise. *)
Inductive classe_exception :=
  | OSError
  | JSONDecodeError
  | UnicodeDecodeError
  | UnicodeEncodeError
  | AttributeError
  | KeyError
  | TypeError
  | RuntimeError
  | RequestException.

(** [exc_msg] is what [str(e)] and the f-string [{e}] render. *)
Record exception := Exc { exc_classe : classe_exception; exc_msg : string }.

(** ** Fetched pages

    A page is kept as the answers BeautifulSoup gives to the queries the
    scripts make on it. *)

(** [<option>] of the session selector: [.get('value')], [.get('title')]. *)
Record option_html := OptionHtml {
  opt_value : option string;
  opt_title : option string;
}.

(** [<a class="filled-link">] of a card: [.get('href')]. *)
Record ancre := Ancre { href : option string }.

(** [<div class="item-card">]: the result of
    [carte.find('a', class_='filled-link')]. *)
Record carte := Carte { lien_element : option ancre }.

Record page := Page {
  (** [soup.find('select', {'id': 'seance'})], and inside it
      [.find('option', {'selected': 'selected'})] *)
  select_seance : option (option option_html);
  (** [soup.find_all('div', class_='item-card')] *)
  cartes : list carte;
  (** [soup.find('h1')], as [get_text(strip=True)] *)
  h1 : option string;
  (** [soup.find('article', id='content')], as
      [get_text(separator='\n', strip=True)] *)
  article : option string;
}.

(** What [requests.get] followed by [BeautifulSoup(...)] gives for a URL. *)
Inductive reponse :=
  | Echec (e : exception)
  | Recu (p : page).

(** ** Files *)

Inductive fichier :=
  | Inaccessible (raison : string)   (** exists, but [open] raises [OSError] *)
  | Octets (contenu : string).

(** ** Standard output

    One constructor per [print] of the scripts that carries information;
    the text itself is in the comment. *)
Inductive message :=
  | MsgDetection                      (* "Détection de la séance la plus récente..." *)
  | MsgSeanceDetectee (nom : option string) (id : option string)
  | MsgDetectionImpossible            (* "Impossible de détecter la séance. ..." *)
  | MsgPagination                     (* "Analyse de la pagination..." *)
  | MsgPage (numero : nat)            (* "Page {page_actuelle // 20 + 1}..." *)
  | MsgAucuneCarte                    (* "Aucune carte trouvée sur cette page" *)
  | MsgNouvelles (n : nat)            (* "→ {n} nouvelles délibérations trouvées" *)
  | MsgPlusDeNouvelles                (* "Plus de nouvelles délibérations" *)
  | MsgErreurPage (e : exception)     (* "Erreur sur cette page: {e}" *)
  | MsgTotal (n : nat)                (* "Trouvé {n} délibérations au total" *)
  | MsgExtraction (url : string)      (* "Extraction de : ..." *)
  | MsgExtractionReussie              (* "Extraction réussie" *)
  | MsgErreurExtraction (e : exception) (* "Erreur : {e}" *)
  | MsgSauvegarde (nom_fichier : string) (* "Sauvegarde des résultats dans ..." *)
  | MsgSauvegardeTerminee             (* "Sauvegarde terminée !" *)
  | MsgResume (nom_fichier : string)  (* "Création du résumé en texte dans ..." *)
  | MsgResumeCree                     (* "Résumé créé !" *)
  | MsgBanniere                       (* title banner of extraire_deliberations *)
  | MsgErreurSeance                   (* "Erreur : impossible de détecter la séance." *)
  | MsgAucuneDeliberation             (* "Aucune délibération trouvée. Vérifiez l'URL." *)
  | MsgDebutExtraction (n : nat)      (* "Début de l'extraction de {n} délibérations..." *)
  | MsgRang (i n : nat)               (* "[{i}/{n}]" *)
  | MsgExtractionTerminee             (* "EXTRACTION TERMINÉE !" and the file list *)
  | MsgEtape (description : string)   (* banner of [executer] *)
  | MsgEtapeTerminee (description : string) (* "✓ {description} terminée." *)
  | MsgLectureImpossible (chemin : string) (e : exception) (* "⚠ Impossible de lire ..." *)
  | MsgAucuneNouvelleSeance           (* "Aucune nouvelle séance détectée, extraction et analyse ignorées." *)
  | MsgSeanceInconnue                 (* "⚠ Séance la plus récente inconnue. L'extraction sera tout de même tentée." *)
  | MsgExtractionIgnoree              (* "Extraction ignorée (--skip-extraction)." *)
  | MsgAnalyseIgnoree.                (* "Analyse journalistique ignorée (--skip-analyse)." *)

Inductive evenement :=
  | Requete (url : string) (timeout : option nat)   (** [requests.get] *)
  | Pause (secondes : nat)                          (** [time.sleep] *)
  | Affiche (msg : message)                         (** [print] *)
  | Lecture (chemin : string)                       (** [open(chemin, 'r')] and read *)
  | Troncature (chemin : string)                    (** [open(chemin, 'w')] *)
  | Ecriture (chemin : string) (texte : string)     (** [f.write], flushed *)
  | Lancement (commande : list string).             (** [subprocess.run] *)

(** ** The world and the monad *)

Record monde := Monde {
  site : string → reponse;          (** the upstream site, by URL *)
  fichiers : gmap string fichier;   (** the working directory *)
  utcnow : string;                  (** [datetime.utcnow()...isoformat()] *)
  code_analyse : nat;               (** exit status of [analyser_sujets.py] *)
  journal : list evenement;         (** effects so far, oldest first *)
}.

(** [Epuise]: the model gives no answer — the fuel of a [while True] ran
    out, or a value had to be rendered whose text is not modelled (see
    [format_valeur]).  It is the model's only non-Python outcome. *)
Inductive resultat (A : Type) :=
  | Retour (a : A)
  | Leve (e : exception)
  | Epuise.
Arguments Retour {A} a.
Arguments Leve {A} e.
Arguments Epuise {A}.

Definition M (A : Type) : Type := monde → resultat A * monde.

#[export] Instance M_ret : MRet M := fun A a m => (Retour a, m).

#[export] Instance M_bind : MBind M := fun A B k c m =>
  match c m with
  | (Retour a, m') => k a m'
  | (Leve e, m') => (Leve e, m')
  | (Epuise, m') => (Epuise, m')
  end.

Definition raise {A} (e : exception) : M A := fun m => (Leve e, m).

(** [try: c except Exception as e: h e] *)
Definition try_except {A} (c : M A) (h : exception → M A) : M A := fun m =>
  match c m with
  | (Leve e, m') => h e m'
  | r => r
  end.

Definition noter (e : evenement) (m : monde) : monde :=
  Monde (site m) (fichiers m) (utcnow m) (code_analyse m) (journal m ++ [e]).

Definition avec_fichiers (fs : gmap string fichier) (m : monde) : monde :=
  Monde (site m) fs (utcnow m) (code_analyse m) (journal m).

Definition print (msg : message) : M unit := fun m =>
  (Retour tt, noter (Affiche msg) m).

Definition time_sleep (secondes : nat) : M unit := fun m =>
  (Retour tt, noter (Pause secondes) m).

(** [BeautifulSoup(requests.get(url, timeout=...).content, 'html.parser')] *)
Definition requests_get (url : string) (timeout : option nat) : M page := fun m =>
  let m' := noter (Requete url timeout) m in
  match site m url with
  | Echec e => (Leve e, m')
  | Recu p => (Retour p, m')
  end.

#[local] Set Warnings "-register-all".

(** ** JSON documents

    The values [json.load] builds and [json.dump] writes.  A Python [dict]
    is an association list in insertion order with distinct keys; [None]
    is [JNull].  Strings are UTF-8 byte strings; a lone surrogate, which
    a Python [str] can hold, is its three-byte form, which is not valid
    UTF-8.  A float keeps its literal text and whether it equals zero. *)
Inductive json :=
  | JNull
  | JBool (b : bool)
  | JInt (n : Z)
  | JFloat (nul : bool) (texte : string)
  | JStr (s : string)
  | JArr (l : list json)
  | JObj (d : list (string * json)).

Abbreviation dict := (list (string * json)).

(** [d.get(k)]: [JNull] when the key is missing. *)
Fixpoint dict_get (k : string) (d : dict) : json :=
  match d with
  | [] => JNull
  | (k', v) :: d' => if String.eqb k' k then v else dict_get k d'
  end.

(** [d[k] = v]: replaces in place, or appends. *)
Fixpoint dict_set (k : string) (v : json) (d : dict) : dict :=
  match d with
  | [] => [(k, v)]
  | (k', v') :: d' =>
      if String.eqb k' k then (k', v) :: d' else (k', v') :: dict_set k v d'
  end.

(** Truth value of a Python object. *)
Definition truthy (j : json) : bool :=
  match j with
  | JNull => false
  | JBool b => b
  | JInt n => negb (Z.eqb n 0)
  | JFloat nul _ => negb nul
  | JStr s => negb (String.eqb s "")
  | JArr l => match l with [] => false | _ => true end
  | JObj d => match d with [] => false | _ => true end
  end.

Definition of_option (o : option string) : json :=
  match o with
  | Some s => JStr s
  | None => JNull
  end.

(** *** [json.dump(..., ensure_ascii=False, indent=2)] *)

#[local] Open Scope N_scope.

Definition code (c : ascii) : N := N_of_ascii c.
Definition car (n : N) : string := String (ascii_of_N n) "".

Definition chiffre_hexa (n : N) : string :=
  match n with
  | 10 => "a" | 11 => "b" | 12 => "c" | 13 => "d" | 14 => "e" | 15 => "f"
  | _ => pretty n
  end%N.

Definition echapper_caractere (c : ascii) : string :=
  let n := code c in
  if N.eqb n 34 then car 92 +:+ car 34
  else if N.eqb n 92 then car 92 +:+ car 92
  else if N.eqb n 8 then car 92 +:+ "b"
  else if N.eqb n 12 then car 92 +:+ "f"
  else if N.eqb n 10 then car 92 +:+ "n"
  else if N.eqb n 13 then car 92 +:+ "r"
  else if N.eqb n 9 then car 92 +:+ "t"
  else if n <? 32 then
    car 92 +:+ "u00" +:+ chiffre_hexa (n / 16) +:+ chiffre_hexa (n mod 16)
  else String c "".

Fixpoint echapper (s : string) : string :=
  match s with
  | EmptyString => ""
  | String c s' => echapper_caractere c +:+ echapper s'
  end.

Definition encoder_chaine (s : string) : string :=
  car 34 +:+ echapper s +:+ car 34.

Fixpoint espaces (n : nat) : string :=
  match n with
  | O => ""
  | S n' => " " +:+ espaces n'
  end.

(** Newline followed by the indentation of nesting level [niveau]. *)
Definition retrait (niveau : nat) : string := car 10 +:+ espaces (2 * niveau)%nat.

Fixpoint encoder (niveau : nat) (j : json) : string :=
  match j with
  | JNull => "null"
  | JBool true => "true"
  | JBool false => "false"
  | JInt n => pretty n
  | JFloat _ texte => texte
  | JStr s => encoder_chaine s
  | JArr [] => "[]"
  | JArr (x :: xs) =>
      "[" +:+ retrait (S niveau) +:+ encoder (S niveau) x
      +:+ (fix suite (l : list json) : string :=
             match l with
             | [] => ""
             | y :: l' => "," +:+ retrait (S niveau) +:+ encoder (S niveau) y +:+ suite l'
             end) xs
      +:+ retrait niveau +:+ "]"
  | JObj [] => "{}"
  | JObj ((k, x) :: xs) =>
      "{" +:+ retrait (S niveau) +:+ encoder_chaine k +:+ ": " +:+ encoder (S niveau) x
      +:+ (fix suite (l : dict) : string :=
             match l with
             | [] => ""
             | (k', y) :: l' =>
                 "," +:+ retrait (S niveau) +:+ encoder_chaine k' +:+ ": "
                 +:+ encoder (S niveau) y +:+ suite l'
             end) xs
      +:+ retrait niveau +:+ "}"
  end.

Definition json_dumps (j : json) : string := encoder 0 j.

(** *** [json.load]

    The decoder of the [json] module on byte strings: whitespace, the
    literals ([null], [true], [false], [NaN], [Infinity], [-Infinity]),
    numbers, strings with their escapes (a control character inside a
    string is an error), arrays and objects (a repeated key keeps the
    last value).  [None] stands for [JSONDecodeError].  The limits of the
    interpreter (nesting depth, length of an integer literal) are not
    modelled. *)

Definition est_blanc (c : ascii) : bool :=
  let n := code c in
  N.eqb n 32 || N.eqb n 9 || N.eqb n 10 || N.eqb n 13.

Fixpoint sauter_blancs (s : string) : string :=
  match s with
  | String c r => if est_blanc c then sauter_blancs r else s
  | EmptyString => s
  end.

Definition est_chiffre (c : ascii) : bool :=
  let n := code c in (48 <=? n) && (n <=? 57).

Definition valeur_hexa (c : ascii) : option N :=
  let n := code c in
  if (48 <=? n) && (n <=? 57) then Some (n - 48)
  else if (97 <=? n) && (n <=? 102) then Some (n - 87)
  else if (65 <=? n) && (n <=? 70) then Some (n - 55)
  else None.

Fixpoint enlever_prefixe (p s : string) : option string :=
  match p with
  | EmptyString => Some s
  | String a p' =>
      match s with
      | String b s' => if Ascii.eqb a b then enlever_prefixe p' s' else None
      | EmptyString => None
      end
  end.

(** UTF-8 bytes of a code point (a lone surrogate gets its three-byte
    form). *)
Definition utf8 (n : N) : string :=
  if n <? 128 then car n
  else if n <? 2048 then car (192 + n / 64) +:+ car (128 + n mod 64)
  else if n <? 65536 then
    car (224 + n / 4096) +:+ car (128 + (n / 64) mod 64) +:+ car (128 + n mod 64)
  else
    car (240 + n / 262144) +:+ car (128 + (n / 4096) mod 64)
    +:+ car (128 + (n / 64) mod 64) +:+ car (128 + n mod 64).

Definition surrogat_haut (n : N) : bool := (55296 <=? n) && (n <=? 56319).
Definition surrogat_bas (n : N) : bool := (56320 <=? n) && (n <=? 57343).

Definition vider (attente : option N) : string :=
  match attente with
  | Some h => utf8 h
  | None => ""
  end.

(** Body of a string, after the opening quote.  [attente] is a high
    surrogate read from the escape just before, waiting for its low
    half. *)
Fixpoint lire_chaine (s : string) (attente : option N) (acc : string)
  : option (string * string) :=
  match s with
  | EmptyString => None
  | String c r =>
      let n := code c in
      if N.eqb n 34 then Some (acc +:+ vider attente, r)
      else if N.eqb n 92 then
        match r with
        | String e r1 =>
            let simple (x : N) := lire_chaine r1 None (acc +:+ vider attente +:+ car x) in
            let m := code e in
            if N.eqb m 34 then simple 34
            else if N.eqb m 92 then simple 92
            else if N.eqb m 47 then simple 47
            else if N.eqb m 98 then simple 8
            else if N.eqb m 102 then simple 12
            else if N.eqb m 110 then simple 10
            else if N.eqb m 114 then simple 13
            else if N.eqb m 116 then simple 9
            else if N.eqb m 117 then
              match r1 with
              | String a (String b (String c' (String d r2))) =>
                  match valeur_hexa a, valeur_hexa b, valeur_hexa c', valeur_hexa d with
                  | Some va, Some vb, Some vc, Some vd =>
                      let u := ((va * 16 + vb) * 16 + vc) * 16 + vd in
                      match attente with
                      | Some h =>
                          if surrogat_bas u then
                            lire_chaine r2 None
                              (acc +:+ utf8 (65536 + (h - 55296) * 1024 + (u - 56320)))
                          else if surrogat_haut u then
                            lire_chaine r2 (Some u) (acc +:+ utf8 h)
                          else lire_chaine r2 None (acc +:+ utf8 h +:+ utf8 u)
                      | None =>
                          if surrogat_haut u then lire_chaine r2 (Some u) acc
                          else lire_chaine r2 None (acc +:+ utf8 u)
                      end
                  | _, _, _, _ => None
                  end
              | _ => None
              end
            else None
        | EmptyString => None
        end
      else if n <? 32 then None
      else lire_chaine r None (acc +:+ vider attente +:+ String c "")
  end.

Fixpoint lire_chiffres (s : string) : string * string :=
  match s with
  | String c r =>
      if est_chiffre c then
        let '(ds, reste) := lire_chiffres r in (String c ds, reste)
      else ("", s)
  | EmptyString => ("", s)
  end.

Fixpoint entier_de_chiffres (ds : string) (acc : Z) : Z :=
  match ds with
  | String c r => entier_de_chiffres r (10 * acc + Z.of_N (code c - 48))
  | EmptyString => acc
  end.

(** Whether the float written [chiffres]e[exposant] rounds to zero: the
    digits are all zero, or the value is at most half the smallest
    subnormal, 2^-1075. *)
Definition flottant_nul (chiffres : Z) (exposant : Z) : bool :=
  Z.eqb chiffres 0
  || ((exposant <? 0)%Z && (chiffres * 2 ^ 1075 <=? 10 ^ (- exposant))%Z).

(** A number at the head of [s]:
    an optional minus sign, then 0 or a non-zero digit and digits, then
    an optional fraction (a dot and digits), then an optional exponent
    (e or E, an optional sign, digits). *)
Definition lire_nombre (s : string) : option (json * string) :=
  let '(negatif, s1) :=
    match s with
    | String "-" r => (true, r)
    | _ => (false, s)
    end in
  let entiere :=
    match s1 with
    | String "0" r => Some ("0", r)
    | String c _ => if est_chiffre c then Some (lire_chiffres s1) else None
    | EmptyString => None
    end in
  match entiere with
  | None => None
  | Some (ent, s2) =>
      let '(frac, s3) :=
        match s2 with
        | String "." r =>
            let '(ds, reste) := lire_chiffres r in
            match ds with
            | EmptyString => ("", s2)
            | _ => (ds, reste)
            end
        | _ => ("", s2)
        end in
      let lire_exposant (signe : string) (r : string) :=
        let '(ds, reste) := lire_chiffres r in
        match ds with
        | EmptyString => None
        | _ => Some (signe, ds, reste)
        end in
      let exposant :=
        match s3 with
        | String e r =>
            if Ascii.eqb e "e" || Ascii.eqb e "E" then
              match r with
              | String "-" r' => lire_exposant "-" r'
              | String "+" r' => lire_exposant "+" r'
              | _ => lire_exposant "" r
              end
            else None
        | EmptyString => None
        end in
      match frac, exposant with
      | EmptyString, None =>
          let v := entier_de_chiffres ent 0 in
          Some (JInt (if negatif then (- v)%Z else v), s3)
      | _, _ =>
          let '(e, s4) :=
            match exposant with
            | Some (signe, ds, reste) =>
                let v := entier_de_chiffres ds 0 in
                (if String.eqb signe "-" then (- v)%Z else v, reste)
            | None => (0%Z, s3)
            end in
          let chiffres := entier_de_chiffres (ent +:+ frac) 0 in
          let texte := String.substring 0 (String.length s - String.length s4)%nat s in
          Some (JFloat (flottant_nul chiffres (e - Z.of_nat (String.length frac))) texte, s4)
      end
  end.

Fixpoint lire_valeur (fuel : nat) (s : string) : option (json * string) :=
  match fuel with
  | O => None
  | S fuel' =>
      match s with
      | EmptyString => None
      | String c r =>
          let n := code c in
          if N.eqb n 34 then
            match lire_chaine r None "" with
            | Some (t, reste) => Some (JStr t, reste)
            | None => None
            end
          else if N.eqb n 123 then
            match sauter_blancs r with
            | String "}" reste => Some (JObj [], reste)
            | r1 => lire_membres fuel' r1 []
            end
          else if N.eqb n 91 then
            match sauter_blancs r with
            | String "]" reste => Some (JArr [], reste)
            | r1 => lire_elements fuel' r1 []
            end
          else
            match enlever_prefixe "null" s, enlever_prefixe "true" s,
                  enlever_prefixe "false" s with
            | Some reste, _, _ => Some (JNull, reste)
            | _, Some reste, _ => Some (JBool true, reste)
            | _, _, Some reste => Some (JBool false, reste)
            | _, _, _ =>
                match enlever_prefixe "NaN" s, enlever_prefixe "Infinity" s,
                      enlever_prefixe "-Infinity" s with
                | Some reste, _, _ => Some (JFloat false "NaN", reste)
                | _, Some reste, _ => Some (JFloat false "Infinity", reste)
                | _, _, Some reste => Some (JFloat false "-Infinity", reste)
                | _, _, _ => lire_nombre s
                end
            end
      end
  end
with lire_elements (fuel : nat) (s : string) (acc : list json) : option (json * string) :=
  match fuel with
  | O => None
  | S fuel' =>
      match lire_valeur fuel' s with
      | Some (v, r) =>
          match sauter_blancs r with
          | String "]" reste => Some (JArr (acc ++ [v]), reste)
          | String "," reste => lire_elements fuel' (sauter_blancs reste) (acc ++ [v])
          | _ => None
          end
      | None => None
      end
  end
with lire_membres (fuel : nat) (s : string) (acc : dict) : option (json * string) :=
  match fuel with
  | O => None
  | S fuel' =>
      match s with
      | String c r =>
          if N.eqb (code c) 34 then
            match lire_chaine r None "" with
            | Some (k, r1) =>
                match sauter_blancs r1 with
                | String ":" r2 =>
                    match lire_valeur fuel' (sauter_blancs r2) with
                    | Some (v, r3) =>
                        match sauter_blancs r3 with
                        | String "}" reste => Some (JObj (dict_set k v acc), reste)
                        | String "," reste =>
                            lire_membres fuel' (sauter_blancs reste) (dict_set k v acc)
                        | _ => None
                        end
                    | None => None
                    end
                | _ => None
                end
            | None => None
            end
          else None
      | EmptyString => None
      end
  end.

Definition json_loads (s : string) : option json :=
  match lire_valeur (2 * String.length s + 2)%nat (sauter_blancs s) with
  | Some (v, reste) =>
      match sauter_blancs reste with
      | EmptyString => Some v
      | _ => None
      end
  | None => None
  end.

#[local] Close Scope N_scope.

(** ** File primitives *)

#[local] Open Scope N_scope.

Definition suite_utf8 (c : ascii) : bool := (128 <=? code c) && (code c <=? 191).

(** Well-formed UTF-8, as the strict [utf-8] codec accepts it. *)
Fixpoint utf8_valide (s : string) : bool :=
  match s with
  | EmptyString => true
  | String a r =>
      let n := code a in
      if n <? 128 then utf8_valide r
      else if (194 <=? n) && (n <=? 223) then
        match r with
        | String b r' => suite_utf8 b && utf8_valide r'
        | _ => false
        end
      else if (224 <=? n) && (n <=? 239) then
        match r with
        | String b (String c r') =>
            (if n =? 224 then (160 <=? code b) && (code b <=? 191)
             else if n =? 237 then (128 <=? code b) && (code b <=? 159)
             else suite_utf8 b)
            && suite_utf8 c && utf8_valide r'
        | _ => false
        end
      else if (240 <=? n) && (n <=? 244) then
        match r with
        | String b (String c (String d r')) =>
            (if n =? 240 then (144 <=? code b) && (code b <=? 191)
             else if n =? 244 then (128 <=? code b) && (code b <=? 143)
             else suite_utf8 b)
            && suite_utf8 c && suite_utf8 d && utf8_valide r'
        | _ => false
        end
      else false
  end.

#[local] Close Scope N_scope.

(** [path.exists()] *)
Definition path_exists (chemin : string) : M bool := fun m =>
  (Retour (bool_decide (is_Some (fichiers m !! chemin))), m).

(** [open(chemin, 'r', encoding='utf-8')] then [read()]. *)
Definition lire_fichier (chemin : string) : M string := fun m =>
  let m' := noter (Lecture chemin) m in
  match fichiers m !! chemin with
  | None => (Leve (Exc OSError "No such file or directory"), m')
  | Some (Inaccessible raison) => (Leve (Exc OSError raison), m')
  | Some (Octets s) =>
      if utf8_valide s then (Retour s, m')
      else (Leve (Exc UnicodeDecodeError "'utf-8' codec can't decode"), m')
  end.

(** [open(chemin, 'w', encoding='utf-8')]: the file is created or cut to
    length zero at once. *)
Definition ouvrir_ecriture (chemin : string) : M unit := fun m =>
  match fichiers m !! chemin with
  | Some (Inaccessible raison) => (Leve (Exc OSError raison), m)
  | _ =>
      (Retour tt,
       noter (Troncature chemin)
         (avec_fichiers (<[chemin := Octets ""]> (fichiers m)) m))
  end.

(** [f.write(texte)] on a file opened by [ouvrir_ecriture] with
    [encoding='utf-8']: a text that cannot be encoded (it holds a lone
    surrogate) raises and adds nothing to the file. *)
Definition ecrire (chemin texte : string) : M unit := fun m =>
  if utf8_valide texte then
    let avant :=
      match fichiers m !! chemin with
      | Some (Octets s) => s
      | _ => ""
      end in
    (Retour tt,
     noter (Ecriture chemin texte)
       (avec_fichiers (<[chemin := Octets (avant +:+ texte)]> (fichiers m)) m))
  else (Leve (Exc UnicodeEncodeError "'utf-8' codec can't encode"), m).

(** [json.load(handle)] on the file at [chemin]. *)
Definition json_load (chemin : string) : M json :=
  texte ← lire_fichier chemin;
  match json_loads texte with
  | Some j => mret j
  | None => raise (Exc JSONDecodeError "Expecting value")
  end.

(** *** [json.dump(j, f, ensure_ascii=False, indent=2)]

    [json.dump] writes the document piece by piece, one [f.write] per
    chunk of the encoder's [iterencode]. *)

Definition est_conteneur (j : json) : bool :=
  match j with
  | JArr _ | JObj _ => true
  | _ => false
  end.

(** The chunks of [_iterencode]: a value that is not a container is one
    chunk; a list opens with a buffer that is joined to its element when
    that element is not a container; a dict yields its brace, its
    indentation, each key and each separator on their own. *)
Fixpoint morceaux (niveau : nat) (j : json) : list string :=
  match j with
  | JArr [] => ["[]"]
  | JArr (x :: xs) =>
      (if est_conteneur x
       then ("[" +:+ retrait (S niveau)) :: morceaux (S niveau) x
       else ["[" +:+ retrait (S niveau) +:+ encoder (S niveau) x])
      ++ (fix suite (l : list json) : list string :=
            match l with
            | [] => []
            | y :: l' =>
                (if est_conteneur y
                 then ("," +:+ retrait (S niveau)) :: morceaux (S niveau) y
                 else ["," +:+ retrait (S niveau) +:+ encoder (S niveau) y])
                ++ suite l'
            end) xs
      ++ [retrait niveau; "]"]
  | JObj [] => ["{}"]
  | JObj ((k, x) :: xs) =>
      ["{"; retrait (S niveau); encoder_chaine k; ": "] ++ morceaux (S niveau) x
      ++ (fix suite (l : dict) : list string :=
            match l with
            | [] => []
            | (k', y) :: l' =>
                ["," +:+ retrait (S niveau); encoder_chaine k'; ": "]
                ++ morceaux (S niveau) y ++ suite l'
            end) xs
      ++ [retrait niveau; "}"]
  | _ => [encoder niveau j]
  end.

(** [for chunk in iterable: fp.write(chunk)] *)
Fixpoint ecrire_morceaux (chemin : string) (ms : list string) : M unit :=
  match ms with
  | [] => mret tt
  | texte :: reste => ecrire chemin texte;; ecrire_morceaux chemin reste
  end.

Definition json_dump (j : json) (chemin : string) : M unit :=
  ecrire_morceaux chemin (morceaux 0 j).

(** The chunks put end to end. *)
Definition concatener (ms : list string) : string := foldr String.append "" ms.

(** The chunks that are written before the first one that cannot be
    encoded. *)
Fixpoint prefixe_encodable (ms : list string) : list string :=
  match ms with
  | [] => []
  | texte :: reste =>
      if utf8_valide texte then texte :: prefixe_encodable reste else []
  end.

Definition datetime_utcnow : M string := fun m => (Retour (utcnow m), m).

(** [obj.get(k)] on any value: only a [dict] has the method. *)
Definition methode_get (obj : json) (k : string) : M json :=
  match obj with
  | JObj d => mret (dict_get k d)
  | _ => raise (Exc AttributeError "object has no attribute 'get'")
  end.

(** [str(v)], the text an f-string puts for [{v}].  The text Python
    gives for a float, a list or a dict is not modelled. *)
Definition format_valeur (v : json) : option string :=
  match v with
  | JStr s => Some s
  | JNull => Some "None"
  | JBool true => Some "True"
  | JBool false => Some "False"
  | JInt n => Some (pretty n)
  | JFloat _ _ | JArr _ | JObj _ => None
  end.

(** [f"{d[k]}"]: the field, whatever its type, as text. *)
Definition champ_formate (d : dict) (k : string) : M string :=
  if bool_decide (k ∈ d.*1) then
    match format_valeur (dict_get k d) with
    | Some s => mret s
    | None => fun m => (Epuise, m)
    end
  else raise (Exc KeyError k).

(** [d[k]] given to [f.write], which takes a [str] only. *)
Definition champ (d : dict) (k : string) : M string :=
  if bool_decide (k ∈ d.*1) then
    match dict_get k d with
    | JStr s => mret s
    | _ => raise (Exc TypeError "write() argument must be str")
    end
  else raise (Exc KeyError k).

(** * extraire_deliberations.py *)

Module Extraire.

Definition URL_BASE : string := "https://www.deliberations.be/wavre/decisions".
Definition DELAI_ENTRE_REQUETES : nat := 3.

(** ** Session Detector *)

Definition detecter_seance_la_plus_recente : M (option string * option string) :=
  print MsgDetection;;
  soup ← requests_get URL_BASE None;
  match select_seance soup with
  | Some (Some option_selectionnee) =>
      let seance_id := opt_value option_selectionnee in
      let seance_nom := opt_title option_selectionnee in
      print (MsgSeanceDetectee seance_nom seance_id);;
      mret (seance_id, seance_nom)
  | _ =>
      print MsgDetectionImpossible;;
      mret (None, None)
  end.

(** ** Link Harvester *)

(** [if lien_element and lien_element.get('href')]: the anchor exists and
    its [href] is a non-empty string. *)
Definition href_de_carte (c : carte) : option string :=
  match lien_element c with
  | Some a =>
      match href a with
      | Some h => if String.eqb h "" then None else Some h
      | None => None
      end
  | None => None
  end.

Definition url_complete (h : string) : string :=
  if String.prefix "http" h then h else "https://www.deliberations.be" +:+ h.

(** The local variables of the [while] loop. *)
Record etat := Etat {
  tous_les_liens : list string;
  liens_vus : gset string;
  page_actuelle : nat;
  pages_vides_consecutives : nat;
}.

(** Body of [for carte in cartes], on (tous_les_liens, liens_vus,
    nouveaux_liens). *)
Definition traiter_carte (acc : list string * gset string * nat) (c : carte)
  : list string * gset string * nat :=
  let '(tous, vus, nouveaux) := acc in
  match href_de_carte c with
  | Some h =>
      let u := url_complete h in
      if bool_decide (u ∈ vus) then acc
      else (tous ++ [u], {[u]} ∪ vus, S nouveaux)
  | None => acc
  end.

Definition traiter_cartes (cs : list carte) (acc : list string * gset string * nat)
  : list string * gset string * nat :=
  foldl traiter_carte acc cs.

Inductive controle :=
  | Continue (s : etat)
  | Break (s : etat).

Definition url_page (seance_id : string) (page_actuelle : nat) : string :=
  if Nat.eqb page_actuelle 0 then
    URL_BASE +:+ "?seance=" +:+ seance_id
  else
    URL_BASE +:+ "?seance=" +:+ seance_id +:+ "&b_start:int=" +:+ pretty page_actuelle.

(** One turn of [while True]. *)
Definition iteration (seance_id : string) (s : etat) : M controle :=
  let url := url_page seance_id (page_actuelle s) in
  print (MsgPage (page_actuelle s / 20 + 1));;
  try_except
    (soup ← requests_get url (Some 10);
     match cartes soup with
     | [] =>
         print MsgAucuneCarte;;
         mret (Break s)
     | _ =>
         let '(tous, vus, nouveaux_liens) :=
           traiter_cartes (cartes soup) (tous_les_liens s, liens_vus s, 0) in
         print (MsgNouvelles nouveaux_liens);;
         if Nat.eqb nouveaux_liens 0 then
           let vides := S (pages_vides_consecutives s) in
           if 2 <=? vides then
             print MsgPlusDeNouvelles;;
             mret (Break (Etat tous vus (page_actuelle s) vides))
           else
             time_sleep 1;;
             mret (Continue (Etat tous vus (page_actuelle s + 20) vides))
         else
           time_sleep 1;;
           mret (Continue (Etat tous vus (page_actuelle s + 20) 0))
     end)
    (fun e =>
       print (MsgErreurPage e);;
       mret (Break s)).

Fixpoint boucle (fuel : nat) (seance_id : string) (s : etat) : M etat :=
  match fuel with
  | 0 => fun m => (Epuise, m)
  | S fuel' =>
      c ← iteration seance_id s;
      match c with
      | Break s' => mret s'
      | Continue s' => boucle fuel' seance_id s'
      end
  end.

Definition etat_initial : etat := Etat [] ∅ 0 0.

Definition extraire_liens_deliberations (fuel : nat) (seance_id : string)
  : M (list string) :=
  print MsgPagination;;
  s ← boucle fuel seance_id etat_initial;
  print (MsgTotal (length (tous_les_liens s)));;
  mret (tous_les_liens s).

(** ** Content Extractor *)

Definition extraire_contenu_deliberation (url : string) : M dict :=
  print (MsgExtraction url);;
  time_sleep DELAI_ENTRE_REQUETES;;
  try_except
    (soup ← requests_get url None;
     let titre_texte :=
       match h1 soup with
       | Some t => t
       | None => "Titre non trouvé"
       end in
     let texte :=
       match article soup with
       | Some t => t
       | None => "Contenu non trouvé"
       end in
     print MsgExtractionReussie;;
     mret [("url", JStr url); ("titre", JStr titre_texte); ("contenu", JStr texte)])
    (fun e =>
       print (MsgErreurExtraction e);;
       mret [("url", JStr url);
             ("titre", JStr "Erreur");
             ("contenu", JStr ("Impossible d'extraire le contenu : " +:+ exc_msg e))]).

(** ** Corpus Store: write *)

Definition sauvegarder_resultats (deliberations : list dict)
    (seance_id seance_nom : option string) (nom_fichier : string) : M unit :=
  print (MsgSauvegarde nom_fichier);;
  maintenant ← datetime_utcnow;
  let export :=
    JObj [("exported_at", JStr (maintenant +:+ "Z"));
          ("seance", JObj [("id", of_option seance_id);
                           ("nom", of_option seance_nom)]);
          ("deliberations", JArr (JObj <$> deliberations))] in
  ouvrir_ecriture nom_fichier;;
  json_dump export nom_fichier;;
  print MsgSauvegardeTerminee.

Fixpoint repeter (n : nat) (s : string) : string :=
  match n with
  | 0 => ""
  | S n' => s +:+ repeter n' s
  end.

(** Body of [for i, delib in enumerate(deliberations, 1)]. *)
Fixpoint ecrire_points (nom_fichier : string) (i : nat) (deliberations : list dict)
  : M unit :=
  match deliberations with
  | [] => mret tt
  | delib :: reste =>
      ecrire nom_fichier (car 10 +:+ repeter 80 "=" +:+ car 10);;
      ecrire nom_fichier ("POINT " +:+ pretty i +:+ car 10);;
      ecrire nom_fichier (repeter 80 "=" +:+ car 10 +:+ car 10);;
      titre ← champ_formate delib "titre";
      ecrire nom_fichier ("TITRE : " +:+ titre +:+ car 10 +:+ car 10);;
      url ← champ_formate delib "url";
      ecrire nom_fichier ("URL : " +:+ url +:+ car 10 +:+ car 10);;
      ecrire nom_fichier ("CONTENU :" +:+ car 10 +:+ repeter 80 "-" +:+ car 10);;
      contenu ← champ delib "contenu";
      ecrire nom_fichier contenu;;
      ecrire nom_fichier (car 10 +:+ car 10);;
      ecrire_points nom_fichier (S i) reste
  end.

Definition creer_resume_texte (deliberations : list dict) (nom_fichier : string)
    (seance_nom : option string) : M unit :=
  print (MsgResume nom_fichier);;
  ouvrir_ecriture nom_fichier;;
  ecrire nom_fichier (repeter 80 "=" +:+ car 10);;
  ecrire nom_fichier ("DÉLIBÉRATIONS DU CONSEIL COMMUNAL DE WAVRE" +:+ car 10);;
  (if truthy (of_option seance_nom)
   then ecrire nom_fichier (default "" seance_nom +:+ car 10)
   else mret tt);;
  ecrire nom_fichier (repeter 80 "=" +:+ car 10 +:+ car 10);;
  ecrire_points nom_fichier 1 deliberations;;
  print MsgResumeCree.

(** ** Main program *)

(** The three ways [main] returns. *)
Inductive issue :=
  | SeanceNonDetectee   (** [if not seance_id: ... return] *)
  | AucunLien           (** [if not liens: ... return] *)
  | Terminee.           (** end of the function *)

(** [for i, lien in enumerate(liens, 1)], appending to [deliberations]. *)
Fixpoint boucle_extraction (liens : list string) (i n : nat)
    (deliberations : list dict) : M (list dict) :=
  match liens with
  | [] => mret deliberations
  | lien :: reste =>
      print (MsgRang i n);;
      delib ← extraire_contenu_deliberation lien;
      boucle_extraction reste (S i) n (deliberations ++ [delib])
  end.

Definition main (fuel : nat) : M issue :=
  print MsgBanniere;;
  '(seance_id, seance_nom) ← detecter_seance_la_plus_recente;
  if negb (truthy (of_option seance_id)) then
    print MsgErreurSeance;;
    mret SeanceNonDetectee
  else
    liens ← extraire_liens_deliberations fuel (default "" seance_id);
    match liens with
    | [] =>
        print MsgAucuneDeliberation;;
        mret AucunLien
    | _ =>
        print (MsgDebutExtraction (length liens));;
        deliberations ← boucle_extraction liens 1 (length liens) [];
        sauvegarder_resultats deliberations seance_id seance_nom
          "deliberations_wavre.json";;
        creer_resume_texte deliberations "resume_deliberations.txt" seance_nom;;
        print MsgExtractionTerminee;;
        mret Terminee
    end.

End Extraire.

(** * pipeline_journalistique.py *)

Module Pipeline.

Definition FICHIER_DELIB : string := "deliberations_wavre.json".
Definition sys_executable : string := "python".

Record arguments := Arguments_ {
  skip_extraction : bool;
  skip_analyse : bool;
  modele : option string;
  details : option (list Z);
  skip_html : bool;
  skip_json : bool;
  force : bool;
}.

(** [subprocess.run(commande, cwd=RACINE, check=True)], as the exit
    status of the child.  [extraire_deliberations.py] runs on the same
    world and exits with 1 on an uncaught exception; of
    [analyser_sujets.py] only the exit status is kept. *)
Definition subprocess_run (fuel : nat) (commande : list string) : M nat := fun m =>
  let m1 := noter (Lancement commande) m in
  match commande with
  | _ :: "extraire_deliberations.py" :: _ =>
      match Extraire.main fuel m1 with
      | (Retour _, m2) => (Retour 0, m2)
      | (Leve _, m2) => (Retour 1, m2)
      | (Epuise, m2) => (Epuise, m2)
      end
  | _ :: "analyser_sujets.py" :: _ => (Retour (code_analyse m), m1)
  | _ => (Retour 2, m1)
  end.

Definition executer (fuel : nat) (description : string) (commande : list string)
  : M unit :=
  print (MsgEtape description);;
  returncode ← subprocess_run fuel commande;
  if Nat.eqb returncode 0 then print (MsgEtapeTerminee description)
  else
    raise (Exc RuntimeError
             ("Échec de l'étape '" +:+ description +:+ "' (code "
              +:+ pretty returncode +:+ ")")).

(** [try: c except (json.JSONDecodeError, OSError) as err: h err] *)
Definition try_except_lecture {A} (c : M A) (h : exception → M A) : M A := fun m =>
  match c m with
  | (Leve e, m') =>
      match exc_classe e with
      | JSONDecodeError | OSError => h e m'
      | _ => (Leve e, m')
      end
  | r => r
  end.

(** ** Corpus Store: read *)

Definition charger_derniere_seance (path : string) : M (json * json) :=
  existe ← path_exists path;
  if negb existe then mret (JNull, JNull)
  else
    lu ← try_except_lecture
           (donnees ← json_load path; mret (Some donnees))
           (fun err => print (MsgLectureImpossible path err);; mret None);
    match lu with
    | None => mret (JNull, JNull)
    | Some (JObj d) =>
        let meta :=
          if truthy (dict_get "seance" d) then dict_get "seance" d else JObj [] in
        id ← methode_get meta "id";
        nom ← methode_get meta "nom";
        mret (id, nom)
    | Some _ => mret (JNull, JNull)
    end.

(** [a == b] where [b] is a string or [None]. *)
Definition egal (a : json) (b : option string) : bool :=
  match a, b with
  | JStr s, Some t => String.eqb s t
  | JNull, None => true
  | _, _ => false
  end.

(** ** Orchestrator *)

(** The three ways [main] returns. *)
Inductive issue :=
  | Ignoree          (** no new session: [return] before any extraction *)
  | SansAnalyse      (** [--skip-analyse]: [return] before the analysis *)
  | Complete.        (** end of the function *)

(** From [if args.skip_analyse:] to the end of [main]. *)
Definition etape_analyse (fuel : nat) (args : arguments) : M issue :=
  if skip_analyse args then
    print MsgAnalyseIgnoree;;
    mret SansAnalyse
  else
    let commande := [sys_executable; "analyser_sujets.py"; "--auto"] in
    let commande :=
      if truthy (of_option (modele args))
      then commande ++ ["--modele"; default "" (modele args)] else commande in
    let commande := if skip_html args then commande ++ ["--skip-html"] else commande in
    let commande := if skip_json args then commande ++ ["--skip-json"] else commande in
    let commande :=
      match details args with
      | Some (n :: l) => commande ++ ["--details"] ++ (pretty <$> n :: l)
      | _ => commande
      end in
    executer fuel "Étape 2/2 - Analyse journalistique et génération des sorties"
      commande;;
    mret Complete.

Definition main (fuel : nat) (args : arguments) : M issue :=
  if negb (skip_extraction args) then
    '(seance_vue_id, seance_vue_nom) ← charger_derniere_seance FICHIER_DELIB;
    '(nouvelle_seance_id, nouvelle_seance_nom) ←
      Extraire.detecter_seance_la_plus_recente;
    if truthy (of_option nouvelle_seance_id)
       && egal seance_vue_id nouvelle_seance_id
       && negb (force args)
    then
      print MsgAucuneNouvelleSeance;;
      mret Ignoree
    else
      (if bool_decide (nouvelle_seance_id = None)
       then print MsgSeanceInconnue else mret tt);;
      executer fuel "Étape 1/2 - Extraction des délibérations"
        [sys_executable; "extraire_deliberations.py"];;
      etape_analyse fuel args
  else
    print MsgExtractionIgnoree;;
    etape_analyse fuel args.

End Pipeline.

(** * analyser_sujets.py *)

Module Analyser.

(** How [charger_deliberations] ends: it returns its pair, leaves the
    interpreter through [sys.exit], or raises. *)
Inductive issue_chargement :=
  | Charge (deliberations meta : json)
  | Quitte (code : nat)
  | Erreur (e : exception).

(** [len(s)] for a decoded text: the number of its code points, that is
    of the bytes that do not continue a UTF-8 sequence. *)
Fixpoint longueur_texte (s : string) : nat :=
  match s with
  | EmptyString => 0
  | String c r => (if suite_utf8 c then 0 else 1) + longueur_texte r
  end.

(** [type(j).__name__] *)
Definition nom_de_type (j : json) : string :=
  match j with
  | JNull => "NoneType"
  | JBool _ => "bool"
  | JInt _ => "int"
  | JFloat _ _ => "float"
  | JStr _ => "str"
  | JArr _ => "list"
  | JObj _ => "dict"
  end.

(** [len(j)]: [None], booleans and numbers have no length. *)
Definition len (j : json) : option nat :=
  match j with
  | JStr s => Some (longueur_texte s)
  | JArr l => Some (length l)
  | JObj d => Some (length d)
  | _ => None
  end.

(** [charger_deliberations(fichier)] on the working directory [fs], the
    path [fichier] being [chemin].  The
    function only reads; its result is the list of the texts it prints,
    in order, and the way it ends. *)
Definition charger_deliberations (chemin : string) (fs : gmap string fichier)
  : list string * issue_chargement :=
  let annonce := "Chargement de " +:+ chemin +:+ "..." in
  match fs !! chemin with
  | None =>
      ([annonce;
        "ERREUR : Le fichier " +:+ chemin +:+ " est introuvable.";
        "Lancez d'abord extraire_deliberations.py"],
       Quitte 1)
  | Some (Inaccessible raison) => ([annonce], Erreur (Exc OSError raison))
  | Some (Octets texte) =>
      if negb (utf8_valide texte) then
        ([annonce], Erreur (Exc UnicodeDecodeError "'utf-8' codec can't decode"))
      else
        match json_loads texte with
        | None =>
            ([annonce],
             Erreur (Exc RuntimeError
                       ("JSON invalide dans " +:+ chemin +:+ " : "
                        +:+ "Expecting value")))
        | Some donnees =>
            let choix :=
              match donnees with
              | JObj d =>
                  if bool_decide ("deliberations" ∈ d.*1)
                  then Some (dict_get "deliberations" d, dict_get "seance" d)
                  else None
              | JArr _ => Some (donnees, JNull)
              | _ => None
              end in
            match choix with
            | None =>
                ([annonce],
                 Erreur (Exc RuntimeError
                           "Format de données inattendu pour les délibérations."))
            | Some (deliberations, meta) =>
                match len deliberations with
                | None =>
                    ([annonce],
                     Erreur (Exc TypeError
                               ("object of type '" +:+ nom_de_type deliberations
                                +:+ "' has no len()")))
                | Some n =>
                    ([annonce;
                      "✓ " +:+ pretty n +:+ " délibération(s) chargée(s)" +:+ car 10],
                     Charge deliberations meta)
                end
            end
        end
  end.

End Analyser.

(** * Proofs *)

#[local] Set Warnings "-clear-no-such-hyp".

(** ** Running the monad *)

Definition ajouter (evs : list evenement) (m : monde) : monde :=
  Monde (site m) (fichiers m) (utcnow m) (code_analyse m) (journal m ++ evs).

Lemma noter_ajouter e m : noter e m = ajouter [e] m.
Proof. reflexivity. Qed.

Lemma ajouter_ajouter evs1 evs2 m :
  ajouter evs2 (ajouter evs1 m) = ajouter (evs1 ++ evs2) m.
Proof. unfold ajouter; simpl. by rewrite app_assoc. Qed.

Lemma ajouter_nil m : ajouter [] m = m.
Proof. destruct m; unfold ajouter; simpl. by rewrite app_nil_r. Qed.

Lemma bind_eq {A B} (c : M A) (k : A → M B) m :
  (c ≫= k) m =
  match c m with
  | (Retour a, m') => k a m'
  | (Leve e, m') => (Leve e, m')
  | (Epuise, m') => (Epuise, m')
  end.
Proof. reflexivity. Qed.

Lemma site_noter e m : site (noter e m) = site m.
Proof. reflexivity. Qed.

Lemma site_ajouter evs m : site (ajouter evs m) = site m.
Proof. reflexivity. Qed.

Ltac executer_monade :=
  cbv beta iota zeta
    delta [mbind M_bind mret M_ret print time_sleep raise requests_get try_except];
  rewrite ?site_noter, ?site_ajouter.

(** Number of events of [evs] that satisfy [f]. *)
Fixpoint compter (f : evenement → bool) (evs : list evenement) : nat :=
  match evs with
  | [] => 0
  | e :: evs' => (if f e then 1 else 0) + compter f evs'
  end.

Lemma compter_app f evs1 evs2 :
  compter f (evs1 ++ evs2) = compter f evs1 + compter f evs2.
Proof. induction evs1 as [|e evs1 IH]; simpl; [done|]. rewrite IH. lia. Qed.

Definition est_requete (e : evenement) : bool :=
  match e with
  | Requete _ _ => true
  | _ => false
  end.

(** A page on which the harvester found at least one new link. *)
Definition est_page_productive (e : evenement) : bool :=
  match e with
  | Affiche (MsgNouvelles (S _)) => true
  | _ => false
  end.

Module ExtraireFaits.
Import Extraire.

(** ** Link Harvester *)

(** The links of a page, in card order, as the harvester reads them. *)
Definition liens_de_cartes (cs : list carte) : list string :=
  omap (λ c, url_complete <$> href_de_carte c) cs.

(** The elements of [l] that are not in [vus] and not earlier in [l],
    in order. *)
Fixpoint nouveaux (vus l : list string) : list string :=
  match l with
  | [] => []
  | x :: l' =>
      if bool_decide (x ∈ vus) then nouveaux vus l'
      else x :: nouveaux (vus ++ [x]) l'
  end.

(** [l] without its repetitions, first occurrences kept. *)
Definition premieres_occurrences (l : list string) : list string := nouveaux [] l.

Lemma nouveaux_app vus l1 l2 :
  nouveaux vus (l1 ++ l2) = nouveaux vus l1 ++ nouveaux (vus ++ nouveaux vus l1) l2.
Proof.
  revert vus. induction l1 as [|x l1 IH]; intros vus; simpl.
  - by rewrite app_nil_r.
  - case_bool_decide; [apply IH|].
    simpl. rewrite IH. by rewrite <- app_assoc.
Qed.

Lemma nouveaux_NoDup vus l : NoDup vus → NoDup (vus ++ nouveaux vus l).
Proof.
  revert vus. induction l as [|x l IH]; intros vus Hnd; simpl.
  - by rewrite app_nil_r.
  - case_bool_decide as Hx; [by apply IH|].
    replace (vus ++ x :: nouveaux (vus ++ [x]) l)
      with ((vus ++ [x]) ++ nouveaux (vus ++ [x]) l) by (by rewrite <- app_assoc).
    apply IH. apply NoDup_app. split_and!; [done| |apply NoDup_singleton].
    intros y Hy Hy'. apply list_elem_of_singleton in Hy'. by subst.
Qed.

Lemma nouveaux_subseteq vus l : nouveaux vus l ⊆ l.
Proof.
  revert vus. induction l as [|x l IH]; intros vus; simpl; [done|].
  case_bool_decide.
  - etrans; [apply IH|]. set_solver.
  - specialize (IH (vus ++ [x])). set_solver.
Qed.

Lemma nouveaux_disjoint vus l x : x ∈ nouveaux vus l → x ∉ vus.
Proof.
  revert vus. induction l as [|y l IH]; intros vus; simpl; [set_solver|].
  case_bool_decide as Hy; [apply IH|].
  intros [->|Hx]%elem_of_cons; [done|].
  apply IH in Hx. set_solver.
Qed.

(** Coherence of the two collections of the loop. *)
Definition coherent (tous : list string) (vus : gset string) : Prop :=
  NoDup tous ∧ ∀ x, x ∈ vus ↔ x ∈ tous.

Lemma traiter_cartes_spec cs tous vus n :
  (∀ x, x ∈ vus ↔ x ∈ tous) →
  traiter_cartes cs (tous, vus, n) =
    (tous ++ nouveaux tous (liens_de_cartes cs),
     list_to_set (nouveaux tous (liens_de_cartes cs)) ∪ vus,
     n + length (nouveaux tous (liens_de_cartes cs))).
Proof.
  unfold traiter_cartes.
  revert tous vus n. induction cs as [|c cs IH]; intros tous vus n Hvus; simpl.
  - rewrite app_nil_r, Nat.add_0_r. f_equal. f_equal. set_solver.
  - unfold liens_de_cartes; simpl. fold (liens_de_cartes cs).
    destruct (href_de_carte c) as [h|]; simpl; [|by apply IH].
    case_bool_decide as Hin; case_bool_decide as Hin'; try (exfalso; naive_solver).
    + by apply IH.
    + rewrite IH.
      * simpl. rewrite <- app_assoc. simpl. f_equal; [f_equal|lia]. set_solver.
      * intros x. rewrite elem_of_app, list_elem_of_singleton. set_solver.
Qed.

Lemma coherent_apres tous vus l :
  coherent tous vus →
  coherent (tous ++ nouveaux tous l) (list_to_set (nouveaux tous l) ∪ vus).
Proof.
  intros [Hnd Hvus]. split; [by apply nouveaux_NoDup|].
  intros x. rewrite elem_of_union, elem_of_list_to_set, elem_of_app, Hvus. tauto.
Qed.


(** What one turn of the loop does with the response to its request:
    the next control state and the events after the request. *)
Definition suivant (s : etat) (r : reponse) : controle :=
  match r with
  | Echec _ => Break s
  | Recu p =>
      match cartes p with
      | [] => Break s
      | _ =>
          let nv := nouveaux (tous_les_liens s) (liens_de_cartes (cartes p)) in
          let tous := tous_les_liens s ++ nv in
          let vus := list_to_set nv ∪ liens_vus s in
          match nv with
          | [] =>
              match pages_vides_consecutives s with
              | 0 => Continue (Etat tous vus (page_actuelle s + 20) 1)
              | S v => Break (Etat tous vus (page_actuelle s) (S (S v)))
              end
          | _ => Continue (Etat tous vus (page_actuelle s + 20) 0)
          end
      end
  end.

Definition trace_suivant (s : etat) (r : reponse) : list evenement :=
  match r with
  | Echec e => [Affiche (MsgErreurPage e)]
  | Recu p =>
      match cartes p with
      | [] => [Affiche MsgAucuneCarte]
      | _ =>
          let nv := nouveaux (tous_les_liens s) (liens_de_cartes (cartes p)) in
          Affiche (MsgNouvelles (length nv)) ::
          match nv with
          | [] =>
              match pages_vides_consecutives s with
              | 0 => [Pause 1]
              | S _ => [Affiche MsgPlusDeNouvelles]
              end
          | _ => [Pause 1]
          end
      end
  end.

Definition trace_iteration (seance_id : string) (s : etat) (r : reponse)
  : list evenement :=
  Affiche (MsgPage (page_actuelle s / 20 + 1))
  :: Requete (url_page seance_id (page_actuelle s)) (Some 10)
  :: trace_suivant s r.

Lemma iteration_eq seance_id s m :
  (∀ x, x ∈ liens_vus s ↔ x ∈ tous_les_liens s) →
  let r := site m (url_page seance_id (page_actuelle s)) in
  iteration seance_id s m =
    (Retour (suivant s r), ajouter (trace_iteration seance_id s r) m).
Proof.
  intros Hvus r. unfold iteration, trace_iteration, suivant, trace_suivant.
  executer_monade. subst r.
  destruct (site m _) as [e|p]; executer_monade.
  - by rewrite !noter_ajouter, !ajouter_ajouter.
  - destruct (cartes p) as [|c cs] eqn:Hcs; executer_monade.
    + by rewrite !noter_ajouter, !ajouter_ajouter.
    + rewrite (traiter_cartes_spec _ _ _ _ Hvus).
      destruct (nouveaux (tous_les_liens s) (liens_de_cartes (c :: cs)))
        as [|x nv] eqn:Hnv; cbn [length Nat.add Nat.eqb]; executer_monade.
      * destruct (pages_vides_consecutives s) as [|v]; cbn [Nat.leb];
          executer_monade; by rewrite !noter_ajouter, !ajouter_ajouter.
      * by rewrite !noter_ajouter, !ajouter_ajouter.
Qed.

Definition liens_de_reponse (r : reponse) : list string :=
  match r with
  | Echec _ => []
  | Recu p => liens_de_cartes (cartes p)
  end.

(** The links met during a run, read off its requests. *)
Definition liens_rencontres (site : string → reponse) (evs : list evenement)
  : list string :=
  evs ≫= λ e,
    match e with
    | Requete url _ => liens_de_reponse (site url)
    | _ => []
    end.

Lemma liens_rencontres_app site evs1 evs2 :
  liens_rencontres site (evs1 ++ evs2) =
  liens_rencontres site evs1 ++ liens_rencontres site evs2.
Proof. unfold liens_rencontres. apply bind_app. Qed.

Lemma trace_iteration_requetes seance_id s r :
  compter est_requete (trace_iteration seance_id s r) = 1.
Proof.
  unfold trace_iteration, trace_suivant. simpl.
  destruct r as [e|p]; [done|].
  destruct (cartes p); [done|].
  destruct (nouveaux _ _); [|done].
  by destruct (pages_vides_consecutives s).
Qed.

Lemma trace_iteration_liens site seance_id s :
  let r := site (url_page seance_id (page_actuelle s)) in
  liens_rencontres site (trace_iteration seance_id s r) = liens_de_reponse r.
Proof.
  intros r. unfold trace_iteration, trace_suivant, liens_rencontres. simpl.
  fold r. destruct r as [e|p]; simpl; [done|].
  destruct (cartes p); simpl; [done|].
  destruct (nouveaux _ _); simpl.
  - destruct (pages_vides_consecutives s); simpl; by rewrite app_nil_r.
  - by rewrite app_nil_r.
Qed.

(** The state reached by a turn, whether the loop goes on or not. *)
Definition etat_de (c : controle) : etat :=
  match c with
  | Continue s | Break s => s
  end.

Lemma suivant_coherent s r :
  coherent (tous_les_liens s) (liens_vus s) →
  let s' := etat_de (suivant s r) in
  coherent (tous_les_liens s') (liens_vus s')
  ∧ tous_les_liens s' =
      tous_les_liens s ++ nouveaux (tous_les_liens s) (liens_de_reponse r).
Proof.
  intros Hc. unfold suivant.
  destruct r as [e|p]; simpl; [by rewrite app_nil_r|].
  destruct (cartes p) as [|c cs] eqn:Hcs; simpl; [by rewrite app_nil_r|].
  pose proof (coherent_apres _ _ (liens_de_cartes (c :: cs)) Hc) as Hc'.
  destruct (nouveaux _ _) eqn:Hnv; simpl.
  - destruct (pages_vides_consecutives s); simpl; split; done.
  - split; done.
Qed.

(** How a turn that goes on moves the counter of empty pages. *)
Lemma suivant_continue seance_id s r s' :
  suivant s r = Continue s' →
  (compter est_page_productive (trace_iteration seance_id s r) = 1
   ∧ pages_vides_consecutives s' = 0)
  ∨ (compter est_page_productive (trace_iteration seance_id s r) = 0
     ∧ pages_vides_consecutives s = 0
     ∧ pages_vides_consecutives s' = 1
     ∧ liens_vus s' = liens_vus s).
Proof.
  unfold suivant, trace_iteration, trace_suivant.
  destruct r as [e|p]; [done|].
  destruct (cartes p) as [|c cs]; [done|].
  destruct (nouveaux _ _) as [|x nv] eqn:Hnv.
  - destruct (pages_vides_consecutives s) eqn:Hv; [|done].
    intros [= <-]. right. simpl. split_and!; try done. set_solver.
  - intros [= <-]. left. by simpl.
Qed.

Lemma suivant_break seance_id s r s' :
  suivant s r = Break s' →
  compter est_page_productive (trace_iteration seance_id s r) = 0.
Proof.
  unfold suivant, trace_iteration, trace_suivant.
  destruct r as [e|p]; [done|].
  destruct (cartes p) as [|c cs]; [done|].
  destruct (nouveaux _ _) as [|x nv] eqn:Hnv; [|done].
  by destruct (pages_vides_consecutives s).
Qed.

(** The loop never raises; when it stops, its journal, its links and the
    number of its turns are as follows. *)
Lemma boucle_spec fuel seance_id s m :
  coherent (tous_les_liens s) (liens_vus s) →
  match boucle fuel seance_id s m with
  | (Retour s', m') =>
      ∃ evs, m' = ajouter evs m
        ∧ coherent (tous_les_liens s') (liens_vus s')
        ∧ tous_les_liens s' =
            tous_les_liens s
            ++ nouveaux (tous_les_liens s) (liens_rencontres (site m) evs)
        ∧ (pages_vides_consecutives s ≤ 1 →
           compter est_requete evs + pages_vides_consecutives s
           ≤ 2 * compter est_page_productive evs + 2)
  | (Leve _, _) => False
  | (Epuise, _) => True
  end.
Proof.
  revert s m. induction fuel as [|fuel IH]; intros s m Hc; simpl; [done|].
  rewrite bind_eq, iteration_eq by apply Hc.
  set (r := site m (url_page seance_id (page_actuelle s))).
  destruct (suivant_coherent s r Hc) as [Hc' Htous].
  pose proof (trace_iteration_requetes seance_id s r) as Hreq.
  pose proof (trace_iteration_liens (site m) seance_id s) as Hliens. fold r in Hliens.
  destruct (suivant s r) as [s1|s1] eqn:Hs; simpl in Hc', Htous.
  - specialize (IH s1 (ajouter (trace_iteration seance_id s r) m) Hc').
    destruct (boucle fuel seance_id s1 _) as [[s'|e|] m']; [|done|done].
    destruct IH as (evs & -> & Hc'' & Htous' & Hborne).
    exists (trace_iteration seance_id s r ++ evs).
    rewrite ajouter_ajouter. split_and!; [done|done| |].
    + rewrite liens_rencontres_app, nouveaux_app, Hliens, app_assoc, <- Htous.
      by rewrite site_ajouter in Htous'.
    + intros Hv. rewrite !compter_app, Hreq.
      destruct (suivant_continue seance_id _ _ _ Hs) as [[-> Hv']|(-> & Hv0 & Hv' & _)];
        rewrite Hv' in Hborne; lia.
  - executer_monade. exists (trace_iteration seance_id s r).
    split_and!; [done|done|by rewrite Hliens|].
    intros Hv. rewrite Hreq. lia.
Qed.

(** The loop stops when the site only ever lists links of a finite set. *)
Lemma boucle_termine (liens_du_site : gset string) fuel seance_id s m :
  (∀ url p x, site m url = Recu p → x ∈ liens_de_cartes (cartes p) →
              x ∈ liens_du_site) →
  coherent (tous_les_liens s) (liens_vus s) →
  pages_vides_consecutives s ≤ 1 →
  2 * size (liens_du_site ∖ liens_vus s) + 2 - pages_vides_consecutives s ≤ fuel →
  ∃ s' m', boucle fuel seance_id s m = (Retour s', m').
Proof.
  intros Hsite. revert s m Hsite.
  induction fuel as [|fuel IH]; intros s m Hsite Hc Hv Hfuel; [lia|].
  simpl. rewrite bind_eq, iteration_eq by apply Hc.
  set (r := site m (url_page seance_id (page_actuelle s))).
  destruct (suivant_coherent s r Hc) as [Hc' Htous].
  destruct (suivant s r) as [s1|s1] eqn:Hs; simpl in Hc', Htous; [|by eexists _, _].
  apply IH; [done|done| |].
  - destruct (suivant_continue seance_id _ _ _ Hs) as [[_ ->]|(_ & _ & -> & _)]; lia.
  - destruct (suivant_continue seance_id _ _ _ Hs) as [[Hp Hv']|(_ & Hv0 & Hv' & Hvus)].
    + rewrite Hv'.
      assert (liens_du_site ∖ liens_vus s1 ⊂ liens_du_site ∖ liens_vus s) as Hsub.
      { unfold suivant in Hs. subst r.
        destruct (site m _) as [e|p] eqn:Hr; [done|].
        destruct (cartes p) as [|c cs] eqn:Hcs; [done|]. rewrite <- Hcs in *.
        destruct (nouveaux _ _) as [|x nv] eqn:Hnv.
        { destruct (pages_vides_consecutives s); [|done].
          injection Hs as <-. done. }
        injection Hs as <-. simpl.
        assert (x ∈ nouveaux (tous_les_liens s) (liens_de_cartes (cartes p)))
          as Hx by (rewrite Hnv; set_solver).
        pose proof (nouveaux_disjoint _ _ _ Hx) as Hx1.
        pose proof (nouveaux_subseteq _ _ _ Hx) as Hx2.
        apply (Hsite _ _ _ Hr) in Hx2.
        destruct Hc as [_ Hc]. rewrite <- Hc in Hx1.
        set_solver. }
      apply subset_size in Hsub. lia.
    + rewrite Hv', Hvus. lia.
Qed.

(** The harvester as a whole: the loop between its two prints. *)
Lemma extraire_liens_deliberations_spec fuel seance_id m :
  match extraire_liens_deliberations fuel seance_id m with
  | (Retour liens, m') =>
      ∃ evs, m' = ajouter evs m
        ∧ NoDup liens
        ∧ liens = premieres_occurrences (liens_rencontres (site m) evs)
        ∧ compter est_requete evs ≤ 2 * compter est_page_productive evs + 2
  | (Leve _, _) => False
  | (Epuise, _) => True
  end.
Proof.
  unfold extraire_liens_deliberations. executer_monade.
  assert (coherent (tous_les_liens etat_initial) (liens_vus etat_initial)) as Hc.
  { split; [constructor|]. intros x. simpl. set_solver. }
  pose proof (boucle_spec fuel seance_id etat_initial
                (noter (Affiche MsgPagination) m) Hc) as H.
  destruct (boucle fuel seance_id etat_initial _) as [[s'|e|] m']; [|done|done].
  destruct H as (evs & -> & [Hnd _] & Htous & Hborne).
  exists (Affiche MsgPagination :: evs ++ [Affiche (MsgTotal (length (tous_les_liens s')))]).
  split_and!.
  - rewrite !noter_ajouter, !ajouter_ajouter. done.
  - done.
  - rewrite Htous. simpl. unfold premieres_occurrences.
    change (Affiche MsgPagination :: ?l) with ([Affiche MsgPagination] ++ l).
    rewrite !liens_rencontres_app. simpl. by rewrite app_nil_r.
  - simpl in Hborne. simpl. rewrite !compter_app. simpl. lia.
Qed.

Lemma extraire_liens_deliberations_termine (liens_du_site : gset string)
    fuel seance_id m :
  (∀ url p x, site m url = Recu p → x ∈ liens_de_cartes (cartes p) →
              x ∈ liens_du_site) →
  2 * size liens_du_site + 2 ≤ fuel →
  ∃ liens m', extraire_liens_deliberations fuel seance_id m = (Retour liens, m').
Proof.
  intros Hsite Hfuel.
  unfold extraire_liens_deliberations. executer_monade.
  destruct (boucle_termine liens_du_site fuel seance_id etat_initial
              (noter (Affiche MsgPagination) m)) as (s' & m' & ->).
  - done.
  - split; [constructor|]. intros x. simpl. set_solver.
  - simpl. lia.
  - simpl. replace (liens_du_site ∖ ∅) with liens_du_site by set_solver. lia.
  - by eexists _, _.
Qed.

End ExtraireFaits.

(** ** Example worlds *)

Module Exemples.
Import Extraire ExtraireFaits.

Definition page_vide : page := Page None [] None None.

(** A site given by a table of URLs; any other URL answers an empty page. *)
Fixpoint site_de (table : list (string * reponse)) (url : string) : reponse :=
  match table with
  | [] => Recu page_vide
  | (u, r) :: table' => if String.eqb u url then r else site_de table' url
  end.

Definition liens_dans (liens_du_site : gset string) (r : reponse) : bool :=
  forallb (λ x, bool_decide (x ∈ liens_du_site)) (liens_de_reponse r).

Lemma site_de_liens (liens_du_site : gset string) table :
  forallb (λ ur, liens_dans liens_du_site ur.2) table = true →
  ∀ url p x, site_de table url = Recu p → x ∈ liens_de_cartes (cartes p) →
             x ∈ liens_du_site.
Proof.
  intros Htable url p x. induction table as [|[u r] table IH]; simpl.
  - intros [= <-]. simpl. set_solver.
  - simpl in Htable. apply andb_true_iff in Htable as [Hr Htable].
    destruct (String.eqb u url); [|by apply IH].
    intros -> Hx. unfold liens_dans in Hr. rewrite forallb_forall in Hr.
    apply list_elem_of_In, Hr in Hx. by apply bool_decide_eq_true in Hx.
Qed.

Definition carte_vers (h : string) : carte := Carte (Some (Ancre (Some h))).

Definition page_liste (cs : list carte) : reponse := Recu (Page None cs None None).

Definition page_seance (id nom : string) : reponse :=
  Recu (Page (Some (Some (OptionHtml (Some id) (Some nom)))) [] None None).

(** A listing whose offset pages overlap: page 2 repeats page 1, pages 4
    and 5 repeat page 3. *)
Definition site_chevauchement : string → reponse :=
  site_de
    [(URL_BASE, page_seance "S1" "Conseil communal du 21 mai");
     (url_page "S1" 0, page_liste [carte_vers "/wavre/decisions/a"]);
     (url_page "S1" 20, page_liste [carte_vers "/wavre/decisions/a"]);
     (url_page "S1" 40, page_liste [carte_vers "/wavre/decisions/b"]);
     (url_page "S1" 60, page_liste [carte_vers "/wavre/decisions/b"]);
     (url_page "S1" 80, page_liste [carte_vers "/wavre/decisions/b"])].

Definition monde_chevauchement : monde :=
  Monde site_chevauchement ∅ "2024-05-22T06:00:00" 0 [].

End Exemples.


(** * Claims about the Link Harvester *)

Module Moissonneur.
Import Extraire ExtraireFaits Exemples.

(** C6 — Deduplication and order.  Whatever pages the site serves, the
    harvester never raises, and the sequence it returns has no repeated
    URL and is exactly the sequence of links met on the fetched pages
    (page after page, card after card) with every repetition after the
    first occurrence removed; and it does return as soon as the site lists
    only links of a finite set. *)
Theorem harvester_dedup_first_seen :
  (∀ fuel seance_id m,
     match extraire_liens_deliberations fuel seance_id m with
     | (Retour liens, m') =>
         ∃ evs, m' = ajouter evs m
           ∧ NoDup liens
           ∧ liens = premieres_occurrences (liens_rencontres (site m) evs)
     | (Leve _, _) => False
     | (Epuise, _) => True
     end)
  ∧ (∀ (liens_du_site : gset string) fuel seance_id m,
       (∀ url p x, site m url = Recu p → x ∈ liens_de_cartes (cartes p) →
                   x ∈ liens_du_site) →
       2 * size liens_du_site + 2 ≤ fuel →
       ∃ liens m',
         extraire_liens_deliberations fuel seance_id m = (Retour liens, m')).
Proof.
  split.
  - intros fuel seance_id m.
    pose proof (extraire_liens_deliberations_spec fuel seance_id m) as H.
    destruct (extraire_liens_deliberations fuel seance_id m) as [[liens|e|] m'];
      [|done|done].
    destruct H as (evs & Hm & Hnd & Hliens & _). by exists evs.
  - intros. by eapply extraire_liens_deliberations_termine.
Qed.

Definition liens_chevauchement : gset string :=
  {[ "https://www.deliberations.be/wavre/decisions/a";
     "https://www.deliberations.be/wavre/decisions/b" ]}.

Lemma harvester_dedup_first_seen_witness :
  ∃ liens m',
    extraire_liens_deliberations 6 "S1" monde_chevauchement = (Retour liens, m').
Proof.
  apply (proj2 harvester_dedup_first_seen liens_chevauchement 6 "S1"
           monde_chevauchement).
  - apply site_de_liens. vm_compute. reflexivity.
  - vm_compute. lia.
Defined.

(** C7, as the spec states it, fails: with overlapping offset pages the
    harvester makes 5 page iterations although only 2 pages yield a new
    link, and 5 > 2 + 2. *)
Lemma pagination_bound_counterexample :
  let run := extraire_liens_deliberations 10 "S1" monde_chevauchement in
  run.1 = Retour ["https://www.deliberations.be/wavre/decisions/a";
                  "https://www.deliberations.be/wavre/decisions/b"]
  ∧ compter est_requete (journal run.2) = 5
  ∧ compter est_page_productive (journal run.2) = 2
  ∧ ¬ (compter est_requete (journal run.2)
       ≤ compter est_page_productive (journal run.2) + 2).
Proof.
  split_and!; [by vm_compute..|].
  vm_compute. lia.
Qed.

(** C7, amended — Bounded termination of pagination.  The harvester
    never raises; a run that stops made at most 2·P + 2 page iterations,
    P being the number of pages that yielded at least one new link; it
    does stop as soon as the site lists only links of a finite set.  A
    turn stops the loop at once on a page without cards, stops it on the
    second consecutive page without a new link, goes on with the counter
    at 1 after a first such page, and goes on with the counter back at 0
    after a page with a new link. *)
Theorem pagination_bounded :
  (∀ fuel seance_id m,
     match extraire_liens_deliberations fuel seance_id m with
     | (Retour liens, m') =>
         ∃ evs, m' = ajouter evs m
           ∧ compter est_requete evs ≤ 2 * compter est_page_productive evs + 2
     | (Leve _, _) => False
     | (Epuise, _) => True
     end)
  ∧ (∀ (liens_du_site : gset string) fuel seance_id m,
       (∀ url p x, site m url = Recu p → x ∈ liens_de_cartes (cartes p) →
                   x ∈ liens_du_site) →
       2 * size liens_du_site + 2 ≤ fuel →
       ∃ liens m',
         extraire_liens_deliberations fuel seance_id m = (Retour liens, m'))
  ∧ (∀ seance_id s m p,
       coherent (tous_les_liens s) (liens_vus s) →
       site m (url_page seance_id (page_actuelle s)) = Recu p →
       match cartes p, nouveaux (tous_les_liens s) (liens_de_cartes (cartes p)),
             pages_vides_consecutives s with
       | [], _, _ => (iteration seance_id s m).1 = Retour (Break s)
       | _ :: _, [], S _ =>
           ∃ s', (iteration seance_id s m).1 = Retour (Break s')
       | _ :: _, [], 0 =>
           ∃ s', (iteration seance_id s m).1 = Retour (Continue s')
                 ∧ pages_vides_consecutives s' = 1
       | _ :: _, _ :: _, _ =>
           ∃ s', (iteration seance_id s m).1 = Retour (Continue s')
                 ∧ pages_vides_consecutives s' = 0
       end).
Proof.
  split_and!.
  - intros fuel seance_id m.
    pose proof (extraire_liens_deliberations_spec fuel seance_id m) as H.
    destruct (extraire_liens_deliberations fuel seance_id m) as [[liens|e|] m'];
      [|done|done].
    destruct H as (evs & Hm & _ & _ & Hborne). by exists evs.
  - intros. by eapply extraire_liens_deliberations_termine.
  - intros seance_id s m p [_ Hvus] Hp.
    rewrite (iteration_eq _ _ _ Hvus). cbn [fst]. rewrite Hp. unfold suivant.
    destruct (cartes p) as [|c cs]; [done|].
    destruct (nouveaux _ _) as [|x nv].
    + destruct (pages_vides_consecutives s); by eexists.
    + by eexists.
Qed.

Lemma pagination_bounded_witness :
  (∃ liens m',
     extraire_liens_deliberations 6 "S1" monde_chevauchement = (Retour liens, m'))
  ∧ (∃ s', (iteration "S1" etat_initial monde_chevauchement).1 = Retour (Continue s')
           ∧ pages_vides_consecutives s' = 0).
Proof.
  split.
  - apply (proj1 (proj2 pagination_bounded) liens_chevauchement 6 "S1"
             monde_chevauchement).
    + apply site_de_liens. vm_compute. reflexivity.
    + vm_compute. lia.
  - apply (proj2 (proj2 pagination_bounded) "S1" etat_initial monde_chevauchement
             (Page None [carte_vers "/wavre/decisions/a"] None None)).
    + split; [constructor|]. intros x. simpl. set_solver.
    + reflexivity.
Defined.

End Moissonneur.

(** * Claims about the Session Detector and the Content Extractor *)

Module Extracteur.
Import Extraire ExtraireFaits Exemples.

(** The record the extractor builds from the response to its request. *)
Definition fiche (url : string) (r : reponse) : dict :=
  match r with
  | Echec e =>
      [("url", JStr url);
       ("titre", JStr "Erreur");
       ("contenu", JStr ("Impossible d'extraire le contenu : " +:+ exc_msg e))]
  | Recu p =>
      [("url", JStr url);
       ("titre", JStr (default "Titre non trouvé" (h1 p)));
       ("contenu", JStr (default "Contenu non trouvé" (article p)))]
  end.

Definition trace_extraction (url : string) (r : reponse) : list evenement :=
  [Affiche (MsgExtraction url); Pause DELAI_ENTRE_REQUETES; Requete url None;
   match r with
   | Echec e => Affiche (MsgErreurExtraction e)
   | Recu _ => Affiche MsgExtractionReussie
   end].

Lemma extraire_contenu_deliberation_eq url m :
  extraire_contenu_deliberation url m =
    (Retour (fiche url (site m url)), ajouter (trace_extraction url (site m url)) m).
Proof.
  unfold extraire_contenu_deliberation, fiche, trace_extraction.
  executer_monade.
  destruct (site m url) as [e|p]; executer_monade.
  - by rewrite !noter_ajouter, !ajouter_ajouter.
  - rewrite !noter_ajouter, !ajouter_ajouter.
    by destruct (h1 p), (article p).
Qed.

Lemma boucle_extraction_eq liens i n deliberations m :
  ∃ evs,
    boucle_extraction liens i n deliberations m =
      (Retour (deliberations ++ ((λ url, fiche url (site m url)) <$> liens)),
       ajouter evs m).
Proof.
  revert i deliberations m.
  induction liens as [|lien liens IH]; intros i deliberations m; simpl.
  - exists []. by rewrite app_nil_r, ajouter_nil.
  - executer_monade. rewrite extraire_contenu_deliberation_eq.
    rewrite !noter_ajouter, !ajouter_ajouter, !site_ajouter.
    destruct (IH (S i) (deliberations ++ [fiche lien (site m lien)])
                (ajouter ([Affiche (MsgRang i n)]
                          ++ trace_extraction lien (site m lien)) m))
      as [evs ->].
    eexists. rewrite ajouter_ajouter, site_ajouter, <- app_assoc. simpl. done.
Qed.

(** The detector, as a function of the response to its one request. *)
Definition resultat_detection (r : reponse)
  : resultat (option string * option string) :=
  match r with
  | Echec e => Leve e
  | Recu p =>
      match select_seance p with
      | Some (Some o) => Retour (opt_value o, opt_title o)
      | _ => Retour (None, None)
      end
  end.

Definition trace_detection (r : reponse) : list evenement :=
  [Affiche MsgDetection; Requete URL_BASE None]
  ++ match r with
     | Echec e => []
     | Recu p =>
         match select_seance p with
         | Some (Some o) => [Affiche (MsgSeanceDetectee (opt_title o) (opt_value o))]
         | _ => [Affiche MsgDetectionImpossible]
         end
     end.

Lemma detecter_seance_la_plus_recente_eq m :
  detecter_seance_la_plus_recente m =
    (resultat_detection (site m URL_BASE),
     ajouter (trace_detection (site m URL_BASE)) m).
Proof.
  unfold detecter_seance_la_plus_recente, resultat_detection, trace_detection.
  executer_monade.
  destruct (site m URL_BASE) as [e|p]; executer_monade.
  - by rewrite !noter_ajouter, !ajouter_ajouter.
  - destruct (select_seance p) as [[o|]|]; executer_monade;
      by rewrite !noter_ajouter, !ajouter_ajouter.
Qed.

(** C2, as the spec states it, fails: when the fetch of the listing page
    raises, the detector lets the exception through instead of returning
    the null pair. *)
Lemma detector_failure_counterexample :
  let m := Monde (site_de [(URL_BASE, Echec (Exc RequestException "Connection refused"))])
                 ∅ "2024-05-22T06:00:00" 0 [] in
  (detecter_seance_la_plus_recente m).1
    = Leve (Exc RequestException "Connection refused")
  ∧ (detecter_seance_la_plus_recente m).1 ≠ Retour (None, None).
Proof. split; by vm_compute. Qed.

(** C2, amended — Session Detector.  The detector makes one request, to
    the listing root.  An exception of the fetch or of the parse is
    propagated to the caller.  When the page is received, the detector
    returns the value and title of the selected option of the session
    selector, and the null pair when the selector or its selected option
    is absent. *)
Theorem detector_result m :
  detecter_seance_la_plus_recente m =
    (match site m URL_BASE with
     | Echec e => Leve e
     | Recu p =>
         match select_seance p with
         | Some (Some o) => Retour (opt_value o, opt_title o)
         | _ => Retour (None, None)
         end
     end,
     ajouter
       ([Affiche MsgDetection; Requete URL_BASE None]
        ++ match site m URL_BASE with
           | Echec e => []
           | Recu p =>
               match select_seance p with
               | Some (Some o) => [Affiche (MsgSeanceDetectee (opt_title o) (opt_value o))]
               | _ => [Affiche MsgDetectionImpossible]
               end
           end) m).
Proof.
  rewrite detecter_seance_la_plus_recente_eq.
  unfold resultat_detection, trace_detection.
  by destruct (site m URL_BASE) as [e|p].
Qed.

(** C8 — Content Extractor error containment.  The extraction of an item
    always returns a record and never raises; when the fetch raises, the
    record has the title "Erreur" and a body made of the fixed message
    followed by the text of the exception.  The extraction loop of the
    main program returns as many records as it was given links, each the
    record of its own link. *)
Theorem extractor_error_containment :
  (∀ url m, ∃ d m', extraire_contenu_deliberation url m = (Retour d, m'))
  ∧ (∀ url m e,
       site m url = Echec e →
       ∃ m', extraire_contenu_deliberation url m =
               (Retour [("url", JStr url);
                        ("titre", JStr "Erreur");
                        ("contenu",
                         JStr ("Impossible d'extraire le contenu : " +:+ exc_msg e))],
                m'))
  ∧ (∀ liens i n m,
       ∃ deliberations m',
         boucle_extraction liens i n [] m = (Retour deliberations, m')
         ∧ length deliberations = length liens
         ∧ Forall2
             (λ url d, ∃ m1 m1',
                site m1 = site m
                ∧ extraire_contenu_deliberation url m1 = (Retour d, m1'))
             liens deliberations).
Proof.
  split_and!.
  - intros url m. rewrite extraire_contenu_deliberation_eq. by eexists _, _.
  - intros url m e He. rewrite extraire_contenu_deliberation_eq, He. by eexists.
  - intros liens i n m.
    destruct (boucle_extraction_eq liens i n [] m) as [evs ->].
    eexists _, _. split_and!; [done|by rewrite app_nil_l, length_fmap|].
    rewrite app_nil_l. apply Forall2_fmap_r, Forall_Forall2_diag, Forall_forall.
    intros url _. exists m. eexists. split; [done|].
    apply extraire_contenu_deliberation_eq.
Qed.

Lemma extractor_error_containment_witness :
  ∃ m', extraire_contenu_deliberation "https://www.deliberations.be/wavre/decisions/a"
          (Monde (site_de [("https://www.deliberations.be/wavre/decisions/a",
                            Echec (Exc RequestException "Read timed out"))])
                 ∅ "2024-05-22T06:00:00" 0 []) =
          (Retour [("url", JStr "https://www.deliberations.be/wavre/decisions/a");
                   ("titre", JStr "Erreur");
                   ("contenu",
                    JStr ("Impossible d'extraire le contenu : " +:+ "Read timed out"))],
           m').
Proof.
  apply (proj1 (proj2 extractor_error_containment)
           "https://www.deliberations.be/wavre/decisions/a" _
           (Exc RequestException "Read timed out")).
  reflexivity.
Defined.

(** C10 — Record shape.  For every URL the extraction returns a
    dictionary whose keys are exactly url, titre and contenu, and whose
    url is the URL it was given, whether the fetch succeeded or raised. *)
Theorem record_shape url m :
  ∃ d m',
    extraire_contenu_deliberation url m = (Retour d, m')
    ∧ d.*1 = ["url"; "titre"; "contenu"]
    ∧ dict_get "url" d = JStr url.
Proof.
  rewrite extraire_contenu_deliberation_eq. eexists _, _. split; [done|].
  by destruct (site m url).
Qed.

End Extracteur.

(** * The serialiser and the decoder agree *)

Module AllerRetour.

#[local] Arguments String.append !_ _ / : simpl nomatch.

Lemma append_assoc (a b c : string) : (a +:+ b) +:+ c = a +:+ (b +:+ c).
Proof. induction a as [|x a IH]; simpl; [done|]. by rewrite IH. Qed.

Lemma append_vide_r (a : string) : a +:+ "" = a.
Proof. induction a as [|x a IH]; simpl; [done|]. by rewrite IH. Qed.

Lemma length_append (a b : string) :
  String.length (a +:+ b) = String.length a + String.length b.
Proof. induction a as [|x a IH]; simpl; [done|]. by rewrite IH. Qed.

(** A string written by [encoder_chaine] is read back as it was. *)
Lemma lire_chaine_echapper s reste acc :
  lire_chaine (echapper s +:+ car 34 +:+ reste) None acc = Some (acc +:+ s, reste).
Proof.
  revert acc. induction s as [|c s IH]; intros acc.
  - simpl. by rewrite append_vide_r.
  - replace (acc +:+ String c s) with ((acc +:+ String c "") +:+ s)
      by (rewrite append_assoc; done).
    rewrite <- (IH (acc +:+ String c "")).
    cbn [echapper]. rewrite append_assoc.
    generalize (echapper s +:+ car 34 +:+ reste). intros suite.
    destruct c as [[] [] [] [] [] [] [] []];
      cbn -[String.append]; rewrite ?append_vide_r; try reflexivity.
    all: cbn; rewrite ?append_vide_r; try reflexivity.
Qed.


(** Documents without numbers whose objects have distinct keys: what
    [sauvegarder_resultats] writes. *)
Fixpoint inscriptible (j : json) : bool :=
  match j with
  | JNull | JBool _ | JStr _ => true
  | JInt _ | JFloat _ _ => false
  | JArr l => forallb inscriptible l
  | JObj d =>
      bool_decide (NoDup d.*1)
      && forallb (λ kv, let '(_, v) := kv in inscriptible v) d
  end.

Fixpoint taille (j : json) : nat :=
  match j with
  | JArr l => S (list_sum (map (λ x, S (taille x)) l))
  | JObj d => S (list_sum (map (λ kv, let '(_, v) := kv in S (taille v)) d))
  | _ => 1
  end.

Lemma json_ind_imbrique (P : json → Prop) :
  P JNull →
  (∀ b, P (JBool b)) →
  (∀ n, P (JInt n)) →
  (∀ nul texte, P (JFloat nul texte)) →
  (∀ s, P (JStr s)) →
  (∀ l, Forall P l → P (JArr l)) →
  (∀ d, Forall (λ kv, P kv.2) d → P (JObj d)) →
  ∀ j, P j.
Proof.
  intros Hnull Hbool Hint Hfloat Hstr Harr Hobj.
  fix IH 1. intros [| b | n | nul texte | s | l | d].
  - apply Hnull.
  - apply Hbool.
  - apply Hint.
  - apply Hfloat.
  - apply Hstr.
  - apply Harr. induction l as [|x l IHl]; constructor; [apply IH|apply IHl].
  - apply Hobj. induction d as [|[k v] d IHd]; constructor; [apply IH|apply IHd].
Qed.

(** The text after the first element of an array, and after the first
    member of an object. *)
Definition suite_elements (niveau : nat) (xs : list json) : string :=
  foldr (λ y acc, "," +:+ retrait (S niveau) +:+ encoder (S niveau) y +:+ acc) "" xs.

Definition suite_membres (niveau : nat) (xs : dict) : string :=
  foldr (λ kv acc,
           let '(k, v) := kv in
           "," +:+ retrait (S niveau) +:+ encoder_chaine k +:+ ": "
           +:+ encoder (S niveau) v +:+ acc) "" xs.

Lemma encoder_arr niveau x xs :
  encoder niveau (JArr (x :: xs)) =
    "[" +:+ retrait (S niveau) +:+ encoder (S niveau) x
    +:+ suite_elements niveau xs +:+ retrait niveau +:+ "]".
Proof. reflexivity. Qed.

Lemma encoder_obj niveau k x xs :
  encoder niveau (JObj ((k, x) :: xs)) =
    "{" +:+ retrait (S niveau) +:+ encoder_chaine k +:+ ": "
    +:+ encoder (S niveau) x
    +:+ suite_membres niveau xs +:+ retrait niveau +:+ "}".
Proof. reflexivity. Qed.

Lemma sauter_blancs_espaces n s : sauter_blancs (espaces n +:+ s) = sauter_blancs s.
Proof. induction n as [|n IH]; [done|]. cbn [espaces]. by rewrite append_assoc. Qed.

Lemma sauter_blancs_retrait niveau s :
  sauter_blancs (retrait niveau +:+ s) = sauter_blancs s.
Proof.
  unfold retrait. rewrite append_assoc. cbn [car String.append sauter_blancs].
  change (est_blanc (ascii_of_N 10)) with true. cbv iota.
  apply sauter_blancs_espaces.
Qed.

(** The first character of an encoded document. *)
Definition premier (j : json) : ascii :=
  match j with
  | JNull => "n"
  | JBool true => "t"
  | JBool false => "f"
  | JStr _ => ascii_of_N 34
  | JArr _ => "["
  | JObj _ => "{"
  | _ => "0"
  end.

Lemma encoder_premier niveau j :
  inscriptible j = true →
  ∃ r, encoder niveau j = String (premier j) r.
Proof.
  destruct j as [| [] | | | s | [|x xs] | [|[k x] xs]]; intros Hj; try done;
    try (by eexists).
Qed.

Lemma sauter_blancs_encoder niveau j reste :
  inscriptible j = true →
  sauter_blancs (encoder niveau j +:+ reste) = encoder niveau j +:+ reste.
Proof.
  intros Hj. destruct (encoder_premier niveau j Hj) as [r ->].
  by destruct j as [| [] | | | | |].
Qed.

Lemma taille_length niveau j :
  inscriptible j = true → taille j ≤ String.length (encoder niveau j).
Proof.
  revert niveau. induction j as [| b | n | nul texte | s | l IH | d IH]
    using json_ind_imbrique; intros niveau Hj; try done.
  - simpl. lia.
  - destruct b; simpl; lia.
  - unfold encoder, encoder_chaine. rewrite !length_append. simpl. lia.
  - destruct l as [|x xs]; [simpl; lia|].
    rewrite encoder_arr, !length_append.
    cbn [inscriptible forallb] in Hj. apply andb_true_iff in Hj as [Hx Hxs].
    apply Forall_cons in IH as [IHx IHxs].
    specialize (IHx (S niveau) Hx).
    assert (list_sum (map (λ y, S (taille y)) xs)
            ≤ String.length (suite_elements niveau xs)) as Hs.
    { clear Hx IHx. induction xs as [|y xs IHl]; [done|].
      cbn [inscriptible forallb] in Hxs. apply andb_true_iff in Hxs as [Hy Hxs].
      apply Forall_cons in IHxs as [IHy IHxs].
      cbn [suite_elements foldr map list_sum]. fold (suite_elements niveau xs).
      rewrite !length_append. specialize (IHy (S niveau) Hy).
      specialize (IHl IHxs Hxs). cbn [String.length]. unfold list_sum in *. lia. }
    cbn [taille map list_sum String.length]. unfold list_sum in *. cbn [foldr]. lia.
  - destruct d as [|[k x] xs]; [simpl; lia|].
    rewrite encoder_obj, !length_append.
    cbn [inscriptible forallb] in Hj. apply andb_true_iff in Hj as [_ Hj].
    cbn [forallb] in Hj. apply andb_true_iff in Hj as [Hx Hxs].
    apply Forall_cons in IH as [IHx IHxs]. cbn [snd] in IHx.
    specialize (IHx (S niveau) Hx).
    assert (list_sum (map (λ kv, let '(_, v) := kv in S (taille v)) xs)
            ≤ String.length (suite_membres niveau xs)) as Hs.
    { clear Hx IHx. induction xs as [|[k' y] xs IHl]; [done|].
      cbn [forallb] in Hxs. apply andb_true_iff in Hxs as [Hy Hxs].
      apply Forall_cons in IHxs as [IHy IHxs]. cbn [snd] in IHy.
      cbn [suite_membres foldr map list_sum fst snd]. fold (suite_membres niveau xs).
      rewrite !length_append. specialize (IHy (S niveau) Hy).
      specialize (IHl IHxs Hxs). cbn [String.length]. unfold list_sum in *. lia. }
    cbn [taille map list_sum String.length]. unfold list_sum in *. cbn [foldr]. lia.
Qed.

(** One step of each of the three mutually recursive readers. *)
Lemma lire_valeur_chaine fuel r :
  lire_valeur (S fuel) (car 34 +:+ r) =
    match lire_chaine r None "" with
    | Some (t, reste) => Some (JStr t, reste)
    | None => None
    end.
Proof. reflexivity. Qed.

Lemma lire_valeur_crochet fuel r :
  lire_valeur (S fuel) ("[" +:+ r) =
    match sauter_blancs r with
    | String "]" reste => Some (JArr [], reste)
    | r1 => lire_elements fuel r1 []
    end.
Proof. reflexivity. Qed.

Lemma lire_valeur_accolade fuel r :
  lire_valeur (S fuel) ("{" +:+ r) =
    match sauter_blancs r with
    | String "}" reste => Some (JObj [], reste)
    | r1 => lire_membres fuel r1 []
    end.
Proof. reflexivity. Qed.

Lemma lire_elements_eq fuel s acc :
  lire_elements (S fuel) s acc =
    match lire_valeur fuel s with
    | Some (v, r) =>
        match sauter_blancs r with
        | String "]" reste => Some (JArr (acc ++ [v]), reste)
        | String "," reste => lire_elements fuel (sauter_blancs reste) (acc ++ [v])
        | _ => None
        end
    | None => None
    end.
Proof. reflexivity. Qed.

Lemma lire_membres_eq fuel r acc :
  lire_membres (S fuel) (car 34 +:+ r) acc =
    match lire_chaine r None "" with
    | Some (k, r1) =>
        match sauter_blancs r1 with
        | String ":" r2 =>
            match lire_valeur fuel (sauter_blancs r2) with
            | Some (v, r3) =>
                match sauter_blancs r3 with
                | String "}" reste => Some (JObj (dict_set k v acc), reste)
                | String "," reste =>
                    lire_membres fuel (sauter_blancs reste) (dict_set k v acc)
                | _ => None
                end
            | None => None
            end
        | _ => None
        end
    | None => None
    end.
Proof. reflexivity. Qed.

Lemma dict_set_nouveau k v (d : dict) :
  k ∉ d.*1 → dict_set k v d = d ++ [(k, v)].
Proof.
  induction d as [|[k' v'] d IH]; intros Hk; simpl; [done|].
  rewrite fmap_cons, not_elem_of_cons in Hk. destruct Hk as [Hne Hk].
  destruct (String.eqb_spec k' k) as [->|_]; [done|]. by rewrite IH.
Qed.

(** What the induction gives for the components of a document. *)
Definition relu (j : json) : Prop :=
  inscriptible j = true
  ∧ ∀ niveau reste fuel,
      taille j ≤ fuel →
      lire_valeur fuel (encoder niveau j +:+ reste) = Some (j, reste).

Lemma crochet_ou_elements fuel (c : ascii) (r : string) :
  c ≠ "]"%char →
  match String c r with
  | String "]" reste => Some (JArr [], reste)
  | r1 => lire_elements fuel r1 []
  end = lire_elements fuel (String c r) [].
Proof. intros Hc. by destruct c as [[] [] [] [] [] [] [] []]. Qed.

Lemma accolade_ou_membres fuel (c : ascii) (r : string) :
  c ≠ "}"%char →
  match String c r with
  | String "}" reste => Some (JObj [], reste)
  | r1 => lire_membres fuel r1 []
  end = lire_membres fuel (String c r) [].
Proof. intros Hc. by destruct c as [[] [] [] [] [] [] [] []]. Qed.

Lemma lire_elements_suite niveau reste xs : ∀ x acc fuel,
  Forall relu (x :: xs) →
  list_sum (map (λ y, S (taille y)) (x :: xs)) ≤ fuel →
  lire_elements fuel
    (encoder (S niveau) x +:+ suite_elements niveau xs
     +:+ retrait niveau +:+ "]" +:+ reste) acc
  = Some (JArr (acc ++ x :: xs), reste).
Proof.
  induction xs as [|y xs IH]; intros x acc fuel Hrelu Hfuel;
    apply Forall_cons in Hrelu as [[Hx Hlire] Hrelu];
    cbn [map list_sum] in Hfuel; unfold list_sum in Hfuel; cbn [foldr] in Hfuel;
    (destruct fuel as [|fuel]; [lia|]);
    rewrite lire_elements_eq, Hlire by lia.
  - cbn [suite_elements foldr]. change ("" +:+ ?s) with s.
    by rewrite sauter_blancs_retrait.
  - cbn [suite_elements foldr]. fold (suite_elements niveau xs).
    rewrite !append_assoc. cbn [String.append sauter_blancs].
    change (est_blanc ",") with false. cbv iota.
    rewrite sauter_blancs_retrait.
    pose proof Hrelu as [[Hy _] _]%Forall_cons.
    rewrite sauter_blancs_encoder by done.
    change (String "]" reste) with ("]" +:+ reste).
    rewrite (IH y (acc ++ [x]) fuel Hrelu).
    + by rewrite <- app_assoc.
    + cbn [map list_sum]. unfold list_sum. cbn [foldr]. lia.
Qed.

Lemma lire_membres_suite niveau reste xs : ∀ k x acc fuel,
  NoDup (acc.*1 ++ k :: xs.*1) →
  relu x → Forall (λ kv, relu kv.2) xs →
  list_sum (map (λ kv, let '(_, v) := kv in S (taille v)) ((k, x) :: xs)) ≤ fuel →
  lire_membres fuel
    (car 34 +:+ echapper k +:+ car 34 +:+ ": " +:+ encoder (S niveau) x
     +:+ suite_membres niveau xs +:+ retrait niveau +:+ "}" +:+ reste) acc
  = Some (JObj (acc ++ (k, x) :: xs), reste).
Proof.
  induction xs as [|[k' y] xs IH]; intros k x acc fuel Hnd [Hx Hlire] Hrelu Hfuel;
    cbn [map list_sum] in Hfuel; unfold list_sum in Hfuel; cbn [foldr] in Hfuel;
    (destruct fuel as [|fuel]; [lia|]);
    rewrite lire_membres_eq, lire_chaine_echapper;
    change ("" +:+ k) with k;
    change (sauter_blancs (": " +:+ ?s)) with (String ":" (String " " s));
    cbv iota;
    change (sauter_blancs (String " " ?s)) with (sauter_blancs s);
    rewrite sauter_blancs_encoder, Hlire by (done || lia);
    (rewrite dict_set_nouveau
       by (apply NoDup_app in Hnd as (_ & Hnd & _); set_solver)).
  - cbn [suite_membres foldr]. change ("" +:+ ?s) with s.
    by rewrite sauter_blancs_retrait.
  - cbn [suite_membres foldr]. fold (suite_membres niveau xs).
    unfold encoder_chaine.
    rewrite !append_assoc. cbn [String.append sauter_blancs].
    change (est_blanc ",") with false. cbv iota.
    rewrite sauter_blancs_retrait.
    apply Forall_cons in Hrelu as [Hy Hrelu]. cbn [snd] in Hy.
    change (String "}" reste) with ("}" +:+ reste).
    change (String (ascii_of_N 34) ?s) with (car 34 +:+ s).
    pose proof (IH k' y (acc ++ [(k, x)]) fuel) as IH'.
    change (": " +:+ ?s) with (String ":" (String " " s)) in IH'.
    change (sauter_blancs (car 34 +:+ ?s)) with (car 34 +:+ s).
    rewrite IH'; try done.
    + by rewrite <- app_assoc.
    + rewrite fmap_app, <- app_assoc. done.
    + cbn [map list_sum]. unfold list_sum. cbn [foldr]. lia.
Qed.

(** Reading back an encoded document, whatever follows it. *)
Lemma lire_valeur_encoder j : inscriptible j = true → relu j.
Proof.
  induction j as [| b | n | nul texte | s | l IH | d IH]
    using json_ind_imbrique; intros Hj; try done; split; try done;
    intros niveau reste fuel Hfuel; (destruct fuel as [|fuel]; [simpl in Hfuel; lia|]).
  - reflexivity.
  - by destruct b.
  - unfold encoder, encoder_chaine. rewrite !append_assoc.
    by rewrite lire_valeur_chaine, lire_chaine_echapper.
  - destruct l as [|x xs]; [reflexivity|].
    assert (Forall relu (x :: xs)) as Hrelu.
    { cbn [inscriptible] in Hj. rewrite forallb_forall in Hj.
      rewrite Forall_forall in IH. apply Forall_forall. intros y Hy.
      apply IH; [done|]. by apply Hj, list_elem_of_In. }
    pose proof Hrelu as [[Hx _] _]%Forall_cons.
    rewrite encoder_arr, !append_assoc, lire_valeur_crochet.
    rewrite sauter_blancs_retrait, sauter_blancs_encoder by done.
    destruct (encoder_premier (S niveau) x Hx) as [r Hr].
    rewrite Hr. cbn [String.append].
    rewrite crochet_ou_elements by (by destruct x as [| [] | | | | |]).
    change (String (premier x) (r +:+ ?s)) with (String (premier x) r +:+ s).
    rewrite <- Hr.
    change (JArr (x :: xs)) with (JArr ([] ++ x :: xs)).
    apply lire_elements_suite; [done|].
    cbn [taille] in Hfuel. lia.
  - destruct d as [|[k x] xs]; [reflexivity|].
    cbn [inscriptible] in Hj. apply andb_true_iff in Hj as [Hnd Hj].
    apply bool_decide_eq_true in Hnd.
    assert (Forall (λ kv, relu kv.2) ((k, x) :: xs)) as Hrelu.
    { rewrite forallb_forall in Hj.
      rewrite Forall_forall in IH. apply Forall_forall. intros [k' y] Hy.
      apply IH; [done|]. cbn [snd]. by apply (Hj (k', y)), list_elem_of_In. }
    apply Forall_cons in Hrelu as [Hx Hrelu]. cbn [snd] in Hx.
    rewrite encoder_obj, !append_assoc, lire_valeur_accolade.
    rewrite sauter_blancs_retrait.
    unfold encoder_chaine at 1. rewrite !append_assoc.
    change (car 34 +:+ ?s) with (String (ascii_of_N 34) s).
    change (sauter_blancs (String (ascii_of_N 34) ?s)) with (String (ascii_of_N 34) s).
    cbv beta iota. rewrite accolade_ou_membres by done.
    change (String (ascii_of_N 34) ?s) with (car 34 +:+ s).
    change (JObj ((k, x) :: xs)) with (JObj ([] ++ (k, x) :: xs)).
    apply lire_membres_suite; try done.
    cbn [taille] in Hfuel. lia.
Qed.

(** A document the pipeline can write is read back as it was. *)
Lemma json_loads_dumps j :
  inscriptible j = true → json_loads (json_dumps j) = Some j.
Proof.
  intros Hj. unfold json_loads, json_dumps.
  destruct (lire_valeur_encoder j Hj) as [_ Hlire].
  rewrite <- (append_vide_r (encoder 0 j)) at 2.
  rewrite sauter_blancs_encoder, Hlire; [done| |done].
  pose proof (taille_length 0 j Hj). lia.
Qed.

End AllerRetour.

(** * The chunks of [json.dump] *)

Module Morceaux.
Import AllerRetour.

#[local] Arguments noter : simpl never.
#[local] Arguments ajouter : simpl never.

(** The chunks of an element of a list, after the buffer [tampon]. *)
Definition morceaux_element (niveau : nat) (tampon : string) (x : json)
  : list string :=
  if est_conteneur x
  then (tampon +:+ retrait (S niveau)) :: morceaux (S niveau) x
  else [tampon +:+ retrait (S niveau) +:+ encoder (S niveau) x].

Definition morceaux_membre (niveau : nat) (k : string) (x : json) : list string :=
  ["," +:+ retrait (S niveau); encoder_chaine k; ": "] ++ morceaux (S niveau) x.

Lemma morceaux_arr niveau x xs :
  morceaux niveau (JArr (x :: xs)) =
    morceaux_element niveau "[" x
    ++ foldr (λ y acc, morceaux_element niveau "," y ++ acc) [] xs
    ++ [retrait niveau; "]"].
Proof. reflexivity. Qed.

Lemma morceaux_obj niveau k x xs :
  morceaux niveau (JObj ((k, x) :: xs)) =
    ["{"; retrait (S niveau); encoder_chaine k; ": "] ++ morceaux (S niveau) x
    ++ foldr (λ kv acc, let '(k', y) := kv in morceaux_membre niveau k' y ++ acc) [] xs
    ++ [retrait niveau; "}"].
Proof. reflexivity. Qed.

Lemma concatener_app ms1 ms2 :
  concatener (ms1 ++ ms2) = concatener ms1 +:+ concatener ms2.
Proof.
  induction ms1 as [|x ms1 IH]; [done|].
  cbn [app concatener foldr]. fold (concatener (ms1 ++ ms2)) (concatener ms1).
  by rewrite IH, append_assoc.
Qed.

Lemma concatener_cons x ms : concatener (x :: ms) = x +:+ concatener ms.
Proof. reflexivity. Qed.

Lemma concatener_element niveau tampon x :
  concatener (morceaux (S niveau) x) = encoder (S niveau) x →
  concatener (morceaux_element niveau tampon x)
  = tampon +:+ retrait (S niveau) +:+ encoder (S niveau) x.
Proof.
  intros Hx. unfold morceaux_element. destruct (est_conteneur x).
  - by rewrite concatener_cons, Hx, append_assoc.
  - by rewrite concatener_cons, append_vide_r.
Qed.

Lemma concatener_suite_elements niveau xs :
  Forall (λ y, ∀ n, concatener (morceaux n y) = encoder n y) xs →
  concatener (foldr (λ y acc, morceaux_element niveau "," y ++ acc) [] xs)
  = suite_elements niveau xs.
Proof.
  induction 1 as [|y ys Hy Hys IH]; [done|].
  cbn [foldr suite_elements]. rewrite concatener_app, concatener_element by apply Hy.
  fold (suite_elements niveau ys). by rewrite IH, !append_assoc.
Qed.

Lemma concatener_suite_membres niveau xs :
  Forall (λ kv : string * json, ∀ n, concatener (morceaux n kv.2) = encoder n kv.2) xs →
  concatener (foldr (λ kv acc, let '(k', y) := kv in
                               morceaux_membre niveau k' y ++ acc) [] xs)
  = suite_membres niveau xs.
Proof.
  induction 1 as [|[k y] ys Hy Hys IH]; [done|].
  cbn [foldr suite_membres]. unfold morceaux_membre at 1.
  rewrite !concatener_app. simpl in Hy. rewrite Hy.
  fold (suite_membres niveau ys). rewrite IH.
  unfold concatener at 1. cbn [foldr]. by rewrite append_vide_r, !append_assoc.
Qed.

(** The chunks, put end to end, are the text of the document. *)
Lemma concatener_morceaux j niveau :
  concatener (morceaux niveau j) = encoder niveau j.
Proof.
  revert niveau. induction j as [| b | n | nul texte | s | l IH | d IH]
    using json_ind_imbrique; intros niveau;
    [reflexivity|by destruct b|apply append_vide_r..| |].
  - destruct l as [|x xs]; [done|].
    rewrite morceaux_arr, encoder_arr, !concatener_app.
    apply Forall_cons in IH as [Hx Hxs].
    rewrite concatener_element by apply Hx.
    rewrite concatener_suite_elements by done.
    unfold concatener. cbn [foldr]. by rewrite append_vide_r, !append_assoc.
  - destruct d as [|[k x] xs]; [done|].
    rewrite morceaux_obj, encoder_obj, !concatener_app.
    apply Forall_cons in IH as [Hx Hxs]. simpl in Hx.
    rewrite Hx, concatener_suite_membres by done.
    unfold concatener. cbn [foldr]. by rewrite !append_vide_r, !append_assoc.
Qed.

Lemma concatener_json_dumps j : concatener (morceaux 0 j) = json_dumps j.
Proof. apply concatener_morceaux. Qed.

Lemma prefixe_encodable_complet ms :
  forallb utf8_valide ms = true → prefixe_encodable ms = ms.
Proof.
  induction ms as [|x ms IH]; [done|]. cbn [forallb prefixe_encodable].
  intros [-> H]%andb_true_iff. by rewrite IH.
Qed.

Lemma prefixe_encodable_partiel ms :
  forallb utf8_valide ms = false → length (prefixe_encodable ms) < length ms.
Proof.
  induction ms as [|x ms IH]; [done|]. cbn [forallb prefixe_encodable].
  destruct (utf8_valide x); simpl; [|lia]. intros H. specialize (IH H). lia.
Qed.

(** The world after the texts [ms] were written to the file [chemin],
    which held [avant]. *)
Definition apres_ecritures (chemin avant : string) (ms : list string) (m : monde)
  : monde :=
  Monde (site m) (<[chemin := Octets (avant +:+ concatener ms)]> (fichiers m))
        (utcnow m) (code_analyse m) (journal m ++ (Ecriture chemin <$> ms)).

(** Writing chunks: those before the first one that cannot be encoded
    reach the file, and that one raises. *)
Lemma ecrire_morceaux_eq chemin ms m avant :
  fichiers m !! chemin = Some (Octets avant) →
  ecrire_morceaux chemin ms m =
    (if forallb utf8_valide ms then Retour tt
     else Leve (Exc UnicodeEncodeError "'utf-8' codec can't encode"),
     apres_ecritures chemin avant (prefixe_encodable ms) m).
Proof.
  revert m avant. induction ms as [|x ms IH]; intros m avant Hf.
  - cbn. unfold apres_ecritures. cbn. rewrite append_vide_r, app_nil_r.
    rewrite insert_id by done. by destruct m.
  - cbn [ecrire_morceaux forallb prefixe_encodable]. rewrite bind_eq.
    unfold ecrire at 1. rewrite Hf.
    destruct (utf8_valide x).
    + cbn [andb]. erewrite IH; [|unfold noter; cbn; apply lookup_insert_eq].
      f_equal. unfold apres_ecritures, noter. cbn.
      rewrite insert_insert_eq, <- !app_assoc. cbn.
      by rewrite append_assoc.
    + cbn [andb]. unfold apres_ecritures. cbn.
      rewrite append_vide_r, app_nil_r, insert_id by done. by destruct m.
Qed.

End Morceaux.

(** * The Corpus Store and the Orchestrator *)

Module PipelineFaits.
Import Extraire ExtraireFaits Exemples Extracteur Pipeline.

#[local] Arguments noter : simpl never.
#[local] Arguments ajouter : simpl never.

Lemma fichiers_ajouter evs m : fichiers (ajouter evs m) = fichiers m.
Proof. reflexivity. Qed.

Lemma journal_ajouter evs m : journal (ajouter evs m) = journal m ++ evs.
Proof. reflexivity. Qed.

(** ** Reading the last session *)

(** What [charger_derniere_seance] makes of the document it loaded. *)
Definition seance_du_document (donnees : json) : resultat (json * json) :=
  match donnees with
  | JObj d =>
      match (if truthy (dict_get "seance" d) then dict_get "seance" d else JObj []) with
      | JObj meta => Retour (dict_get "id" meta, dict_get "nom" meta)
      | _ => Leve (Exc AttributeError "object has no attribute 'get'")
      end
  | _ => Retour (JNull, JNull)
  end.

Lemma charger_derniere_seance_eq path m :
  charger_derniere_seance path m =
    match fichiers m !! path with
    | None => (Retour (JNull, JNull), m)
    | Some (Inaccessible raison) =>
        (Retour (JNull, JNull),
         ajouter [Lecture path;
                  Affiche (MsgLectureImpossible path (Exc OSError raison))] m)
    | Some (Octets s) =>
        if utf8_valide s then
          match json_loads s with
          | Some donnees => (seance_du_document donnees, ajouter [Lecture path] m)
          | None =>
              (Retour (JNull, JNull),
               ajouter [Lecture path;
                        Affiche (MsgLectureImpossible path
                                   (Exc JSONDecodeError "Expecting value"))] m)
          end
        else
          (Leve (Exc UnicodeDecodeError "'utf-8' codec can't decode"),
           ajouter [Lecture path] m)
    end.
Proof.
  unfold charger_derniere_seance, path_exists, try_except_lecture, json_load,
    lire_fichier, seance_du_document.
  executer_monade.
  destruct (fichiers m !! path) as [[raison|s]|] eqn:Hf; simpl;
    rewrite ?Hf; simpl.
  - by rewrite !noter_ajouter, !ajouter_ajouter.
  - destruct (utf8_valide s); simpl; [|done].
    destruct (json_loads s) as [donnees|]; simpl;
      [|by rewrite !noter_ajouter, !ajouter_ajouter].
    destruct donnees as [| | | | | |d]; try done.
    unfold methode_get.
    destruct (if truthy (dict_get "seance" d) then dict_get "seance" d else JObj [])
      as [| | | | | |meta]; done.
  - done.
Qed.

(** The result of reading the last session depends on the files only. *)
Lemma charger_derniere_seance_fichiers path m1 m2 :
  fichiers m1 = fichiers m2 →
  (charger_derniere_seance path m1).1 = (charger_derniere_seance path m2).1.
Proof.
  intros Hf. rewrite !charger_derniere_seance_eq, Hf.
  destruct (fichiers m2 !! path) as [[raison|s]|]; [done| |done].
  destruct (utf8_valide s); [|done]. by destruct (json_loads s).
Qed.

Definition est_ecriture (e : evenement) : bool :=
  match e with
  | Troncature _ | Ecriture _ _ => true
  | _ => false
  end.

(** Reading the last session makes no request and writes nothing. *)
Lemma charger_derniere_seance_trace path m :
  ∃ evs, (charger_derniere_seance path m).2 = ajouter evs m
         ∧ compter est_requete evs = 0
         ∧ compter est_ecriture evs = 0.
Proof.
  rewrite charger_derniere_seance_eq.
  destruct (fichiers m !! path) as [[raison|s]|].
  - by eexists.
  - destruct (utf8_valide s); [|by eexists].
    destruct (json_loads s); by eexists.
  - exists []. by rewrite ajouter_nil.
Qed.

Lemma charger_derniere_seance_chaine path m id nom :
  (charger_derniere_seance path m).1 = Retour (JStr id, nom) →
  charger_derniere_seance path m = (Retour (JStr id, nom), ajouter [Lecture path] m).
Proof.
  rewrite charger_derniere_seance_eq.
  destruct (fichiers m !! path) as [[raison|s]|]; [done| |done].
  destruct (utf8_valide s); [|done].
  destruct (json_loads s); [|done].
  simpl. by intros ->.
Qed.

(** ** The extraction program *)

Lemma trace_iteration_ecritures seance_id s r :
  compter est_ecriture (trace_iteration seance_id s r) = 0.
Proof.
  unfold trace_iteration, trace_suivant. simpl.
  destruct r as [e|p]; [done|].
  destruct (cartes p); [done|].
  destruct (nouveaux _ _); [|done].
  by destruct (pages_vides_consecutives s).
Qed.

(** The loop writes no file, and its result depends on the site only. *)
Lemma boucle_trace fuel seance_id s m :
  coherent (tous_les_liens s) (liens_vus s) →
  ∃ evs, (boucle fuel seance_id s m).2 = ajouter evs m
         ∧ compter est_ecriture evs = 0.
Proof.
  revert s m. induction fuel as [|fuel IH]; intros s m Hc; simpl.
  - exists []. by rewrite ajouter_nil.
  - rewrite bind_eq, iteration_eq by apply Hc.
    set (r := site m (url_page seance_id (page_actuelle s))).
    destruct (suivant_coherent s r Hc) as [Hc' _].
    pose proof (trace_iteration_ecritures seance_id s r) as Hw.
    destruct (suivant s r) as [s1|s1]; simpl in Hc'.
    + destruct (IH s1 (ajouter (trace_iteration seance_id s r) m) Hc')
        as (evs & Hevs & Hw').
      exists (trace_iteration seance_id s r ++ evs).
      rewrite <- ajouter_ajouter, <- Hevs, compter_app, Hw, Hw'. split; [|done].
      by destruct (boucle fuel seance_id s1 _) as [[?|?|] ?].
    + by eexists.
Qed.

Lemma boucle_site fuel seance_id s m1 m2 :
  coherent (tous_les_liens s) (liens_vus s) →
  site m1 = site m2 →
  (boucle fuel seance_id s m1).1 = (boucle fuel seance_id s m2).1.
Proof.
  revert s m1 m2. induction fuel as [|fuel IH]; intros s m1 m2 Hc Hs; simpl; [done|].
  rewrite !bind_eq, !iteration_eq by apply Hc. rewrite Hs.
  set (r := site m2 (url_page seance_id (page_actuelle s))).
  destruct (suivant_coherent s r Hc) as [Hc' _].
  destruct (suivant s r) as [s1|s1]; simpl in Hc'; [|done].
  by apply IH.
Qed.

Lemma extraire_liens_deliberations_site fuel seance_id m1 m2 :
  site m1 = site m2 →
  (extraire_liens_deliberations fuel seance_id m1).1
  = (extraire_liens_deliberations fuel seance_id m2).1.
Proof.
  intros Hs. unfold extraire_liens_deliberations. executer_monade.
  assert (coherent (tous_les_liens etat_initial) (liens_vus etat_initial)) as Hc.
  { split; [constructor|]. intros x. simpl. set_solver. }
  pose proof (boucle_site fuel seance_id etat_initial
                (noter (Affiche MsgPagination) m1)
                (noter (Affiche MsgPagination) m2) Hc Hs) as H.
  destruct (boucle fuel seance_id etat_initial (noter _ m1)) as [[?|?|] ?],
           (boucle fuel seance_id etat_initial (noter _ m2)) as [[?|?|] ?];
    simpl in H; by simplify_eq.
Qed.

Lemma extraire_liens_deliberations_trace fuel seance_id m :
  ∃ evs, (extraire_liens_deliberations fuel seance_id m).2 = ajouter evs m
         ∧ compter est_ecriture evs = 0.
Proof.
  unfold extraire_liens_deliberations. executer_monade.
  assert (coherent (tous_les_liens etat_initial) (liens_vus etat_initial)) as Hc.
  { split; [constructor|]. intros x. simpl. set_solver. }
  destruct (boucle_trace fuel seance_id etat_initial
              (noter (Affiche MsgPagination) m) Hc) as (evs & Hevs & Hw).
  destruct (boucle fuel seance_id etat_initial _) as [[s'|e|] m'];
    simpl in Hevs; subst m'; rewrite !noter_ajouter, !ajouter_ajouter.
  - eexists. split; [done|]. simpl. rewrite compter_app, Hw. done.
  - by eexists.
  - by eexists.
Qed.

(** The program gives up when the detector returns no session. *)
Lemma main_sans_seance fuel m id nom :
  resultat_detection (site m URL_BASE) = Retour (id, nom) →
  truthy (of_option id) = false →
  Extraire.main fuel m =
    (Retour SeanceNonDetectee,
     ajouter ([Affiche MsgBanniere] ++ trace_detection (site m URL_BASE)
              ++ [Affiche MsgErreurSeance]) m).
Proof.
  intros Hd Hid. unfold Extraire.main. executer_monade.
  rewrite detecter_seance_la_plus_recente_eq, site_noter, Hd, Hid.
  executer_monade. cbn [negb].
  by rewrite !noter_ajouter, !ajouter_ajouter.
Qed.

(** The program stops without writing when the harvester returns no link. *)
Lemma main_aucun_lien fuel m sid nom :
  resultat_detection (site m URL_BASE) = Retour (Some sid, nom) →
  sid ≠ "" →
  (extraire_liens_deliberations fuel sid m).1 = Retour [] →
  ∃ evs, Extraire.main fuel m = (Retour AucunLien, ajouter evs m)
         ∧ last evs = Some (Affiche MsgAucuneDeliberation)
         ∧ compter est_ecriture evs = 0.
Proof.
  intros Hd Hid Hliens. unfold Extraire.main. executer_monade.
  rewrite detecter_seance_la_plus_recente_eq, site_noter, Hd.
  assert (truthy (of_option (Some sid)) = true) as ->.
  { simpl. by apply negb_true_iff, String.eqb_neq. }
  executer_monade. cbn [negb default from_option]. unfold id.
  set (m1 := ajouter _ (noter _ m)).
  rewrite (extraire_liens_deliberations_site fuel sid m m1) in Hliens by done.
  destruct (extraire_liens_deliberations_trace fuel sid m1) as (evs & Hevs & Hw).
  destruct (extraire_liens_deliberations fuel sid m1) as [r m2].
  simpl in Hliens, Hevs. subst r m2 m1. executer_monade.
  rewrite !noter_ajouter, !ajouter_ajouter. eexists. split_and!; [done| |].
  { by rewrite !app_assoc, last_snoc. }
  rewrite !compter_app, Hw. simpl.
  unfold trace_detection. simpl.
  destruct (site m URL_BASE) as [e|p]; [done|].
  by destruct (select_seance p) as [[o|]|].
Qed.

(** ** The orchestrator *)

Definition etape_extraction : string := "Étape 1/2 - Extraction des délibérations".

Definition commande_extraction : list string :=
  [sys_executable; "extraire_deliberations.py"].

Lemma executer_extraction fuel m :
  executer fuel etape_extraction commande_extraction m =
    match Extraire.main fuel
            (ajouter [Affiche (MsgEtape etape_extraction);
                      Lancement commande_extraction] m) with
    | (Retour _, m') => (Retour tt, ajouter [Affiche (MsgEtapeTerminee etape_extraction)] m')
    | (Leve _, m') =>
        (Leve (Exc RuntimeError
                 ("Échec de l'étape '" +:+ etape_extraction +:+ "' (code "
                  +:+ pretty 1 +:+ ")")), m')
    | (Epuise, m') => (Epuise, m')
    end.
Proof.
  unfold executer, subprocess_run. executer_monade.
  cbn [commande_extraction sys_executable].
  rewrite !noter_ajouter, !ajouter_ajouter.
  by destruct (Extraire.main fuel _) as [[?|?|] ?].
Qed.

(** The orchestrator returns at once when the detected session is the
    one of the snapshot. *)
Lemma main_ignoree fuel args m sid vu_nom nom :
  skip_extraction args = false →
  force args = false →
  (charger_derniere_seance FICHIER_DELIB m).1 = Retour (JStr sid, vu_nom) →
  resultat_detection (site m URL_BASE) = Retour (Some sid, nom) →
  sid ≠ "" →
  Pipeline.main fuel args m =
    (Retour Ignoree,
     ajouter [Lecture FICHIER_DELIB;
              Affiche MsgDetection;
              Requete URL_BASE None;
              Affiche (MsgSeanceDetectee nom (Some sid));
              Affiche MsgAucuneNouvelleSeance] m).
Proof.
  intros Hskip Hforce Hvu Hd Hsid.
  unfold Pipeline.main. rewrite Hskip, Hforce. cbn [negb]. executer_monade.
  rewrite (charger_derniere_seance_chaine _ _ _ _ Hvu).
  rewrite detecter_seance_la_plus_recente_eq, site_ajouter, Hd.
  cbn [of_option truthy egal].
  assert (String.eqb sid "" = false) as -> by by apply String.eqb_neq.
  rewrite String.eqb_refl. cbn [negb andb]. executer_monade.
  rewrite !noter_ajouter, !ajouter_ajouter.
  unfold trace_detection, resultat_detection in *.
  destruct (site m URL_BASE) as [e|p]; [done|].
  destruct (select_seance p) as [[o|]|]; [|done..].
  by injection Hd as -> ->.
Qed.

End PipelineFaits.

(** * Claims about the Orchestrator and the Corpus Store *)

Module Orchestrateur.
Import Extraire ExtraireFaits Exemples Extracteur Pipeline PipelineFaits AllerRetour
  Morceaux.

Definition sans_options : arguments :=
  Arguments_ false false None None false false false.

(** A snapshot as [sauvegarder_resultats] writes it. *)
Definition instantane (exported_at : string) (id nom : option string)
    (deliberations : list dict) : string :=
  json_dumps
    (JObj [("exported_at", JStr exported_at);
           ("seance", JObj [("id", of_option id); ("nom", of_option nom)]);
           ("deliberations", JArr (JObj <$> deliberations))]).

(** The session of the snapshot is the one the site shows as selected. *)
Definition monde_deja_moissonne : monde :=
  Monde (site_de [(URL_BASE, page_seance "S1" "Conseil communal du 21 mai")])
        {[ FICHIER_DELIB :=
             Octets (instantane "2024-05-21T06:00:00Z" (Some "S1")
                       (Some "Conseil communal du 21 mai") []) ]}
        "2024-05-22T06:00:00" 0 [].

(** The same, with a selected option whose value is the empty string. *)
Definition monde_seance_vide : monde :=
  Monde (site_de [(URL_BASE, page_seance "" "Toutes les séances")])
        {[ FICHIER_DELIB :=
             Octets (instantane "2024-05-21T06:00:00Z" (Some "")
                       (Some "Toutes les séances") []) ]}
        "2024-05-22T06:00:00" 0 [].

Definition est_lancement (e : evenement) : bool :=
  match e with
  | Lancement _ => true
  | _ => false
  end.

(** C1, as the spec states it, fails: the detected and the stored
    identifiers are equal and not null (both the empty string), no flag is
    set, and the orchestrator does not skip: it launches the extraction
    and the analysis.  And a run that does skip is not free of network
    fetches: it has made the detection request. *)
Lemma idempotent_skip_counterexample :
  let run := Pipeline.main 10 sans_options monde_seance_vide in
  let saut := Pipeline.main 10 sans_options monde_deja_moissonne in
  (charger_derniere_seance FICHIER_DELIB monde_seance_vide).1
    = Retour (JStr "", JStr "Toutes les séances")
  ∧ (detecter_seance_la_plus_recente monde_seance_vide).1
    = Retour (Some "", Some "Toutes les séances")
  ∧ run.1 = Retour Complete
  ∧ run.1 ≠ Retour Ignoree
  ∧ compter est_lancement (journal run.2) = 2
  ∧ saut.1 = Retour Ignoree
  ∧ compter est_requete (journal saut.2) = 1.
Proof. split_and!; by vm_compute. Qed.

(** C1, amended — Idempotent skip.  When extraction is not disabled, the
    force flag is not set, and the detected session identifier is a
    non-empty string equal to the identifier stored in the snapshot, the
    orchestrator returns at once: after reading the snapshot it makes the
    one detection request and nothing else — no extraction is launched,
    no file is written.  Run again on the world it leaves, it does the
    same, and the files are those of the start. *)
Theorem idempotent_skip fuel args m sid vu_nom nom :
  skip_extraction args = false →
  force args = false →
  (charger_derniere_seance FICHIER_DELIB m).1 = Retour (JStr sid, vu_nom) →
  (detecter_seance_la_plus_recente m).1 = Retour (Some sid, nom) →
  sid ≠ "" →
  let evs := [Lecture FICHIER_DELIB;
              Affiche MsgDetection;
              Requete URL_BASE None;
              Affiche (MsgSeanceDetectee nom (Some sid));
              Affiche MsgAucuneNouvelleSeance] in
  Pipeline.main fuel args m = (Retour Ignoree, ajouter evs m)
  ∧ Pipeline.main fuel args (ajouter evs m) = (Retour Ignoree, ajouter (evs ++ evs) m)
  ∧ fichiers (ajouter (evs ++ evs) m) = fichiers m.
Proof.
  intros Hskip Hforce Hvu Hd Hsid evs.
  rewrite detecter_seance_la_plus_recente_eq in Hd. simpl in Hd.
  split_and!.
  - by apply (main_ignoree _ _ _ _ vu_nom).
  - rewrite <- ajouter_ajouter. apply (main_ignoree _ _ _ _ vu_nom); try done.
    by rewrite (charger_derniere_seance_fichiers _ _ m).
  - done.
Qed.

Lemma idempotent_skip_witness :
  Pipeline.main 10 sans_options monde_deja_moissonne
  = (Retour Ignoree,
     ajouter [Lecture FICHIER_DELIB;
              Affiche MsgDetection;
              Requete URL_BASE None;
              Affiche (MsgSeanceDetectee (Some "Conseil communal du 21 mai") (Some "S1"));
              Affiche MsgAucuneNouvelleSeance] monde_deja_moissonne).
Proof.
  apply (idempotent_skip 10 sans_options monde_deja_moissonne "S1"
           (JStr "Conseil communal du 21 mai") (Some "Conseil communal du 21 mai")).
  - reflexivity.
  - reflexivity.
  - by vm_compute.
  - by vm_compute.
  - discriminate.
Defined.


(** The site shows no session selector; its listing has two items. *)
Definition monde_sans_selecteur : monde :=
  Monde (site_de
           [(URL_BASE,
             page_liste [carte_vers "/wavre/decisions/a"; carte_vers "/wavre/decisions/b"]);
            (url_page "None" 0,
             page_liste [carte_vers "/wavre/decisions/a"; carte_vers "/wavre/decisions/b"])])
        ∅ "2024-05-22T06:00:00" 0 [].

Definition etape_analyse_texte : string :=
  "Étape 2/2 - Analyse journalistique et génération des sorties".

(** C5, as the spec states it, fails: the session is unknown and no flag
    is set; the orchestrator prints its warning and launches the
    extraction program, which detects again, reports the error and
    returns: the only requests of the run are the two detection requests,
    no listing page is fetched and no snapshot is written. *)
Lemma unknown_session_counterexample :
  let run := Pipeline.main 10 sans_options monde_sans_selecteur in
  (detecter_seance_la_plus_recente monde_sans_selecteur).1 = Retour (None, None)
  ∧ run.1 = Retour Complete
  ∧ journal run.2 =
      [Affiche MsgDetection; Requete URL_BASE None; Affiche MsgDetectionImpossible;
       Affiche MsgSeanceInconnue;
       Affiche (MsgEtape etape_extraction); Lancement commande_extraction;
       Affiche MsgBanniere;
       Affiche MsgDetection; Requete URL_BASE None; Affiche MsgDetectionImpossible;
       Affiche MsgErreurSeance;
       Affiche (MsgEtapeTerminee etape_extraction);
       Affiche (MsgEtape etape_analyse_texte);
       Lancement [sys_executable; "analyser_sujets.py"; "--auto"];
       Affiche (MsgEtapeTerminee etape_analyse_texte)]
  ∧ fichiers run.2 !! FICHIER_DELIB = None.
Proof. split_and!; by vm_compute. Qed.

(** C5, amended — Unknown-session progress.  When extraction is not
    disabled, the snapshot is read without error and session detection
    returns no identifier, the orchestrator (whatever the force flag)
    prints its warning and launches the extraction program.  That program
    detects the session again, finds none, reports the error and returns
    without running the Link Harvester: the run up to the analysis step
    makes exactly two requests, the two detection requests, and the
    orchestrator goes on to the analysis step. *)
Theorem unknown_session_progress fuel args m vu nom :
  skip_extraction args = false →
  (charger_derniere_seance FICHIER_DELIB m).1 = Retour vu →
  (detecter_seance_la_plus_recente m).1 = Retour (None, nom) →
  ∃ evs_lecture evs_detection,
    let evs :=
      evs_lecture ++ evs_detection
      ++ [Affiche MsgSeanceInconnue;
          Affiche (MsgEtape etape_extraction);
          Lancement commande_extraction;
          Affiche MsgBanniere]
      ++ evs_detection
      ++ [Affiche MsgErreurSeance;
          Affiche (MsgEtapeTerminee etape_extraction)] in
    (charger_derniere_seance FICHIER_DELIB m).2 = ajouter evs_lecture m
    ∧ (detecter_seance_la_plus_recente m).2 = ajouter evs_detection m
    ∧ Pipeline.main fuel args m = etape_analyse fuel args (ajouter evs m)
    ∧ compter est_requete evs = 2
    ∧ compter est_ecriture evs = 0.
Proof.
  intros Hskip Hvu Hd.
  rewrite detecter_seance_la_plus_recente_eq in Hd. simpl in Hd.
  destruct (charger_derniere_seance_trace FICHIER_DELIB m)
    as (evs_lecture & Hl & Hreq & Hecr).
  exists evs_lecture, (trace_detection (site m URL_BASE)).
  split_and!; [done|by rewrite detecter_seance_la_plus_recente_eq| | |].
  - unfold Pipeline.main. rewrite Hskip. cbn [negb]. executer_monade.
    destruct (charger_derniere_seance FICHIER_DELIB m) as [r m1].
    simpl in Hvu, Hl. subst r m1. destruct vu as [vu_id vu_nom].
    rewrite detecter_seance_la_plus_recente_eq, site_ajouter, Hd.
    cbn [of_option truthy andb]. executer_monade.
    rewrite bool_decide_eq_true_2 by done.
    fold etape_extraction commande_extraction.
    rewrite executer_extraction.
    rewrite !noter_ajouter, !ajouter_ajouter.
    erewrite main_sans_seance by (rewrite ?site_ajouter; done).
    rewrite !ajouter_ajouter, !site_ajouter.
    f_equal. f_equal. by rewrite <- !app_assoc.
  - rewrite !compter_app, Hreq. simpl.
    unfold trace_detection. simpl.
    destruct (site m URL_BASE) as [e|p]; [done|].
    by destruct (select_seance p) as [[o|]|].
  - rewrite !compter_app, Hecr. simpl.
    unfold trace_detection. simpl.
    destruct (site m URL_BASE) as [e|p]; [done|].
    by destruct (select_seance p) as [[o|]|].
Qed.

Lemma unknown_session_progress_witness :
  ∃ evs_lecture evs_detection,
    let evs :=
      evs_lecture ++ evs_detection
      ++ [Affiche MsgSeanceInconnue;
          Affiche (MsgEtape etape_extraction);
          Lancement commande_extraction;
          Affiche MsgBanniere]
      ++ evs_detection
      ++ [Affiche MsgErreurSeance;
          Affiche (MsgEtapeTerminee etape_extraction)] in
    (charger_derniere_seance FICHIER_DELIB monde_sans_selecteur).2
      = ajouter evs_lecture monde_sans_selecteur
    ∧ (detecter_seance_la_plus_recente monde_sans_selecteur).2
      = ajouter evs_detection monde_sans_selecteur
    ∧ Pipeline.main 10 sans_options monde_sans_selecteur
      = etape_analyse 10 sans_options (ajouter evs monde_sans_selecteur)
    ∧ compter est_requete evs = 2
    ∧ compter est_ecriture evs = 0.
Proof.
  apply (unknown_session_progress 10 sans_options monde_sans_selecteur
           (JNull, JNull) None).
  - reflexivity.
  - by vm_compute.
  - by vm_compute.
Defined.

(** The site shows session S1, whose listing has no item card. *)
Definition monde_liste_vide : monde :=
  Monde (site_de [(URL_BASE, page_seance "S1" "Conseil communal du 21 mai");
                  (url_page "S1" 0, page_liste [])])
        ∅ "2024-05-22T06:00:00" 0 [].

(** C3, as the spec states it, fails: the harvester returns no link, and
    the extraction program returns without writing any snapshot; the
    orchestrator, run a second time on the same site, finds no stored
    session and launches the extraction again instead of skipping. *)
Lemma empty_harvest_counterexample :
  let extraction := Extraire.main 10 monde_liste_vide in
  let run1 := Pipeline.main 10 sans_options monde_liste_vide in
  let run2 := Pipeline.main 10 sans_options run1.2 in
  (extraire_liens_deliberations 10 "S1" monde_liste_vide).1 = Retour []
  ∧ extraction.1 = Retour AucunLien
  ∧ fichiers extraction.2 !! FICHIER_DELIB = None
  ∧ run1.1 = Retour Complete
  ∧ fichiers run1.2 !! FICHIER_DELIB = None
  ∧ (charger_derniere_seance FICHIER_DELIB run1.2).1 = Retour (JNull, JNull)
  ∧ run2.1 = Retour Complete
  ∧ run2.1 ≠ Retour Ignoree
  ∧ compter est_lancement (journal run2.2) = 4.
Proof. split_and!; by vm_compute. Qed.

(** C3, amended — Empty harvest.  Whenever a session is detected and the
    Link Harvester returns no link, the extraction program reports that
    nothing was found and returns without writing anything: the files,
    and with them the last session the Corpus Store reads, are those of
    the start. *)
Theorem empty_harvest_not_persisted fuel m sid nom :
  (detecter_seance_la_plus_recente m).1 = Retour (Some sid, nom) →
  sid ≠ "" →
  (extraire_liens_deliberations fuel sid m).1 = Retour [] →
  ∃ evs,
    Extraire.main fuel m = (Retour AucunLien, ajouter evs m)
    ∧ last evs = Some (Affiche MsgAucuneDeliberation)
    ∧ compter est_ecriture evs = 0
    ∧ fichiers (ajouter evs m) = fichiers m
    ∧ (charger_derniere_seance FICHIER_DELIB (ajouter evs m)).1
      = (charger_derniere_seance FICHIER_DELIB m).1.
Proof.
  intros Hd Hsid Hliens.
  rewrite detecter_seance_la_plus_recente_eq in Hd. simpl in Hd.
  destruct (main_aucun_lien fuel m sid nom Hd Hsid Hliens) as (evs & Hmain & Hdernier & Hw).
  exists evs. split_and!; try done.
  by apply charger_derniere_seance_fichiers.
Qed.

Lemma empty_harvest_not_persisted_witness :
  ∃ evs,
    Extraire.main 10 monde_liste_vide = (Retour AucunLien, ajouter evs monde_liste_vide)
    ∧ last evs = Some (Affiche MsgAucuneDeliberation)
    ∧ compter est_ecriture evs = 0
    ∧ fichiers (ajouter evs monde_liste_vide) = fichiers monde_liste_vide
    ∧ (charger_derniere_seance FICHIER_DELIB (ajouter evs monde_liste_vide)).1
      = (charger_derniere_seance FICHIER_DELIB monde_liste_vide).1.
Proof.
  apply (empty_harvest_not_persisted 10 monde_liste_vide "S1"
           (Some "Conseil communal du 21 mai")).
  - by vm_compute.
  - discriminate.
  - by vm_compute.
Defined.

(** ** Reading the last session *)

(** When the read degrades and when it succeeds. *)
Lemma last_session_read_degrades path m :
  match fichiers m !! path with
  | None | Some (Inaccessible _) =>
      (charger_derniere_seance path m).1 = Retour (JNull, JNull)
  | Some (Octets s) =>
      utf8_valide s = true →
      match json_loads s with
      | None => (charger_derniere_seance path m).1 = Retour (JNull, JNull)
      | Some (JObj d) =>
          match dict_get "seance" d with
          | JObj meta =>
              (charger_derniere_seance path m).1
              = Retour (dict_get "id" meta, dict_get "nom" meta)
          | v =>
              truthy v = false →
              (charger_derniere_seance path m).1 = Retour (JNull, JNull)
          end
      | Some _ => (charger_derniere_seance path m).1 = Retour (JNull, JNull)
      end
  end.
Proof.
  rewrite charger_derniere_seance_eq.
  destruct (fichiers m !! path) as [[raison|s]|]; [done| |done].
  intros ->. destruct (json_loads s) as [[| | | | | |d]|]; try done.
  unfold seance_du_document. cbn [fst].
  destruct (dict_get "seance" d) as [| | | | | |meta];
    try (by intros ->). by destruct meta.
Qed.

(** A snapshot whose [seance] field is a string, not an object. *)
Definition monde_seance_texte : monde :=
  Monde (site_de [(URL_BASE, page_seance "S1" "Conseil communal du 21 mai")])
        {[ FICHIER_DELIB :=
             Octets (json_dumps
                       (JObj [("exported_at", JStr "2024-05-21T06:00:00Z");
                              ("seance", JStr "2024-05-21");
                              ("deliberations", JArr [])])) ]}
        "2024-05-22T06:00:00" 0 [].

(** A snapshot file that is not UTF-8 text. *)
Definition monde_octets_invalides : monde :=
  Monde (site_de [(URL_BASE, page_seance "S1" "Conseil communal du 21 mai")])
        {[ FICHIER_DELIB := Octets (car 255 +:+ car 254) ]}
        "2024-05-22T06:00:00" 0 [].

(** C9 — the code breaks the claim.  On a snapshot that is valid JSON of
    the wrong shape (its [seance] is a string) the read raises
    [AttributeError]; on a file that is not UTF-8 it raises
    [UnicodeDecodeError].  Neither is caught: the exception escapes
    [charger_derniere_seance], and the orchestrator with it. *)
Theorem last_session_read_raises :
  (charger_derniere_seance FICHIER_DELIB monde_seance_texte).1
    = Leve (Exc AttributeError "object has no attribute 'get'")
  ∧ (Pipeline.main 10 sans_options monde_seance_texte).1
    = Leve (Exc AttributeError "object has no attribute 'get'")
  ∧ (charger_derniere_seance FICHIER_DELIB monde_octets_invalides).1
    = Leve (Exc UnicodeDecodeError "'utf-8' codec can't decode").
Proof. split_and!; by vm_compute. Qed.

(** ** Writing the snapshot *)

(** The effect of one event of the journal on the files. *)
Definition rejouer_evenement (fs : gmap string fichier) (e : evenement)
  : gmap string fichier :=
  match e with
  | Troncature chemin => <[chemin := Octets ""]> fs
  | Ecriture chemin texte =>
      let avant :=
        match fs !! chemin with
        | Some (Octets s) => s
        | _ => ""
        end in
      <[chemin := Octets (avant +:+ texte)]> fs
  | _ => fs
  end.

(** The files after the events [evs]: what a reader finds when the run
    is interrupted at that point. *)
Definition rejouer (evs : list evenement) (fs : gmap string fichier)
  : gmap string fichier :=
  foldl rejouer_evenement fs evs.

(** A snapshot of session S0 is in place; session S1 is being stored. *)
Definition monde_avant_ecriture : monde :=
  Monde (site_de [(URL_BASE, page_seance "S1" "Conseil communal du 21 mai")])
        {[ FICHIER_DELIB :=
             Octets (instantane "2024-04-24T06:00:00Z" (Some "S0")
                       (Some "Conseil communal du 23 avril") []) ]}
        "2024-05-22T06:00:00" 0 [].

Definition fiche_a : dict :=
  [("url", JStr "https://www.deliberations.be/wavre/decisions/a");
   ("titre", JStr "Budget");
   ("contenu", JStr "Le conseil approuve.")].

(** A record whose title holds a lone surrogate (U+D800), as a page can
    give it through a character reference. *)
Definition fiche_substitut : dict :=
  [("url", JStr "https://www.deliberations.be/wavre/decisions/a");
   ("titre", JStr (car 237 +:+ car 160 +:+ car 128));
   ("contenu", JStr "Le conseil approuve.")].

(** The document [sauvegarder_resultats] builds. *)
Definition document_exporte (exported_at : string) (id nom : option string)
    (deliberations : list dict) : json :=
  JObj [("exported_at", JStr exported_at);
        ("seance", JObj [("id", of_option id); ("nom", of_option nom)]);
        ("deliberations", JArr (JObj <$> deliberations))].

(** C4, as the spec states it, fails: the write opens the snapshot file
    itself and empties it before writing, then writes the document chunk
    by chunk.  Interrupted after the opening, the run leaves an empty
    file; interrupted after four chunks, a file cut after the first key;
    neither is the previous snapshot nor the new one, and neither parses
    as JSON.  Without any interruption, a record whose title cannot be
    encoded makes the write raise midway and leave such a partial file. *)
Lemma atomic_write_counterexample :
  let ancien := instantane "2024-04-24T06:00:00Z" (Some "S0")
                  (Some "Conseil communal du 23 avril") [] in
  let nouveau := instantane "2024-05-22T06:00:00Z" (Some "S1")
                   (Some "Conseil communal du 21 mai") [fiche_a] in
  let run := sauvegarder_resultats [fiche_a] (Some "S1")
               (Some "Conseil communal du 21 mai") FICHIER_DELIB
               monde_avant_ecriture in
  let coupe := "{" +:+ retrait 1 +:+ encoder_chaine "exported_at" +:+ ": " in
  let echec := sauvegarder_resultats [fiche_substitut] (Some "S1")
                 (Some "Conseil communal du 21 mai") FICHIER_DELIB
                 monde_avant_ecriture in
  let partiel :=
    concatener
      (prefixe_encodable
         (morceaux 0 (document_exporte "2024-05-22T06:00:00Z" (Some "S1")
                        (Some "Conseil communal du 21 mai") [fiche_substitut]))) in
  fichiers monde_avant_ecriture !! FICHIER_DELIB = Some (Octets ancien)
  ∧ json_loads ancien
    = Some (JObj [("exported_at", JStr "2024-04-24T06:00:00Z");
                  ("seance", JObj [("id", JStr "S0");
                                   ("nom", JStr "Conseil communal du 23 avril")]);
                  ("deliberations", JArr [])])
  ∧ run.1 = Retour tt
  ∧ fichiers run.2 !! FICHIER_DELIB = Some (Octets nouveau)
  ∧ json_loads nouveau
    = Some (JObj [("exported_at", JStr "2024-05-22T06:00:00Z");
                  ("seance", JObj [("id", JStr "S1");
                                   ("nom", JStr "Conseil communal du 21 mai")]);
                  ("deliberations", JArr [JObj fiche_a])])
  ∧ take 2 (journal run.2)
    = [Affiche (MsgSauvegarde FICHIER_DELIB); Troncature FICHIER_DELIB]
  ∧ rejouer (take 2 (journal run.2)) (fichiers monde_avant_ecriture) !! FICHIER_DELIB
    = Some (Octets "")
  ∧ "" ≠ ancien ∧ "" ≠ nouveau
  ∧ json_loads "" = None
  ∧ rejouer (take 6 (journal run.2)) (fichiers monde_avant_ecriture) !! FICHIER_DELIB
    = Some (Octets coupe)
  ∧ String.eqb coupe ancien = false
  ∧ String.eqb coupe nouveau = false
  ∧ json_loads coupe = None
  ∧ echec.1 = Leve (Exc UnicodeEncodeError "'utf-8' codec can't encode")
  ∧ fichiers echec.2 !! FICHIER_DELIB = Some (Octets partiel)
  ∧ String.eqb partiel ancien = false
  ∧ json_loads partiel = None.
Proof. split_and!; by vm_compute. Qed.

Lemma rejouer_app evs1 evs2 fs :
  rejouer (evs1 ++ evs2) fs = rejouer evs2 (rejouer evs1 fs).
Proof. apply foldl_app. Qed.

Lemma rejouer_cons e evs fs :
  rejouer (e :: evs) fs = rejouer evs (rejouer_evenement fs e).
Proof. reflexivity. Qed.

(** Replaying writes appends their texts. *)
Lemma rejouer_ecritures f ms fs avant :
  fs !! f = Some (Octets avant) →
  rejouer (Ecriture f <$> ms) fs = <[f := Octets (avant +:+ concatener ms)]> fs.
Proof.
  revert fs avant. induction ms as [|x ms IH]; intros fs avant Hf.
  - cbn. by rewrite append_vide_r, insert_id.
  - rewrite fmap_cons, rejouer_cons. cbn [rejouer_evenement]. rewrite Hf.
    rewrite (IH _ (avant +:+ x)) by apply lookup_insert_eq.
    by rewrite insert_insert_eq, concatener_cons, append_assoc.
Qed.

Lemma prefixe_encodable_take ms k :
  k ≤ length (prefixe_encodable ms) →
  take k (prefixe_encodable ms) = take k ms.
Proof.
  revert k. induction ms as [|x ms IH]; intros k; [done|].
  cbn [prefixe_encodable]. destruct (utf8_valide x).
  - destruct k as [|k]; [done|]. cbn [length take]. intros Hk.
    rewrite IH by lia. done.
  - cbn. intros Hk. by replace k with 0 by lia.
Qed.

(** The events of a snapshot write that found its file openable. *)
Definition trace_sauvegarde (f : string) (ms : list string) : list evenement :=
  [Affiche (MsgSauvegarde f); Troncature f]
  ++ (Ecriture f <$> prefixe_encodable ms)
  ++ (if forallb utf8_valide ms then [Affiche MsgSauvegardeTerminee] else []).

(** The snapshot write, as a function of the file it finds. *)
Lemma sauvegarder_resultats_eq deliberations id nom f m :
  sauvegarder_resultats deliberations id nom f m =
    match fichiers m !! f with
    | Some (Inaccessible raison) =>
        (Leve (Exc OSError raison), ajouter [Affiche (MsgSauvegarde f)] m)
    | _ =>
        let ms := morceaux 0 (document_exporte (utcnow m +:+ "Z") id nom deliberations) in
        (if forallb utf8_valide ms then Retour tt
         else Leve (Exc UnicodeEncodeError "'utf-8' codec can't encode"),
         Monde (site m)
               (<[f := Octets (concatener (prefixe_encodable ms))]> (fichiers m))
               (utcnow m) (code_analyse m)
               (journal m ++ trace_sauvegarde f ms))
    end.
Proof.
  unfold sauvegarder_resultats, json_dump, datetime_utcnow, trace_sauvegarde.
  executer_monade.
  change (JObj [("exported_at", JStr (utcnow ?m0 +:+ "Z"));
                ("seance", JObj [("id", of_option id); ("nom", of_option nom)]);
                ("deliberations", JArr (JObj <$> deliberations))])
    with (document_exporte (utcnow m0 +:+ "Z") id nom deliberations).
  change (utcnow (noter ?e m)) with (utcnow m).
  generalize (morceaux 0 (document_exporte (utcnow m +:+ "Z") id nom deliberations)).
  intros ms. cbv zeta.
  unfold ouvrir_ecriture. change (fichiers (noter ?e m)) with (fichiers m).
  destruct (fichiers m !! f) as [[raison|s]|] eqn:E; [done| |];
    cbv beta iota;
    erewrite (ecrire_morceaux_eq f ms _ "")
      by (unfold noter, avec_fichiers; cbn [fichiers]; apply lookup_insert_eq);
    unfold apres_ecritures, noter, avec_fichiers; cbn [site fichiers utcnow code_analyse journal];
    rewrite insert_insert_eq;
    destruct (forallb utf8_valide ms); cbn [fst snd];
    rewrite ?app_nil_r, <- ?app_assoc; reflexivity.
Qed.

(** C4, amended — Snapshot write.  When the snapshot file can be opened,
    the write works on the snapshot path itself: the opening, which
    empties the file, then one write per chunk of the serialised
    document; there is no other file and no rename.  When every chunk
    can be encoded the operation returns and the file holds the complete
    document, which reads back as the snapshot written when its records
    are made of strings under distinct keys.  Otherwise the write raises
    [UnicodeEncodeError] at the first chunk that cannot be encoded and
    leaves the chunks before it.  Interrupted after any number of
    chunks, the run leaves those chunks only — the empty file right
    after the opening, which does not parse as JSON. *)
Theorem snapshot_written_in_place deliberations seance_id seance_nom nom_fichier m :
  (∀ raison, fichiers m !! nom_fichier ≠ Some (Inaccessible raison)) →
  let document :=
    JObj [("exported_at", JStr (utcnow m +:+ "Z"));
          ("seance", JObj [("id", of_option seance_id);
                           ("nom", of_option seance_nom)]);
          ("deliberations", JArr (JObj <$> deliberations))] in
  let complet := forallb utf8_valide (morceaux 0 document) in
  let ecrits := prefixe_encodable (morceaux 0 document) in
  let evs := [Affiche (MsgSauvegarde nom_fichier); Troncature nom_fichier]
             ++ (Ecriture nom_fichier <$> ecrits)
             ++ (if complet then [Affiche MsgSauvegardeTerminee] else []) in
  let run := sauvegarder_resultats deliberations seance_id seance_nom nom_fichier m in
  run.1 = (if complet then Retour tt
           else Leve (Exc UnicodeEncodeError "'utf-8' codec can't encode"))
  ∧ journal run.2 = journal m ++ evs
  ∧ fichiers run.2 = <[nom_fichier := Octets (concatener ecrits)]> (fichiers m)
  ∧ fichiers run.2 = rejouer evs (fichiers m)
  ∧ (complet = true → concatener ecrits = json_dumps document)
  ∧ (complet = false → length ecrits < length (morceaux 0 document))
  ∧ (Forall (λ d, inscriptible (JObj d) = true) deliberations →
     json_loads (json_dumps document) = Some document)
  ∧ (∀ k, k ≤ length ecrits →
       rejouer (take (2 + k) evs) (fichiers m) !! nom_fichier
       = Some (Octets (concatener (take k (morceaux 0 document)))))
  ∧ json_loads "" = None.
Proof.
  intros Hf. cbv zeta.
  assert (Forall (λ d, inscriptible (JObj d) = true) deliberations →
          json_loads (json_dumps (document_exporte (utcnow m +:+ "Z") seance_id
                                    seance_nom deliberations))
          = Some (document_exporte (utcnow m +:+ "Z") seance_id seance_nom
                    deliberations)) as Hrelu.
  { intros Hd. apply json_loads_dumps. unfold document_exporte.
    cbn [inscriptible forallb]. rewrite !andb_true_iff. split_and!; try done.
    - by destruct seance_id.
    - by destruct seance_nom.
    - apply forallb_forall. intros j Hj%list_elem_of_In.
      apply list_elem_of_fmap in Hj as (d & -> & Hin).
      rewrite Forall_forall in Hd. by apply Hd. }
  rewrite sauvegarder_resultats_eq.
  change (JObj [("exported_at", JStr (utcnow m +:+ "Z"));
                ("seance", JObj [("id", of_option seance_id);
                                 ("nom", of_option seance_nom)]);
                ("deliberations", JArr (JObj <$> deliberations))])
    with (document_exporte (utcnow m +:+ "Z") seance_id seance_nom deliberations)
    in *.
  pose proof (concatener_json_dumps
                (document_exporte (utcnow m +:+ "Z") seance_id seance_nom deliberations))
    as Hconcat.
  revert Hconcat.
  generalize (json_dumps (document_exporte (utcnow m +:+ "Z") seance_id seance_nom
                            deliberations)) at 1 2.
  generalize (morceaux 0 (document_exporte (utcnow m +:+ "Z") seance_id seance_nom
                            deliberations)).
  intros ms texte Hconcat.
  assert (∀ k, k ≤ length (prefixe_encodable ms) →
            rejouer (take (2 + k) (trace_sauvegarde nom_fichier ms)) (fichiers m)
            = <[nom_fichier := Octets (concatener (take k ms))]> (fichiers m))
    as Hrejouer.
  { intros k Hk. unfold trace_sauvegarde. cbn [take app Nat.add].
    rewrite take_app_le by (by rewrite length_fmap).
    rewrite <- fmap_take.
    rewrite !rejouer_cons. cbn [rejouer_evenement].
    rewrite (rejouer_ecritures _ _ _ "") by apply lookup_insert_eq.
    by rewrite insert_insert_eq, prefixe_encodable_take. }
  assert (rejouer (trace_sauvegarde nom_fichier ms) (fichiers m)
          = <[nom_fichier := Octets (concatener (prefixe_encodable ms))]> (fichiers m))
    as Htout.
  { unfold trace_sauvegarde. cbn [app]. rewrite !rejouer_cons, rejouer_app.
    cbn [rejouer_evenement].
    rewrite (rejouer_ecritures _ _ _ "") by apply lookup_insert_eq.
    rewrite insert_insert_eq. by destruct (forallb utf8_valide ms). }
  fold (trace_sauvegarde nom_fichier ms).
  assert (match fichiers m !! nom_fichier with
          | Some (Inaccessible raison) => False
          | _ => True
          end) as Hok.
  { destruct (fichiers m !! nom_fichier) as [[raison|s]|] eqn:E; try done.
    by apply (Hf raison). }
  destruct (fichiers m !! nom_fichier) as [[raison|s]|]; [done| |];
    cbn [fst snd journal fichiers]; (split_and!; try done);
    try (intros Hc; rewrite prefixe_encodable_complet by done; exact Hconcat);
    try (intros Hc; by apply prefixe_encodable_partiel);
    try (intros k Hk; rewrite Hrejouer by done; apply lookup_insert_eq).
Qed.

Lemma snapshot_written_in_place_witness :
  let m := monde_avant_ecriture in
  let document :=
    JObj [("exported_at", JStr (utcnow m +:+ "Z"));
          ("seance", JObj [("id", of_option (Some "S1"));
                           ("nom", of_option (Some "Conseil communal du 21 mai"))]);
          ("deliberations", JArr (JObj <$> [fiche_a]))] in
  let complet := forallb utf8_valide (morceaux 0 document) in
  let ecrits := prefixe_encodable (morceaux 0 document) in
  let evs := [Affiche (MsgSauvegarde FICHIER_DELIB); Troncature FICHIER_DELIB]
             ++ (Ecriture FICHIER_DELIB <$> ecrits)
             ++ (if complet then [Affiche MsgSauvegardeTerminee] else []) in
  let run := sauvegarder_resultats [fiche_a] (Some "S1")
               (Some "Conseil communal du 21 mai") FICHIER_DELIB m in
  run.1 = (if complet then Retour tt
           else Leve (Exc UnicodeEncodeError "'utf-8' codec can't encode"))
  ∧ journal run.2 = journal m ++ evs
  ∧ fichiers run.2 = <[FICHIER_DELIB := Octets (concatener ecrits)]> (fichiers m)
  ∧ fichiers run.2 = rejouer evs (fichiers m)
  ∧ (complet = true → concatener ecrits = json_dumps document)
  ∧ (complet = false → length ecrits < length (morceaux 0 document))
  ∧ (Forall (λ d, inscriptible (JObj d) = true) [fiche_a] →
     json_loads (json_dumps document) = Some document)
  ∧ (∀ k, k ≤ length ecrits →
       rejouer (take (2 + k) evs) (fichiers m) !! FICHIER_DELIB
       = Some (Octets (concatener (take k (morceaux 0 document)))))
  ∧ json_loads "" = None.
Proof.
  apply (snapshot_written_in_place [fiche_a] (Some "S1")
           (Some "Conseil communal du 21 mai") FICHIER_DELIB monde_avant_ecriture).
  intros raison. by vm_compute.
Defined.

End Orchestrateur.

(** * From a stored harvest to the skip of the next run *)

Module Idempotence.
Import Extraire ExtraireFaits Exemples Extracteur Pipeline PipelineFaits AllerRetour
  Morceaux Orchestrateur.

#[local] Arguments noter : simpl never.
#[local] Arguments ajouter : simpl never.

(** Two worlds with the same site, clock and analysis. *)
Definition meme_exterieur (m m' : monde) : Prop :=
  site m' = site m ∧ utcnow m' = utcnow m ∧ code_analyse m' = code_analyse m.

(** [c] leaves the outside world alone and touches no file but [f]. *)
Definition n_ecrit_que {A} (f : string) (c : M A) : Prop :=
  ∀ m, meme_exterieur m (c m).2
       ∧ ∀ chemin, chemin ≠ f → fichiers (c m).2 !! chemin = fichiers m !! chemin.

Lemma n_ecrit_que_ret {A} f (a : A) : n_ecrit_que f (mret a).
Proof. by intros m. Qed.

Lemma n_ecrit_que_raise {A} f e : n_ecrit_que f (@raise A e).
Proof. by intros m. Qed.

Lemma n_ecrit_que_bind {A B} f (c : M A) (k : A → M B) :
  n_ecrit_que f c → (∀ a, n_ecrit_que f (k a)) → n_ecrit_que f (c ≫= k).
Proof.
  intros Hc Hk m. rewrite bind_eq. specialize (Hc m).
  destruct (c m) as [[a|e|] m1]; [|done..].
  specialize (Hk a m1). simpl in Hc. destruct Hc as [(? & ? & ?) Hf].
  destruct Hk as [(? & ? & ?) Hf'].
  split; [split_and!; congruence|].
  intros chemin Hne. rewrite Hf' by done. by apply Hf.
Qed.

Lemma n_ecrit_que_print f msg : n_ecrit_que f (print msg).
Proof. by intros m. Qed.

Lemma n_ecrit_que_ouvrir f : n_ecrit_que f (ouvrir_ecriture f).
Proof.
  intros m. unfold ouvrir_ecriture.
  destruct (fichiers m !! f) as [[raison|s]|]; [done| |];
    (split; [done|]); intros chemin Hne; simpl; by rewrite lookup_insert_ne.
Qed.

Lemma n_ecrit_que_ecrire f texte : n_ecrit_que f (ecrire f texte).
Proof.
  intros m. unfold ecrire. destruct (utf8_valide texte); [|done].
  split; [done|].
  intros chemin Hne. simpl. by rewrite lookup_insert_ne.
Qed.

Lemma n_ecrit_que_champ f d k : n_ecrit_que f (champ d k).
Proof.
  unfold champ. case_bool_decide; [|apply n_ecrit_que_raise].
  destruct (dict_get k d); try apply n_ecrit_que_raise. apply n_ecrit_que_ret.
Qed.

Lemma n_ecrit_que_champ_formate f d k : n_ecrit_que f (champ_formate d k).
Proof.
  unfold champ_formate. case_bool_decide; [|apply n_ecrit_que_raise].
  destruct (format_valeur (dict_get k d)); [apply n_ecrit_que_ret|by intros m].
Qed.

Lemma n_ecrit_que_ecrire_points f i deliberations :
  n_ecrit_que f (ecrire_points f i deliberations).
Proof.
  revert i. induction deliberations as [|delib reste IH]; intros i; simpl.
  - apply n_ecrit_que_ret.
  - repeat (apply n_ecrit_que_bind; [first [apply n_ecrit_que_ecrire
                                           |apply n_ecrit_que_champ_formate
                                           |apply n_ecrit_que_champ]|intros ?]).
    apply IH.
Qed.

Lemma n_ecrit_que_creer_resume_texte deliberations f nom :
  n_ecrit_que f (creer_resume_texte deliberations f nom).
Proof.
  unfold creer_resume_texte.
  apply n_ecrit_que_bind; [apply n_ecrit_que_print|intros _].
  apply n_ecrit_que_bind; [apply n_ecrit_que_ouvrir|intros _].
  apply n_ecrit_que_bind; [apply n_ecrit_que_ecrire|intros _].
  apply n_ecrit_que_bind; [apply n_ecrit_que_ecrire|intros _].
  apply n_ecrit_que_bind.
  { destruct (truthy _); [apply n_ecrit_que_ecrire|apply n_ecrit_que_ret]. }
  intros _.
  apply n_ecrit_que_bind; [apply n_ecrit_que_ecrire|intros _].
  apply n_ecrit_que_bind; [apply n_ecrit_que_ecrire_points|intros _].
  apply n_ecrit_que_print.
Qed.


(** When the write of the snapshot returns, the file holds the document. *)
Lemma sauvegarder_resultats_retour deliberations seance_id seance_nom f m m' :
  sauvegarder_resultats deliberations seance_id seance_nom f m = (Retour tt, m') →
  meme_exterieur m m'
  ∧ fichiers m' !! f
    = Some (Octets (instantane (utcnow m +:+ "Z") seance_id seance_nom deliberations)).
Proof.
  rewrite sauvegarder_resultats_eq. cbv zeta.
  pose proof (concatener_json_dumps
                (document_exporte (utcnow m +:+ "Z") seance_id seance_nom deliberations))
    as Hconcat.
  unfold instantane. fold (document_exporte (utcnow m +:+ "Z") seance_id seance_nom
                             deliberations).
  revert Hconcat.
  generalize (morceaux 0 (document_exporte (utcnow m +:+ "Z") seance_id seance_nom
                            deliberations)).
  intros ms <-.
  destruct (fichiers m !! f) as [[raison|s]|]; [done| |];
    (destruct (forallb utf8_valide ms) eqn:Hms; [|done]);
    intros [= <-]; cbn [fichiers];
    by rewrite lookup_insert_eq, prefixe_encodable_complet.
Qed.

(** The records of the extractor are documents the decoder reads back. *)
Lemma fiche_inscriptible url r : inscriptible (JObj (fiche url r)) = true.
Proof. by destruct r. Qed.

(** The last session read from a snapshot is the one it was written with. *)
Lemma seance_de_l_instantane exported_at sid nom deliberations m :
  Forall (λ d, inscriptible (JObj d) = true) deliberations →
  fichiers m !! FICHIER_DELIB
    = Some (Octets (instantane exported_at (Some sid) nom deliberations)) →
  utf8_valide (instantane exported_at (Some sid) nom deliberations) = true →
  (charger_derniere_seance FICHIER_DELIB m).1 = Retour (JStr sid, of_option nom).
Proof.
  intros Hd Hf Hutf. rewrite charger_derniere_seance_eq, Hf, Hutf.
  unfold instantane. rewrite json_loads_dumps; [done|].
  cbn [inscriptible forallb]. rewrite !andb_true_iff. split_and!; try done.
  - by destruct nom.
  - apply forallb_forall. intros j Hj%list_elem_of_In.
    apply list_elem_of_fmap in Hj as (d & -> & Hin).
    rewrite Forall_forall in Hd. by apply Hd.
Qed.

(** When the extraction program runs to its end, the snapshot holds the
    detected session and one record per harvested link. *)
Lemma main_terminee fuel m m' :
  Extraire.main fuel m = (Retour Terminee, m') →
  ∃ sid nom liens,
    resultat_detection (site m URL_BASE) = Retour (Some sid, nom)
    ∧ sid ≠ ""
    ∧ (extraire_liens_deliberations fuel sid m).1 = Retour liens
    ∧ site m' = site m
    ∧ fichiers m' !! FICHIER_DELIB
      = Some (Octets (instantane (utcnow m +:+ "Z") (Some sid) nom
                        ((λ url, fiche url (site m url)) <$> liens))).
Proof.
  unfold Extraire.main. executer_monade.
  rewrite detecter_seance_la_plus_recente_eq, site_noter.
  destruct (resultat_detection (site m URL_BASE)) as [[id nom]|e|] eqn:Hd; [|done..].
  destruct id as [sid|]; [|done]. cbn [of_option truthy].
  destruct (String.eqb_spec sid "") as [->|Hsid]; [done|].
  cbn [negb default from_option]. unfold id.
  set (m1 := ajouter _ (noter _ m)).
  pose proof (extraire_liens_deliberations_site fuel sid m1 m eq_refl) as Hsite.
  pose proof (extraire_liens_deliberations_spec fuel sid m1) as Hspec.
  destruct (extraire_liens_deliberations fuel sid m1) as [[liens|e|] m2]; [|done..].
  destruct Hspec as (evs & -> & _).
  destruct liens as [|lien liens]; [done|].
  executer_monade.
  destruct (boucle_extraction_eq (lien :: liens) 1 (length (lien :: liens)) []
              (noter (Affiche (MsgDebutExtraction (length (lien :: liens))))
                 (ajouter evs m1))) as [evs2 ->].
  rewrite app_nil_l, site_noter, site_ajouter.
  change (site m1) with (site m).
  set (deliberations := (λ url, fiche url (site m url)) <$> lien :: liens).
  set (m3 := ajouter evs2 _).
  destruct (sauvegarder_resultats deliberations (Some sid) nom
              "deliberations_wavre.json" m3) as [[[]|e|] m4] eqn:Hsauve; [|done..].
  apply sauvegarder_resultats_retour in Hsauve as [(Hs4 & Hu4 & _) Hf4].
  pose proof (n_ecrit_que_creer_resume_texte deliberations
                "resume_deliberations.txt" nom m4) as [(Hs5 & _) Hf5].
  destruct (creer_resume_texte deliberations "resume_deliberations.txt" nom m4)
    as [[[]|e|] m5]; [|done..].
  intros [= <-]. simpl in Hs5, Hf5.
  exists sid, nom, (lien :: liens). split_and!; try done.
  - rewrite site_noter, Hs5, Hs4. done.
  - simpl. rewrite Hf5 by done. apply Hf4.
Qed.

(** After a harvest that was stored, the orchestrator skips: whatever the
    first run harvested, a run on the world it leaves, without the force
    flag, returns at once after its detection request. *)
Lemma harvest_then_skip fuel fuel' args m m' :
  Extraire.main fuel m = (Retour Terminee, m') →
  (∀ texte, fichiers m' !! FICHIER_DELIB = Some (Octets texte) →
            utf8_valide texte = true) →
  skip_extraction args = false →
  force args = false →
  ∃ nom sid,
    Pipeline.main fuel' args m' =
      (Retour Ignoree,
       ajouter [Lecture FICHIER_DELIB;
                Affiche MsgDetection;
                Requete URL_BASE None;
                Affiche (MsgSeanceDetectee nom (Some sid));
                Affiche MsgAucuneNouvelleSeance] m').
Proof.
  intros Hmain Hutf Hskip Hforce.
  destruct (main_terminee fuel m m' Hmain) as (sid & nom & liens & Hd & Hsid & _ & Hs & Hf).
  exists nom, sid. apply (main_ignoree _ _ _ _ (of_option nom)); try done.
  - eapply seance_de_l_instantane; [|done|by apply Hutf].
    apply Forall_forall. intros d Hin.
    apply list_elem_of_fmap in Hin as (url & -> & _). apply fiche_inscriptible.
  - by rewrite Hs.
Qed.

(** The site shows session S1 with one item. *)
Definition monde_a_moissonner : monde :=
  Monde (site_de
           [(URL_BASE, page_seance "S1" "Conseil communal du 21 mai");
            (url_page "S1" 0, page_liste [carte_vers "/wavre/decisions/a"]);
            ("https://www.deliberations.be/wavre/decisions/a",
             Recu (Page None [] (Some "Budget") (Some "Le conseil approuve.")))])
        ∅ "2024-05-22T06:00:00" 0 [].

Example harvest_then_skip_exemple :
  let run1 := Pipeline.main 10 sans_options monde_a_moissonner in
  let run2 := Pipeline.main 10 sans_options run1.2 in
  run1.1 = Retour Complete
  ∧ fichiers run1.2 !! FICHIER_DELIB
    = Some (Octets (instantane "2024-05-22T06:00:00Z" (Some "S1")
                      (Some "Conseil communal du 21 mai") [fiche_a]))
  ∧ run2.1 = Retour Ignoree
  ∧ fichiers run2.2 = fichiers run1.2
  ∧ drop (length (journal run1.2)) (journal run2.2)
    = [Lecture FICHIER_DELIB;
       Affiche MsgDetection;
       Requete URL_BASE None;
       Affiche (MsgSeanceDetectee (Some "Conseil communal du 21 mai") (Some "S1"));
       Affiche MsgAucuneNouvelleSeance].
Proof.
  cbv zeta.
  assert (Pipeline.main 10 sans_options
            (Pipeline.main 10 sans_options monde_a_moissonner).2
          = (Retour Ignoree,
             ajouter [Lecture FICHIER_DELIB;
                      Affiche MsgDetection;
                      Requete URL_BASE None;
                      Affiche (MsgSeanceDetectee (Some "Conseil communal du 21 mai")
                                 (Some "S1"));
                      Affiche MsgAucuneNouvelleSeance]
               (Pipeline.main 10 sans_options monde_a_moissonner).2)) as ->.
  { apply (main_ignoree _ _ _ _ (JStr "Conseil communal du 21 mai"));
      [done|done|by vm_compute|by vm_compute|done]. }
  cbn [fst snd]. rewrite fichiers_ajouter, journal_ajouter, drop_app_length.
  split_and!; [by vm_compute|by vm_compute|done..].
Qed.

End Idempotence.

(** * Further properties of the harvester *)

Module MoissonneurSuite.
Import Extraire ExtraireFaits Exemples.

#[local] Arguments noter : simpl never.
#[local] Arguments ajouter : simpl never.

(** The URLs requested during a run, in order. *)
Definition urls_demandees (evs : list evenement) : list string :=
  omap (λ e, match e with Requete url _ => Some url | _ => None end) evs.

Lemma urls_demandees_app evs1 evs2 :
  urls_demandees (evs1 ++ evs2) = urls_demandees evs1 ++ urls_demandees evs2.
Proof. apply omap_app. Qed.

Lemma urls_trace_iteration seance_id s r :
  urls_demandees (trace_iteration seance_id s r)
  = [url_page seance_id (page_actuelle s)].
Proof.
  unfold trace_iteration, trace_suivant, urls_demandees. simpl.
  destruct r as [e|p]; [done|].
  destruct (cartes p); [done|].
  destruct (nouveaux _ _); [|done].
  by destruct (pages_vides_consecutives s).
Qed.

Definition est_pause (e : evenement) : bool :=
  match e with
  | Pause _ => true
  | _ => false
  end.

Lemma pauses_trace_iteration seance_id s r :
  compter est_pause (trace_iteration seance_id s r)
  = match suivant s r with Continue _ => 1 | Break _ => 0 end.
Proof.
  unfold trace_iteration, trace_suivant, suivant. simpl.
  destruct r as [e|p]; [done|].
  destruct (cartes p); [done|].
  destruct (nouveaux _ _); [|done].
  by destruct (pages_vides_consecutives s).
Qed.

(** A page that lets the loop go on. *)
Definition page_garnie (site : string → reponse) (url : string) : Prop :=
  ∃ p, site url = Recu p ∧ cartes p ≠ [].

Lemma suivant_continue_page s r s' :
  suivant s r = Continue s' →
  (∃ p, r = Recu p ∧ cartes p ≠ []) ∧ page_actuelle s' = page_actuelle s + 20.
Proof.
  unfold suivant. destruct r as [e|p]; [done|].
  destruct (cartes p) as [|c cs] eqn:Hcs; [done|].
  destruct (nouveaux _ _).
  - destruct (pages_vides_consecutives s); [|done].
    intros [= <-]. split; [|done]. exists p. by rewrite Hcs.
  - intros [= <-]. split; [|done]. exists p. by rewrite Hcs.
Qed.

(** The requests of the loop walk the offsets 20 by 20 from the current
    one, and every request but the last was answered by a page with at
    least one card. *)
Lemma boucle_curseur fuel seance_id s m s' m' :
  coherent (tous_les_liens s) (liens_vus s) →
  boucle fuel seance_id s m = (Retour s', m') →
  ∃ evs n,
    m' = ajouter evs m
    ∧ urls_demandees evs
      = (λ i, url_page seance_id (page_actuelle s + 20 * i)) <$> seq 0 (S n)
    ∧ Forall (page_garnie (site m)) (take n (urls_demandees evs))
    ∧ compter est_pause evs = n.
Proof.
  revert s m. induction fuel as [|fuel IH]; intros s m Hc; simpl; [done|].
  rewrite bind_eq, iteration_eq by apply Hc.
  set (r := site m (url_page seance_id (page_actuelle s))).
  destruct (suivant_coherent s r Hc) as [Hc' _].
  pose proof (urls_trace_iteration seance_id s r) as Hurl.
  pose proof (pauses_trace_iteration seance_id s r) as Hpause.
  destruct (suivant s r) as [s1|s1] eqn:Hs; simpl in Hc'.
  - intros Hb. destruct (IH s1 _ Hc' Hb) as (evs & n & -> & Hurls & Hpages & Hp').
    destruct (suivant_continue_page _ _ _ Hs) as [(p & Hr & Hp) Hpage].
    assert ([url_page seance_id (page_actuelle s)]
            ++ ((λ i, url_page seance_id (page_actuelle s1 + 20 * i)) <$> seq 0 (S n))
            = (λ i, url_page seance_id (page_actuelle s + 20 * i)) <$> seq 0 (S (S n)))
      as Hseq.
    { rewrite <- (cons_seq (S n) 0), fmap_cons, Nat.mul_0_r, Nat.add_0_r.
      cbn [app]. f_equal.
      rewrite <- fmap_S_seq, <- list_fmap_compose. apply list_fmap_ext.
      intros _ i _. cbn [compose]. rewrite Hpage. f_equal. lia. }
    exists (trace_iteration seance_id s r ++ evs), (S n).
    rewrite ajouter_ajouter, urls_demandees_app, Hurl, Hurls, Hseq.
    split_and!; [done|done| |].
    + rewrite <- Hseq. cbn [app take]. constructor.
      * by exists p.
      * rewrite site_ajouter in Hpages. by rewrite <- Hurls.
    + rewrite compter_app, Hpause, Hp'. done.
  - executer_monade. intros [= <- <-].
    exists (trace_iteration seance_id s r), 0. rewrite Hurl. simpl.
    rewrite Nat.add_0_r. split_and!; [done|done|constructor|done].
Qed.

Lemma url_complete_absolue h : String.prefix "http" (url_complete h) = true.
Proof.
  unfold url_complete. destruct (String.prefix "http" h) eqn:Hh; [done|].
  reflexivity.
Qed.

Lemma liens_de_cartes_absolus cs u :
  u ∈ liens_de_cartes cs → String.prefix "http" u = true.
Proof.
  unfold liens_de_cartes. rewrite list_elem_of_omap.
  intros (c & _ & Hc). destruct (href_de_carte c) as [h|]; [|done].
  injection Hc as <-. apply url_complete_absolue.
Qed.

Lemma liens_rencontres_absolus site evs u :
  u ∈ liens_rencontres site evs → String.prefix "http" u = true.
Proof.
  unfold liens_rencontres. rewrite list_elem_of_bind.
  intros (e & Hu & _). destruct e as [url t| | | | | |]; try by inversion Hu.
  unfold liens_de_reponse in Hu. destruct (site url) as [?|p]; [by inversion Hu|].
  by eapply liens_de_cartes_absolus.
Qed.

(** X1 — Every URL the harvester returns is absolute: it starts with
    "http", either as the card gave it or after the site origin was put
    in front of it. *)
Theorem harvested_links_absolute fuel seance_id m liens :
  (extraire_liens_deliberations fuel seance_id m).1 = Retour liens →
  Forall (λ u, String.prefix "http" u = true) liens.
Proof.
  intros Hr.
  pose proof (extraire_liens_deliberations_spec fuel seance_id m) as H.
  destruct (extraire_liens_deliberations fuel seance_id m) as [[l|e|] m'];
    simpl in Hr; [|done..].
  injection Hr as ->. destruct H as (evs & _ & _ & -> & _).
  apply Forall_forall. intros u Hu.
  apply nouveaux_subseteq in Hu. by eapply liens_rencontres_absolus.
Qed.

Lemma harvested_links_absolute_witness :
  Forall (λ u, String.prefix "http" u = true)
    ["https://www.deliberations.be/wavre/decisions/a";
     "https://www.deliberations.be/wavre/decisions/b"].
Proof.
  apply (harvested_links_absolute 10 "S1" monde_chevauchement). by vm_compute.
Defined.

(** X2 — Pagination cursor.  The requests of a harvest go, in order, to
    the offsets 0, 20, 40, ... of the session's listing (the first one
    without offset parameter); every request but the last was answered
    by a page with at least one item card, so a fetch error or a page
    without cards always ends the run; and the run makes one pause less
    than it makes requests. *)
Theorem pagination_cursor fuel seance_id m liens :
  (extraire_liens_deliberations fuel seance_id m).1 = Retour liens →
  ∃ evs n,
    (extraire_liens_deliberations fuel seance_id m).2 = ajouter evs m
    ∧ urls_demandees evs = (λ i, url_page seance_id (20 * i)) <$> seq 0 (S n)
    ∧ Forall (page_garnie (site m)) (take n (urls_demandees evs))
    ∧ compter est_pause evs = n.
Proof.
  unfold extraire_liens_deliberations. executer_monade.
  assert (coherent (tous_les_liens etat_initial) (liens_vus etat_initial)) as Hc.
  { split; [constructor|]. intros x. simpl. set_solver. }
  destruct (boucle fuel seance_id etat_initial (noter (Affiche MsgPagination) m))
    as [[s'|e|] m'] eqn:Hb; [|done..].
  destruct (boucle_curseur _ _ _ _ _ _ Hc Hb) as (evs & n & -> & Hurls & Hpages & Hp).
  intros _. simpl.
  exists ([Affiche MsgPagination] ++ evs ++ [Affiche (MsgTotal (length (tous_les_liens s')))]), n.
  rewrite !noter_ajouter, !ajouter_ajouter.
  rewrite !urls_demandees_app, !compter_app. simpl. rewrite app_nil_r, Nat.add_0_r.
  split_and!; done.
Qed.

Lemma pagination_cursor_witness :
  ∃ evs n,
    (extraire_liens_deliberations 10 "S1" monde_chevauchement).2
      = ajouter evs monde_chevauchement
    ∧ urls_demandees evs = (λ i, url_page "S1" (20 * i)) <$> seq 0 (S n)
    ∧ Forall (page_garnie (site monde_chevauchement)) (take n (urls_demandees evs))
    ∧ compter est_pause evs = n.
Proof.
  apply (pagination_cursor 10 "S1" monde_chevauchement
           ["https://www.deliberations.be/wavre/decisions/a";
            "https://www.deliberations.be/wavre/decisions/b"]).
  by vm_compute.
Defined.

End MoissonneurSuite.

(** * Further properties of the extraction and of the stored snapshot *)

Module ExtracteurSuite.
Import Extraire ExtraireFaits Exemples Extracteur Pipeline PipelineFaits AllerRetour
  Orchestrateur Idempotence MoissonneurSuite.

#[local] Arguments noter : simpl never.
#[local] Arguments ajouter : simpl never.

(** The journal of the extraction loop of the main program. *)
Fixpoint trace_boucle_extraction (site : string → reponse) (liens : list string)
    (i n : nat) : list evenement :=
  match liens with
  | [] => []
  | lien :: reste =>
      Affiche (MsgRang i n) :: trace_extraction lien (site lien)
      ++ trace_boucle_extraction site reste (S i) n
  end.

Lemma boucle_extraction_trace liens i n deliberations m :
  boucle_extraction liens i n deliberations m =
    (Retour (deliberations ++ ((λ url, fiche url (site m url)) <$> liens)),
     ajouter (trace_boucle_extraction (site m) liens i n) m).
Proof.
  revert i deliberations m.
  induction liens as [|lien liens IH]; intros i deliberations m; simpl.
  - by rewrite app_nil_r, ajouter_nil.
  - executer_monade. rewrite extraire_contenu_deliberation_eq.
    rewrite !noter_ajouter, !ajouter_ajouter, !site_ajouter.
    rewrite IH, ajouter_ajouter, site_ajouter, <- app_assoc. done.
Qed.

(** X3 — Rate limiting of the extraction.  The extraction loop requests
    exactly the links it was given, once each and in their order, without
    timeout, and every request comes right after a pause of
    DELAI_ENTRE_REQUETES (3) seconds. *)
Theorem extraction_requests_in_order liens i n m :
  ∃ evs,
    (boucle_extraction liens i n [] m).2 = ajouter evs m
    ∧ List.filter (λ e, est_requete e || est_pause e) evs
      = liens ≫= λ lien, [Pause 3; Requete lien None].
Proof.
  rewrite boucle_extraction_trace. eexists. split; [done|].
  generalize i. induction liens as [|lien liens IH]; intros j; [done|].
  cbn [trace_boucle_extraction]. unfold trace_extraction.
  cbn [List.filter app est_requete est_pause orb mbind list_bind].
  rewrite IH. by destruct (site m lien).
Qed.

(** X5 — Content of a stored snapshot.  When the extraction program runs
    to its end, a session with a non-empty identifier was detected, the
    harvest was not empty, and the snapshot file holds the export time,
    that session and exactly one record per harvested link, in harvest
    order: the URLs of its records are those links, without repetition. *)
Theorem stored_snapshot_records fuel m :
  (Extraire.main fuel m).1 = Retour Terminee →
  ∃ sid nom liens deliberations,
    (detecter_seance_la_plus_recente m).1 = Retour (Some sid, nom)
    ∧ sid ≠ ""
    ∧ (extraire_liens_deliberations fuel sid m).1 = Retour liens
    ∧ liens ≠ []
    ∧ NoDup liens
    ∧ (λ d, dict_get "url" d) <$> deliberations = JStr <$> liens
    ∧ fichiers (Extraire.main fuel m).2 !! FICHIER_DELIB
      = Some (Octets (instantane (utcnow m +:+ "Z") (Some sid) nom deliberations)).
Proof.
  intros Hmain.
  destruct (Extraire.main fuel m) as [r m'] eqn:Hrun. simpl in Hmain. subst r.
  destruct (main_terminee fuel m m' Hrun)
    as (sid & nom & liens & Hd & Hsid & Hliens & _ & Hf).
  exists sid, nom, liens, ((λ url, fiche url (site m url)) <$> liens).
  pose proof (extraire_liens_deliberations_spec fuel sid m) as Hspec.
  destruct (extraire_liens_deliberations fuel sid m) as [[l|e|] m2] eqn:Hext;
    simpl in Hliens; [|done..].
  injection Hliens as ->. destruct Hspec as (evs & _ & Hnd & _).
  split_and!; try done.
  - by rewrite detecter_seance_la_plus_recente_eq.
  - intros ->.
    destruct (main_aucun_lien fuel m sid nom Hd Hsid) as (evs' & Hm & _).
    + by rewrite Hext.
    + congruence.
  - rewrite <- !list_fmap_compose. apply list_fmap_ext. intros _ url _. simpl.
    by destruct (site m url).
Qed.

Lemma stored_snapshot_records_witness :
  ∃ sid nom liens deliberations,
    (detecter_seance_la_plus_recente monde_a_moissonner).1 = Retour (Some sid, nom)
    ∧ sid ≠ ""
    ∧ (extraire_liens_deliberations 10 sid monde_a_moissonner).1 = Retour liens
    ∧ liens ≠ []
    ∧ NoDup liens
    ∧ (λ d, dict_get "url" d) <$> deliberations = JStr <$> liens
    ∧ fichiers (Extraire.main 10 monde_a_moissonner).2 !! FICHIER_DELIB
      = Some (Octets (instantane (utcnow monde_a_moissonner +:+ "Z") (Some sid) nom
                        deliberations)).
Proof.
  apply (stored_snapshot_records 10 monde_a_moissonner). by vm_compute.
Defined.
End ExtracteurSuite.

(** * The journal is write-only *)

Module Independance.
Import Extraire ExtraireFaits Exemples Extracteur Pipeline PipelineFaits.

(** Two worlds that differ at most by their journals. *)
Definition meme_monde (m m' : monde) : Prop :=
  site m = site m' ∧ fichiers m = fichiers m'
  ∧ utcnow m = utcnow m' ∧ code_analyse m = code_analyse m'.

Lemma meme_monde_refl m : meme_monde m m.
Proof. done. Qed.

Lemma meme_monde_ajouter evs m : meme_monde (ajouter evs m) m.
Proof. done. Qed.

Lemma meme_monde_trans m1 m2 m3 :
  meme_monde m1 m2 → meme_monde m2 m3 → meme_monde m1 m3.
Proof. intros (? & ? & ? & ?) (? & ? & ? & ?). split_and!; congruence. Qed.

Lemma meme_monde_sym m1 m2 : meme_monde m1 m2 → meme_monde m2 m1.
Proof. intros (? & ? & ? & ?). split_and!; congruence. Qed.

(** A computation that never reads the journal: on two worlds that
    differ by their journals only, it gives the same result and leaves
    worlds that differ by their journals only. *)
Definition insensible {A} (c : M A) : Prop :=
  ∀ m m', meme_monde m m' →
    (c m).1 = (c m').1 ∧ meme_monde (c m).2 (c m').2.

Lemma insensible_ret {A} (a : A) : insensible (mret a).
Proof. by intros m m' H. Qed.

Lemma insensible_raise {A} e : insensible (@raise A e).
Proof. by intros m m' H. Qed.

Lemma insensible_bind {A B} (c : M A) (k : A → M B) :
  insensible c → (∀ a, insensible (k a)) → insensible (c ≫= k).
Proof.
  intros Hc Hk m m' Hm. rewrite !bind_eq. destruct (Hc m m' Hm) as [Hr Hm'].
  destruct (c m) as [[a|e|] m1], (c m') as [[a'|e'|] m1'];
    simpl in Hr; simplify_eq; try done.
  by apply Hk.
Qed.

Lemma insensible_try_except {A} (c : M A) (h : exception → M A) :
  insensible c → (∀ e, insensible (h e)) → insensible (try_except c h).
Proof.
  intros Hc Hh m m' Hm. unfold try_except. destruct (Hc m m' Hm) as [Hr Hm'].
  destruct (c m) as [[a|e|] m1], (c m') as [[a'|e'|] m1'];
    simpl in Hr; simplify_eq; try done.
  by apply Hh.
Qed.

Lemma insensible_try_except_lecture {A} (c : M A) (h : exception → M A) :
  insensible c → (∀ e, insensible (h e)) → insensible (try_except_lecture c h).
Proof.
  intros Hc Hh m m' Hm. unfold try_except_lecture. destruct (Hc m m' Hm) as [Hr Hm'].
  destruct (c m) as [[a|e|] m1], (c m') as [[a'|e'|] m1'];
    simpl in Hr; simplify_eq; try done.
  destruct (exc_classe e'); try done; by apply Hh.
Qed.

Lemma insensible_print msg : insensible (print msg).
Proof. by intros m m' H. Qed.

Lemma insensible_time_sleep n : insensible (time_sleep n).
Proof. by intros m m' H. Qed.

Lemma insensible_requests_get url t : insensible (requests_get url t).
Proof.
  intros m m' (Hs & Hf & Hu & Hc). unfold requests_get. rewrite Hs.
  by destruct (site m' url).
Qed.

Lemma insensible_path_exists f : insensible (path_exists f).
Proof. intros m m' (Hs & Hf & Hu & Hc). unfold path_exists. by rewrite Hf. Qed.

Lemma insensible_lire_fichier f : insensible (lire_fichier f).
Proof.
  intros m m' (Hs & Hf & Hu & Hc). unfold lire_fichier. rewrite Hf.
  destruct (fichiers m' !! f) as [[raison|s]|]; [done| |done].
  by destruct (utf8_valide s).
Qed.

Lemma insensible_ouvrir_ecriture f : insensible (ouvrir_ecriture f).
Proof.
  intros m m' (Hs & Hf & Hu & Hc). unfold ouvrir_ecriture. rewrite Hf.
  destruct (fichiers m' !! f) as [[raison|s]|]; try done;
    (split; [done|]); split_and!; simpl; congruence.
Qed.

Lemma insensible_ecrire f texte : insensible (ecrire f texte).
Proof.
  intros m m' (Hs & Hf & Hu & Hc). unfold ecrire. rewrite Hf.
  destruct (utf8_valide texte); [|done].
  split; [done|]. split_and!; simpl; congruence.
Qed.

Lemma insensible_ecrire_morceaux f ms : insensible (ecrire_morceaux f ms).
Proof.
  induction ms as [|x ms IH]; cbn [ecrire_morceaux].
  - by intros m m' H.
  - apply insensible_bind; [apply insensible_ecrire|intros _; apply IH].
Qed.

Lemma insensible_datetime_utcnow : insensible datetime_utcnow.
Proof. intros m m' (Hs & Hf & Hu & Hc). unfold datetime_utcnow. by rewrite Hu. Qed.

Lemma insensible_json_load f : insensible (json_load f).
Proof.
  apply insensible_bind; [apply insensible_lire_fichier|].
  intros texte. destruct (json_loads texte);
    [apply insensible_ret|apply insensible_raise].
Qed.

Lemma insensible_methode_get obj k : insensible (methode_get obj k).
Proof. destruct obj; first [apply insensible_ret|apply insensible_raise]. Qed.

Lemma insensible_champ d k : insensible (champ d k).
Proof.
  unfold champ. case_bool_decide; [|apply insensible_raise].
  destruct (dict_get k d); first [apply insensible_ret|apply insensible_raise].
Qed.

Lemma insensible_champ_formate d k : insensible (champ_formate d k).
Proof.
  unfold champ_formate. case_bool_decide; [|apply insensible_raise].
  destruct (format_valeur (dict_get k d)); [apply insensible_ret|by intros m m' Hm].
Qed.

(** One step of a proof of [insensible]: the shape of the computation
    decides the lemma. *)
Ltac pas_insensible :=
  lazymatch goal with
  | |- insensible (_ ≫= _) => apply insensible_bind; [|intros ?]
  | |- insensible (mret _) => apply insensible_ret
  | |- insensible (raise _) => apply insensible_raise
  | |- insensible (print _) => apply insensible_print
  | |- insensible (time_sleep _) => apply insensible_time_sleep
  | |- insensible (requests_get _ _) => apply insensible_requests_get
  | |- insensible (path_exists _) => apply insensible_path_exists
  | |- insensible (lire_fichier _) => apply insensible_lire_fichier
  | |- insensible (ouvrir_ecriture _) => apply insensible_ouvrir_ecriture
  | |- insensible (ecrire _ _) => apply insensible_ecrire
  | |- insensible (ecrire_morceaux _ _) => apply insensible_ecrire_morceaux
  | |- insensible (champ_formate _ _) => apply insensible_champ_formate
  | |- insensible datetime_utcnow => apply insensible_datetime_utcnow
  | |- insensible (json_load _) => apply insensible_json_load
  | |- insensible (methode_get _ _) => apply insensible_methode_get
  | |- insensible (champ _ _) => apply insensible_champ
  | |- insensible (try_except _ _) => apply insensible_try_except; [|intros ?]
  | |- insensible (try_except_lecture _ _) =>
      apply insensible_try_except_lecture; [|intros ?]
  end.

Lemma insensible_detecter : insensible detecter_seance_la_plus_recente.
Proof.
  unfold detecter_seance_la_plus_recente. repeat pas_insensible.
  destruct (select_seance _) as [[o|]|]; repeat pas_insensible.
Qed.

Lemma insensible_iteration seance_id s : insensible (iteration seance_id s).
Proof.
  unfold iteration. repeat pas_insensible.
  destruct (cartes _); repeat pas_insensible.
  destruct (traiter_cartes _ _) as [[tous vus] n].
  destruct (Nat.eqb n 0); repeat pas_insensible.
  destruct (2 <=? _); repeat pas_insensible.
Qed.

Lemma insensible_boucle fuel seance_id s : insensible (boucle fuel seance_id s).
Proof.
  revert s. induction fuel as [|fuel IH]; intros s; simpl.
  - by intros m m' H.
  - apply insensible_bind; [apply insensible_iteration|].
    intros [s'|s']; [apply IH|apply insensible_ret].
Qed.

Lemma insensible_extraire_liens fuel seance_id :
  insensible (extraire_liens_deliberations fuel seance_id).
Proof.
  unfold extraire_liens_deliberations.
  apply insensible_bind; [apply insensible_print|intros _].
  apply insensible_bind; [apply insensible_boucle|intros s].
  repeat pas_insensible.
Qed.

Lemma insensible_extraire_contenu url :
  insensible (extraire_contenu_deliberation url).
Proof. unfold extraire_contenu_deliberation. repeat pas_insensible. Qed.

Lemma insensible_boucle_extraction liens i n deliberations :
  insensible (boucle_extraction liens i n deliberations).
Proof.
  revert i deliberations. induction liens as [|lien liens IH]; intros i ds; simpl.
  - apply insensible_ret.
  - apply insensible_bind; [apply insensible_print|intros _].
    apply insensible_bind; [apply insensible_extraire_contenu|intros d].
    apply IH.
Qed.

Lemma insensible_sauvegarder deliberations id nom f :
  insensible (sauvegarder_resultats deliberations id nom f).
Proof. unfold sauvegarder_resultats, json_dump. repeat pas_insensible. Qed.

Lemma insensible_ecrire_points f i deliberations :
  insensible (ecrire_points f i deliberations).
Proof.
  revert i. induction deliberations as [|d ds IH]; intros i; simpl.
  - apply insensible_ret.
  - do 11 pas_insensible. all: try pas_insensible. apply IH.
Qed.

Lemma insensible_creer_resume_texte deliberations f nom :
  insensible (creer_resume_texte deliberations f nom).
Proof.
  unfold creer_resume_texte.
  do 4 (apply insensible_bind; [pas_insensible|intros _]).
  apply insensible_bind.
  { destruct (truthy _); pas_insensible. }
  intros _.
  apply insensible_bind; [pas_insensible|intros _].
  apply insensible_bind; [apply insensible_ecrire_points|intros _].
  pas_insensible.
Qed.

Lemma insensible_main_extraire fuel : insensible (Extraire.main fuel).
Proof.
  unfold Extraire.main.
  apply insensible_bind; [pas_insensible|intros _].
  apply insensible_bind; [apply insensible_detecter|intros [id nom]].
  destruct (negb _); [repeat pas_insensible|].
  apply insensible_bind; [apply insensible_extraire_liens|intros liens].
  destruct liens as [|lien liens]; [repeat pas_insensible|].
  apply insensible_bind; [pas_insensible|intros _].
  apply insensible_bind; [apply insensible_boucle_extraction|intros ds].
  apply insensible_bind; [apply insensible_sauvegarder|intros _].
  apply insensible_bind; [apply insensible_creer_resume_texte|intros _].
  repeat pas_insensible.
Qed.

Lemma insensible_charger path : insensible (charger_derniere_seance path).
Proof.
  unfold charger_derniere_seance.
  apply insensible_bind; [pas_insensible|intros existe].
  destruct (negb existe); [pas_insensible|].
  apply insensible_bind.
  { repeat pas_insensible. }
  intros [[| | | | | |d]|]; repeat pas_insensible.
Qed.

End Independance.

(** * What a computation emits and which files it touches *)

Module Cadre.
Import Extraire ExtraireFaits Exemples Extracteur Pipeline PipelineFaits
  Orchestrateur Idempotence Independance.

#[local] Arguments noter : simpl never.
#[local] Arguments ajouter : simpl never.

(** [c] only adds to the journal, and only events that satisfy [P]. *)
Definition n_emet_que (P : evenement → bool) {A} (c : M A) : Prop :=
  ∀ m, ∃ evs, journal (c m).2 = journal m ++ evs ∧ forallb P evs = true.

Section Emissions.
Context (P : evenement → bool).

Lemma n_emet_que_silence {A} (c : M A) :
  (∀ m, (c m).2 = m) → n_emet_que P c.
Proof. intros H m. exists []. by rewrite H, app_nil_r. Qed.

Lemma n_emet_que_ret {A} (a : A) : n_emet_que P (mret a).
Proof. by apply n_emet_que_silence. Qed.

Lemma n_emet_que_raise {A} e : n_emet_que P (@raise A e).
Proof. by apply n_emet_que_silence. Qed.

Lemma n_emet_que_bind {A B} (c : M A) (k : A → M B) :
  n_emet_que P c → (∀ a, n_emet_que P (k a)) → n_emet_que P (c ≫= k).
Proof.
  intros Hc Hk m. rewrite bind_eq. destruct (Hc m) as (evs & Hj & HP).
  destruct (c m) as [[a|e|] m1]; [|by exists evs..].
  destruct (Hk a m1) as (evs' & Hj' & HP'). exists (evs ++ evs').
  simpl in Hj. rewrite Hj', Hj, app_assoc, forallb_app, HP, HP'. done.
Qed.

Lemma n_emet_que_try_except {A} (c : M A) (h : exception → M A) :
  n_emet_que P c → (∀ e, n_emet_que P (h e)) → n_emet_que P (try_except c h).
Proof.
  intros Hc Hh m. unfold try_except. destruct (Hc m) as (evs & Hj & HP).
  destruct (c m) as [[a|e|] m1]; [by exists evs| |by exists evs].
  destruct (Hh e m1) as (evs' & Hj' & HP'). exists (evs ++ evs').
  simpl in Hj. rewrite Hj', Hj, app_assoc, forallb_app, HP, HP'. done.
Qed.

Lemma n_emet_que_un {A} (c : M A) ev :
  P ev = true →
  (∀ m, journal (c m).2 = journal m ++ [ev]) → n_emet_que P c.
Proof. intros HP H m. exists [ev]. rewrite H. simpl. by rewrite HP. Qed.

Lemma n_emet_que_print msg : P (Affiche msg) = true → n_emet_que P (print msg).
Proof. intros HP. by apply (n_emet_que_un _ (Affiche msg)). Qed.

Lemma n_emet_que_time_sleep n : P (Pause n) = true → n_emet_que P (time_sleep n).
Proof. intros HP. by apply (n_emet_que_un _ (Pause n)). Qed.

Lemma n_emet_que_requests_get url t :
  P (Requete url t) = true → n_emet_que P (requests_get url t).
Proof.
  intros HP. apply (n_emet_que_un _ (Requete url t)); [done|].
  intros m. unfold requests_get. by destruct (site m url).
Qed.

Lemma n_emet_que_ouvrir_ecriture f :
  P (Troncature f) = true → n_emet_que P (ouvrir_ecriture f).
Proof.
  intros HP m. unfold ouvrir_ecriture.
  destruct (fichiers m !! f) as [[raison|s]|].
  - exists []. by rewrite app_nil_r.
  - exists [Troncature f]. simpl. by rewrite HP.
  - exists [Troncature f]. simpl. by rewrite HP.
Qed.

Lemma n_emet_que_ecrire f texte :
  P (Ecriture f texte) = true → n_emet_que P (ecrire f texte).
Proof.
  intros HP m. unfold ecrire. destruct (utf8_valide texte).
  - exists [Ecriture f texte]. simpl. by rewrite HP.
  - exists []. by rewrite app_nil_r.
Qed.

Lemma n_emet_que_ecrire_morceaux f ms :
  (∀ texte, P (Ecriture f texte) = true) → n_emet_que P (ecrire_morceaux f ms).
Proof.
  intros HP. induction ms as [|x ms IH]; cbn [ecrire_morceaux].
  - apply n_emet_que_ret.
  - apply n_emet_que_bind; [by apply n_emet_que_ecrire|intros _; apply IH].
Qed.

Lemma n_emet_que_datetime_utcnow : n_emet_que P datetime_utcnow.
Proof. by apply n_emet_que_silence. Qed.

Lemma n_emet_que_champ d k : n_emet_que P (champ d k).
Proof.
  unfold champ. case_bool_decide; [|apply n_emet_que_raise].
  destruct (dict_get k d); first [apply n_emet_que_ret|apply n_emet_que_raise].
Qed.

Lemma n_emet_que_champ_formate d k : n_emet_que P (champ_formate d k).
Proof.
  unfold champ_formate. case_bool_decide; [|apply n_emet_que_raise].
  destruct (format_valeur (dict_get k d));
    [apply n_emet_que_ret|by apply n_emet_que_silence].
Qed.

End Emissions.

(** The events of the extraction program: everything but reading a file
    and launching a program. *)
Definition evenement_d_extraction (e : evenement) : bool :=
  match e with
  | Lecture _ | Lancement _ => false
  | _ => true
  end.

Ltac pas_emission :=
  lazymatch goal with
  | |- n_emet_que _ (_ ≫= _) => apply n_emet_que_bind; [|intros ?]
  | |- n_emet_que _ (mret _) => apply n_emet_que_ret
  | |- n_emet_que _ (raise _) => apply n_emet_que_raise
  | |- n_emet_que _ (print _) => by apply n_emet_que_print
  | |- n_emet_que _ (time_sleep _) => by apply n_emet_que_time_sleep
  | |- n_emet_que _ (requests_get _ _) => by apply n_emet_que_requests_get
  | |- n_emet_que _ (ouvrir_ecriture _) => by apply n_emet_que_ouvrir_ecriture
  | |- n_emet_que _ (ecrire _ _) => by apply n_emet_que_ecrire
  | |- n_emet_que _ (ecrire_morceaux _ _) => by apply n_emet_que_ecrire_morceaux
  | |- n_emet_que _ (champ_formate _ _) => apply n_emet_que_champ_formate
  | |- n_emet_que _ datetime_utcnow => apply n_emet_que_datetime_utcnow
  | |- n_emet_que _ (champ _ _) => apply n_emet_que_champ
  | |- n_emet_que _ (try_except _ _) => apply n_emet_que_try_except; [|intros ?]
  end.

Lemma emissions_detecter :
  n_emet_que evenement_d_extraction detecter_seance_la_plus_recente.
Proof.
  unfold detecter_seance_la_plus_recente. repeat pas_emission.
  destruct (select_seance _) as [[o|]|]; repeat pas_emission.
Qed.

Lemma emissions_iteration seance_id s :
  n_emet_que evenement_d_extraction (iteration seance_id s).
Proof.
  unfold iteration. repeat pas_emission.
  destruct (cartes _); repeat pas_emission.
  destruct (traiter_cartes _ _) as [[tous vus] n].
  destruct (Nat.eqb n 0); repeat pas_emission.
  destruct (2 <=? _); repeat pas_emission.
Qed.

Lemma emissions_boucle fuel seance_id s :
  n_emet_que evenement_d_extraction (boucle fuel seance_id s).
Proof.
  revert s. induction fuel as [|fuel IH]; intros s; simpl.
  - by apply n_emet_que_silence.
  - apply n_emet_que_bind; [apply emissions_iteration|].
    intros [s'|s']; [apply IH|apply n_emet_que_ret].
Qed.

Lemma emissions_extraire_liens fuel seance_id :
  n_emet_que evenement_d_extraction (extraire_liens_deliberations fuel seance_id).
Proof.
  unfold extraire_liens_deliberations.
  apply n_emet_que_bind; [pas_emission|intros _].
  apply n_emet_que_bind; [apply emissions_boucle|intros s].
  repeat pas_emission.
Qed.

Lemma emissions_extraire_contenu url :
  n_emet_que evenement_d_extraction (extraire_contenu_deliberation url).
Proof. unfold extraire_contenu_deliberation. repeat pas_emission. Qed.

Lemma emissions_boucle_extraction liens i n deliberations :
  n_emet_que evenement_d_extraction (boucle_extraction liens i n deliberations).
Proof.
  revert i deliberations. induction liens as [|lien liens IH]; intros i ds; simpl.
  - apply n_emet_que_ret.
  - apply n_emet_que_bind; [pas_emission|intros _].
    apply n_emet_que_bind; [apply emissions_extraire_contenu|intros d].
    apply IH.
Qed.

Lemma emissions_sauvegarder deliberations id nom f :
  n_emet_que evenement_d_extraction (sauvegarder_resultats deliberations id nom f).
Proof. unfold sauvegarder_resultats, json_dump. repeat pas_emission. Qed.

Lemma emissions_ecrire_points f i deliberations :
  n_emet_que evenement_d_extraction (ecrire_points f i deliberations).
Proof.
  revert i. induction deliberations as [|d ds IH]; intros i; simpl.
  - apply n_emet_que_ret.
  - do 11 pas_emission. all: try pas_emission. apply IH.
Qed.

Lemma emissions_creer_resume_texte deliberations f nom :
  n_emet_que evenement_d_extraction (creer_resume_texte deliberations f nom).
Proof.
  unfold creer_resume_texte.
  do 4 (apply n_emet_que_bind; [pas_emission|intros _]).
  apply n_emet_que_bind.
  { destruct (truthy _); pas_emission. }
  intros _.
  apply n_emet_que_bind; [pas_emission|intros _].
  apply n_emet_que_bind; [apply emissions_ecrire_points|intros _].
  pas_emission.
Qed.

Lemma emissions_main fuel : n_emet_que evenement_d_extraction (Extraire.main fuel).
Proof.
  unfold Extraire.main.
  apply n_emet_que_bind; [pas_emission|intros _].
  apply n_emet_que_bind; [apply emissions_detecter|intros [id nom]].
  destruct (negb _); [repeat pas_emission|].
  apply n_emet_que_bind; [apply emissions_extraire_liens|intros liens].
  destruct liens as [|lien liens]; [repeat pas_emission|].
  apply n_emet_que_bind; [pas_emission|intros _].
  apply n_emet_que_bind; [apply emissions_boucle_extraction|intros ds].
  apply n_emet_que_bind; [apply emissions_sauvegarder|intros _].
  apply n_emet_que_bind; [apply emissions_creer_resume_texte|intros _].
  repeat pas_emission.
Qed.

(** [c] leaves the site, the clock and the analysis alone, and touches
    no file outside [fs]. *)
Definition ne_touche_que (fs : list string) {A} (c : M A) : Prop :=
  ∀ m, meme_exterieur m (c m).2
       ∧ ∀ chemin, chemin ∉ fs → fichiers (c m).2 !! chemin = fichiers m !! chemin.

Section Fichiers.
Context (fs : list string).

Lemma ne_touche_que_journal {A} (c : M A) :
  (∀ m, meme_monde (c m).2 m) → ne_touche_que fs c.
Proof.
  intros H m. destruct (H m) as (Hs & Hf & Hu & Hc).
  split; [done|]. intros chemin _. by rewrite Hf.
Qed.

Lemma ne_touche_que_un {A} f (c : M A) :
  f ∈ fs → n_ecrit_que f c → ne_touche_que fs c.
Proof.
  intros Hf Hc m. destruct (Hc m) as [He Hfr]. split; [done|].
  intros chemin Hn. apply Hfr. intros ->. done.
Qed.

Lemma ne_touche_que_ret {A} (a : A) : ne_touche_que fs (mret a).
Proof. by apply ne_touche_que_journal. Qed.

Lemma ne_touche_que_raise {A} e : ne_touche_que fs (@raise A e).
Proof. by apply ne_touche_que_journal. Qed.

Lemma ne_touche_que_bind {A B} (c : M A) (k : A → M B) :
  ne_touche_que fs c → (∀ a, ne_touche_que fs (k a)) → ne_touche_que fs (c ≫= k).
Proof.
  intros Hc Hk m. rewrite bind_eq. specialize (Hc m).
  destruct (c m) as [[a|e|] m1]; [|done..].
  specialize (Hk a m1). simpl in Hc. destruct Hc as [(? & ? & ?) Hf].
  destruct Hk as [(? & ? & ?) Hf'].
  split; [split_and!; congruence|].
  intros chemin Hne. rewrite Hf' by done. by apply Hf.
Qed.

Lemma ne_touche_que_try_except {A} (c : M A) (h : exception → M A) :
  ne_touche_que fs c → (∀ e, ne_touche_que fs (h e)) →
  ne_touche_que fs (try_except c h).
Proof.
  intros Hc Hh m. unfold try_except. specialize (Hc m).
  destruct (c m) as [[a|e|] m1]; [done| |done].
  specialize (Hh e m1). simpl in Hc. destruct Hc as [(? & ? & ?) Hf].
  destruct Hh as [(? & ? & ?) Hf'].
  split; [split_and!; congruence|].
  intros chemin Hne. rewrite Hf' by done. by apply Hf.
Qed.

Lemma ne_touche_que_print msg : ne_touche_que fs (print msg).
Proof. by apply ne_touche_que_journal. Qed.

Lemma ne_touche_que_time_sleep n : ne_touche_que fs (time_sleep n).
Proof. by apply ne_touche_que_journal. Qed.

Lemma ne_touche_que_requests_get url t : ne_touche_que fs (requests_get url t).
Proof.
  apply ne_touche_que_journal. intros m. unfold requests_get.
  by destruct (site m url).
Qed.

Lemma ne_touche_que_datetime_utcnow : ne_touche_que fs datetime_utcnow.
Proof. by apply ne_touche_que_journal. Qed.

Lemma ne_touche_que_champ d k : ne_touche_que fs (champ d k).
Proof.
  unfold champ. case_bool_decide; [|apply ne_touche_que_raise].
  destruct (dict_get k d); first [apply ne_touche_que_ret|apply ne_touche_que_raise].
Qed.

Lemma ne_touche_que_champ_formate d k : ne_touche_que fs (champ_formate d k).
Proof.
  unfold champ_formate. case_bool_decide; [|apply ne_touche_que_raise].
  destruct (format_valeur (dict_get k d));
    [apply ne_touche_que_ret|by apply ne_touche_que_journal].
Qed.

Lemma ne_touche_que_ouvrir_ecriture f : f ∈ fs → ne_touche_que fs (ouvrir_ecriture f).
Proof. intros Hf. eapply ne_touche_que_un; [done|apply n_ecrit_que_ouvrir]. Qed.

Lemma ne_touche_que_ecrire f texte : f ∈ fs → ne_touche_que fs (ecrire f texte).
Proof. intros Hf. eapply ne_touche_que_un; [done|apply n_ecrit_que_ecrire]. Qed.

Lemma ne_touche_que_ecrire_morceaux f ms :
  f ∈ fs → ne_touche_que fs (ecrire_morceaux f ms).
Proof.
  intros Hf. induction ms as [|x ms IH]; cbn [ecrire_morceaux].
  - apply ne_touche_que_ret.
  - apply ne_touche_que_bind; [by apply ne_touche_que_ecrire|intros _; apply IH].
Qed.

End Fichiers.

Ltac pas_cadre :=
  lazymatch goal with
  | |- ne_touche_que _ (_ ≫= _) => apply ne_touche_que_bind; [|intros ?]
  | |- ne_touche_que _ (mret _) => apply ne_touche_que_ret
  | |- ne_touche_que _ (raise _) => apply ne_touche_que_raise
  | |- ne_touche_que _ (print _) => apply ne_touche_que_print
  | |- ne_touche_que _ (time_sleep _) => apply ne_touche_que_time_sleep
  | |- ne_touche_que _ (requests_get _ _) => apply ne_touche_que_requests_get
  | |- ne_touche_que _ (ouvrir_ecriture _) =>
      apply ne_touche_que_ouvrir_ecriture; set_solver
  | |- ne_touche_que _ (ecrire _ _) => apply ne_touche_que_ecrire; set_solver
  | |- ne_touche_que _ (ecrire_morceaux _ _) =>
      apply ne_touche_que_ecrire_morceaux; set_solver
  | |- ne_touche_que _ (champ_formate _ _) => apply ne_touche_que_champ_formate
  | |- ne_touche_que _ datetime_utcnow => apply ne_touche_que_datetime_utcnow
  | |- ne_touche_que _ (champ _ _) => apply ne_touche_que_champ
  | |- ne_touche_que _ (try_except _ _) => apply ne_touche_que_try_except; [|intros ?]
  end.

(** The two files the extraction program writes. *)
Definition sorties_extraction : list string :=
  ["deliberations_wavre.json"; "resume_deliberations.txt"].

Lemma cadre_journal {A} fs (c : M A) :
  (∀ m, ∃ evs, (c m).2 = ajouter evs m) → ne_touche_que fs c.
Proof.
  intros H. apply ne_touche_que_journal. intros m. destruct (H m) as [evs ->].
  apply meme_monde_ajouter.
Qed.

Lemma cadre_main fuel : ne_touche_que sorties_extraction (Extraire.main fuel).
Proof.
  unfold Extraire.main.
  apply ne_touche_que_bind; [pas_cadre|intros _].
  apply ne_touche_que_bind.
  { apply cadre_journal. intros m. rewrite detecter_seance_la_plus_recente_eq.
    by eexists. }
  intros [id nom].
  destruct (negb _); [repeat pas_cadre|].
  apply ne_touche_que_bind.
  { apply cadre_journal. intros m.
    destruct (extraire_liens_deliberations_trace fuel (default "" id) m)
      as (evs & H & _). by exists evs. }
  intros liens.
  destruct liens as [|lien liens]; [repeat pas_cadre|].
  apply ne_touche_que_bind; [pas_cadre|intros _].
  apply ne_touche_que_bind.
  { apply cadre_journal. intros m.
    destruct (boucle_extraction_eq (lien :: liens) 1 (length (lien :: liens)) [] m)
      as [evs ->]. by exists evs. }
  intros ds.
  apply ne_touche_que_bind.
  { unfold sauvegarder_resultats, json_dump, sorties_extraction. repeat pas_cadre. }
  intros _.
  apply ne_touche_que_bind.
  { eapply ne_touche_que_un; [|apply n_ecrit_que_creer_resume_texte].
    unfold sorties_extraction. set_solver. }
  intros _. repeat pas_cadre.
Qed.

End Cadre.

(** * The text summary *)

Module Resume.
Import Extraire ExtraireFaits Exemples Extracteur Pipeline PipelineFaits AllerRetour
  Morceaux Orchestrateur Idempotence.

#[local] Arguments noter : simpl never.
#[local] Arguments ajouter : simpl never.
#[local] Arguments repeter : simpl never.

(** The text an f-string puts for a field whose text is modelled. *)
Definition texte_formate (v : json) : string := default "" (format_valeur v).

(** The text of a field that holds a string. *)
Definition texte_de (j : json) : string :=
  match j with
  | JStr s => s
  | _ => ""
  end.

(** The texts written for the record of rank [i], one per [f.write]. *)
Definition textes_point (i : nat) (d : dict) : list string :=
  [car 10 +:+ repeter 80 "=" +:+ car 10;
   "POINT " +:+ pretty i +:+ car 10;
   repeter 80 "=" +:+ car 10 +:+ car 10;
   "TITRE : " +:+ texte_formate (dict_get "titre" d) +:+ car 10 +:+ car 10;
   "URL : " +:+ texte_formate (dict_get "url" d) +:+ car 10 +:+ car 10;
   "CONTENU :" +:+ car 10 +:+ repeter 80 "-" +:+ car 10;
   texte_de (dict_get "contenu" d);
   car 10 +:+ car 10].

Fixpoint textes_points (i : nat) (deliberations : list dict) : list string :=
  match deliberations with
  | [] => []
  | d :: reste => textes_point i d ++ textes_points (S i) reste
  end.

(** The texts of the whole summary: the header, then the records,
    numbered from 1. *)
Definition textes_resume (seance_nom : option string) (deliberations : list dict)
  : list string :=
  [repeter 80 "=" +:+ car 10;
   "DÉLIBÉRATIONS DU CONSEIL COMMUNAL DE WAVRE" +:+ car 10]
  ++ (if truthy (of_option seance_nom) then [default "" seance_nom +:+ car 10] else [])
  ++ [repeter 80 "=" +:+ car 10 +:+ car 10]
  ++ textes_points 1 deliberations.

(** A record the summary can render: it has its three fields, the title
    and the URL of a type whose text is modelled, the content a string. *)
Definition fiche_complete (d : dict) : Prop :=
  "titre" ∈ d.*1 ∧ "url" ∈ d.*1 ∧ "contenu" ∈ d.*1
  ∧ is_Some (format_valeur (dict_get "titre" d))
  ∧ is_Some (format_valeur (dict_get "url" d))
  ∧ ∃ s, dict_get "contenu" d = JStr s.

Lemma fiche_fiche_complete url r : fiche_complete (fiche url r).
Proof.
  unfold fiche_complete.
  assert ((fiche url r).*1 = ["url"; "titre"; "contenu"]) as -> by by destruct r.
  split_and!; try set_solver; destruct r; by eexists.
Qed.

Lemma bind_ext {A B} (c : M A) (k k' : A → M B) m :
  (∀ a m', k a m' = k' a m') → (c ≫= k) m = (c ≫= k') m.
Proof. intros H. rewrite !bind_eq. by destruct (c m) as [[a|e|] m']. Qed.


Lemma champ_formate_complet {B} d cle (k : string → M B) m :
  cle ∈ d.*1 → is_Some (format_valeur (dict_get cle d)) →
  (champ_formate d cle ≫= k) m = k (texte_formate (dict_get cle d)) m.
Proof.
  intros Hin [s Hs]. rewrite bind_eq. unfold champ_formate, texte_formate.
  rewrite bool_decide_true by done. by rewrite Hs.
Qed.

Lemma champ_complet {B} d cle (k : string → M B) m s :
  cle ∈ d.*1 → dict_get cle d = JStr s →
  (champ d cle ≫= k) m = k (texte_de (dict_get cle d)) m.
Proof.
  intros Hin Hs. rewrite bind_eq. unfold champ.
  rewrite bool_decide_true by done. by rewrite Hs.
Qed.



Lemma ecrire_morceaux_app f ms1 ms2 m :
  ecrire_morceaux f (ms1 ++ ms2) m
  = (ecrire_morceaux f ms1 ≫= λ _, ecrire_morceaux f ms2) m.
Proof.
  revert m. induction ms1 as [|x ms1 IH]; intros m; [done|].
  cbn [app ecrire_morceaux]. rewrite !bind_eq.
  destruct (ecrire f x m) as [[[]|e|] m1]; [|done..].
  rewrite IH. by rewrite bind_eq.
Qed.

(** On records it can render, the loop of the summary is a sequence of
    writes. *)
Lemma ecrire_points_eq f deliberations i m :
  Forall fiche_complete deliberations →
  ecrire_points f i deliberations m
  = ecrire_morceaux f (textes_points i deliberations) m.
Proof.
  intros Hd. revert i m.
  induction Hd as [|d reste (Ht & Hu & Hc & Hft & Hfu & s & Hs) _ IH]; intros i m;
    [done|].
  cbn [ecrire_points textes_points textes_point app ecrire_morceaux].
  do 3 (apply bind_ext; intros _ ?).
  rewrite champ_formate_complet by done.
  apply bind_ext; intros _ ?.
  rewrite champ_formate_complet by done.
  do 2 (apply bind_ext; intros _ ?).
  rewrite (champ_complet _ _ _ _ s) by done.
  do 2 (apply bind_ext; intros _ ?).
  apply IH.
Qed.


Lemma ecrire_morceaux_puis {B} f texte ts (k : unit → M B) m :
  (ecrire_morceaux f (texte :: ts) ≫= k) m
  = (ecrire f texte ≫= λ _, ecrire_morceaux f ts ≫= k) m.
Proof.
  cbn [ecrire_morceaux]. rewrite !bind_eq.
  by destruct (ecrire f texte m) as [[[]|e|] m1].
Qed.

(** On records it can render, the summary is the opening of the file
    followed by a sequence of writes. *)
Lemma creer_resume_texte_eq deliberations f nom m :
  Forall fiche_complete deliberations →
  creer_resume_texte deliberations f nom m
  = (print (MsgResume f);;
     ouvrir_ecriture f;;
     ecrire_morceaux f (textes_resume nom deliberations);;
     print MsgResumeCree) m.
Proof.
  intros Hd. unfold creer_resume_texte, textes_resume.
  do 2 (apply bind_ext; intros _ ?).
  cbn [app].
  do 2 (rewrite ecrire_morceaux_puis; apply bind_ext; intros _ ?).
  destruct (truthy (of_option nom)); cbn [app].
  - do 2 (rewrite ecrire_morceaux_puis; apply bind_ext; intros _ ?).
    rewrite !bind_eq. by rewrite ecrire_points_eq.
  - rewrite (bind_eq (mret ())). cbv beta iota delta [mret M_ret].
    rewrite ecrire_morceaux_puis; apply bind_ext; intros _ ?.
    rewrite !bind_eq. by rewrite ecrire_points_eq.
Qed.

(** The events of a summary that found its file openable. *)
Definition trace_resume (f : string) (ts : list string) : list evenement :=
  [Affiche (MsgResume f); Troncature f]
  ++ (Ecriture f <$> prefixe_encodable ts)
  ++ (if forallb utf8_valide ts then [Affiche MsgResumeCree] else []).

(** The summary of records it can render, as a function of the file it
    finds. *)
Lemma creer_resume_texte_complet deliberations f nom m :
  Forall fiche_complete deliberations →
  creer_resume_texte deliberations f nom m =
    match fichiers m !! f with
    | Some (Inaccessible raison) =>
        (Leve (Exc OSError raison), ajouter [Affiche (MsgResume f)] m)
    | _ =>
        let ts := textes_resume nom deliberations in
        (if forallb utf8_valide ts then Retour tt
         else Leve (Exc UnicodeEncodeError "'utf-8' codec can't encode"),
         Monde (site m)
               (<[f := Octets (concatener (prefixe_encodable ts))]> (fichiers m))
               (utcnow m) (code_analyse m)
               (journal m ++ trace_resume f ts))
    end.
Proof.
  intros Hd. rewrite creer_resume_texte_eq by done.
  generalize (textes_resume nom deliberations). intros ts. cbv zeta.
  unfold trace_resume. executer_monade.
  unfold ouvrir_ecriture. change (fichiers (noter ?e m)) with (fichiers m).
  destruct (fichiers m !! f) as [[raison|s]|] eqn:E; [done| |];
    cbv beta iota;
    erewrite (ecrire_morceaux_eq f ts _ "")
      by (unfold noter, avec_fichiers; cbn [fichiers]; apply lookup_insert_eq);
    unfold apres_ecritures, noter, avec_fichiers;
    cbn [site fichiers utcnow code_analyse journal];
    rewrite insert_insert_eq;
    destruct (forallb utf8_valide ts); cbn [fst snd];
    rewrite ?app_nil_r, <- ?app_assoc; reflexivity.
Qed.




End Resume.

(** * Further properties of the extraction program *)

Module ProgrammeExtraction.
Import Extraire ExtraireFaits Exemples Extracteur Pipeline PipelineFaits
  Morceaux Orchestrateur Idempotence Independance Cadre Resume.

#[local] Arguments noter : simpl never.
#[local] Arguments ajouter : simpl never.

Lemma cadre_sauvegarder deliberations id nom f :
  ne_touche_que [f] (sauvegarder_resultats deliberations id nom f).
Proof. unfold sauvegarder_resultats, json_dump. repeat pas_cadre. Qed.

(** X6 — Failure modes of the extraction program.  The program raises
    in three cases only: the detection request fails, and it raises the
    exception of that request; one of its two output files cannot be
    opened for writing, and it raises the [OSError] of that file; a
    chunk of the snapshot or a text of the summary cannot be encoded as
    UTF-8, and it raises [UnicodeEncodeError].  A failed fetch during
    the harvest or the extraction of an item never makes it raise.
    (Input and output errors after a successful opening are outside the
    model, and standard output is taken to accept every text.) *)
Theorem extraction_failure_modes fuel m e :
  (Extraire.main fuel m).1 = Leve e →
  site m URL_BASE = Echec e
  ∨ (exc_classe e = OSError
     ∧ (fichiers m !! "deliberations_wavre.json" = Some (Inaccessible (exc_msg e))
        ∨ fichiers m !! "resume_deliberations.txt" = Some (Inaccessible (exc_msg e))))
  ∨ (exc_classe e = UnicodeEncodeError
     ∧ ∃ sid nom liens,
         (detecter_seance_la_plus_recente m).1 = Retour (Some sid, nom)
         ∧ (extraire_liens_deliberations fuel sid m).1 = Retour liens
         ∧ (forallb utf8_valide
              (morceaux 0 (document_exporte (utcnow m +:+ "Z") (Some sid) nom
                             ((λ url, fiche url (site m url)) <$> liens))) = false
            ∨ forallb utf8_valide
                (textes_resume nom ((λ url, fiche url (site m url)) <$> liens))
              = false)).
Proof.
  unfold Extraire.main. executer_monade.
  rewrite !detecter_seance_la_plus_recente_eq, site_noter. cbn [fst].
  unfold resultat_detection.
  destruct (site m URL_BASE) as [e'|p] eqn:Hsite; [intros [= ->]; by left|].
  set (d := match select_seance p with Some (Some o) => _ | _ => _ end).
  assert (∃ id nom, d = Retour (id, nom)) as (id & nom & Hdet).
  { subst d. destruct (select_seance p) as [[o|]|]; by eexists _, _. }
  rewrite Hdet. clearbody d.
  destruct id as [sid|]; [|done].
  destruct (negb (truthy (of_option (Some sid)))); [done|].
  cbn [default from_option]. unfold id.
  set (m1 := ajouter _ (noter _ m)).
  destruct (extraire_liens_deliberations_trace fuel sid m1) as (evs & Hevs & _).
  pose proof (extraire_liens_deliberations_spec fuel sid m1) as Hspec.
  pose proof (extraire_liens_deliberations_site fuel sid m1 m eq_refl) as Hmeme.
  destruct (extraire_liens_deliberations fuel sid m1) as [[liens|e'|] m2];
    [|by destruct Hspec|done].
  simpl in Hevs, Hmeme. subst m2.
  destruct liens as [|lien liens]; [done|].
  executer_monade.
  destruct (boucle_extraction_eq (lien :: liens) 1 (length (lien :: liens)) []
              (noter (Affiche (MsgDebutExtraction (length (lien :: liens))))
                 (ajouter evs m1))) as [evs2 ->].
  rewrite app_nil_l, site_noter, site_ajouter.
  change (site m1) with (site m).
  set (fiches := (λ url, fiche url (site m url)) <$> lien :: liens).
  set (m3 := ajouter evs2 _).
  assert (Forall fiche_complete fiches) as Hcompletes.
  { apply Forall_forall. intros d' Hin.
    apply list_elem_of_fmap in Hin as (url & -> & _). apply fiche_fiche_complete. }
  rewrite sauvegarder_resultats_eq. cbv zeta.
  change (fichiers m3) with (fichiers m). change (utcnow m3) with (utcnow m).
  destruct (fichiers m !! "deliberations_wavre.json") as [[raison|s]|] eqn:Hsnap.
  { intros [= <-]. right. left. by split; [|left]. }
  all: destruct (forallb utf8_valide
                   (morceaux 0 (document_exporte (utcnow m +:+ "Z") (Some sid) nom
                                  fiches))) eqn:Hms;
    [|intros [= <-]; right; right; split; [done|];
      exists sid, nom, (lien :: liens); split_and!; [done|done|by left]].
  all: rewrite creer_resume_texte_complet by done; cbv zeta; cbn [fichiers].
  all: rewrite lookup_insert_ne by done.
  all: change (fichiers m3) with (fichiers m).
  all: destruct (fichiers m !! "resume_deliberations.txt") as [[raison|s']|] eqn:Hres;
    [intros [= <-]; right; left; by split; [|right]|..].
  all: destruct (forallb utf8_valide (textes_resume nom fiches)) eqn:Hts;
    [done|intros [= <-]; right; right; split; [done|];
          exists sid, nom, (lien :: liens); split_and!; [done|done|by right]].
Qed.

(** The snapshot file is a directory entry that cannot be opened. *)
Definition monde_sans_droit : monde :=
  Monde (site monde_a_moissonner)
        {[ FICHIER_DELIB := Inaccessible "Permission denied" ]}
        "2024-05-22T06:00:00" 0 [].

Lemma extraction_failure_modes_witness :
  site monde_sans_droit URL_BASE = Echec (Exc OSError "Permission denied")
  ∨ (exc_classe (Exc OSError "Permission denied") = OSError
     ∧ (fichiers monde_sans_droit !! "deliberations_wavre.json"
          = Some (Inaccessible (exc_msg (Exc OSError "Permission denied")))
        ∨ fichiers monde_sans_droit !! "resume_deliberations.txt"
          = Some (Inaccessible (exc_msg (Exc OSError "Permission denied")))))
  ∨ (exc_classe (Exc OSError "Permission denied") = UnicodeEncodeError
     ∧ ∃ sid nom liens,
         (detecter_seance_la_plus_recente monde_sans_droit).1 = Retour (Some sid, nom)
         ∧ (extraire_liens_deliberations 10 sid monde_sans_droit).1 = Retour liens
         ∧ (forallb utf8_valide
              (morceaux 0 (document_exporte (utcnow monde_sans_droit +:+ "Z")
                             (Some sid) nom
                             ((λ url, fiche url (site monde_sans_droit url)) <$> liens)))
            = false
            ∨ forallb utf8_valide
                (textes_resume nom
                   ((λ url, fiche url (site monde_sans_droit url)) <$> liens))
              = false)).
Proof.
  apply (extraction_failure_modes 10 monde_sans_droit (Exc OSError "Permission denied")).
  by vm_compute.
Defined.

(** X7 — Footprint of the extraction program.  Whatever the site
    answers, the program reads no file and launches no program; it
    leaves the site, the clock and every file other than
    deliberations_wavre.json and resume_deliberations.txt as they were;
    and when it stops before the end — no session detected, no link
    harvested — it leaves these two files untouched as well. *)
Theorem extraction_footprint fuel m :
  (∃ evs, journal (Extraire.main fuel m).2 = journal m ++ evs
          ∧ forallb evenement_d_extraction evs = true)
  ∧ site (Extraire.main fuel m).2 = site m
  ∧ utcnow (Extraire.main fuel m).2 = utcnow m
  ∧ (∀ chemin, chemin ∉ sorties_extraction →
       fichiers (Extraire.main fuel m).2 !! chemin = fichiers m !! chemin)
  ∧ (∀ r, (Extraire.main fuel m).1 = Retour r → r ≠ Terminee →
       fichiers (Extraire.main fuel m).2 = fichiers m).
Proof.
  destruct (cadre_main fuel m) as [(Hs & Hu & _) Hf].
  split_and!; [apply emissions_main|done|done|done|].
  intros r Hr Hne. revert Hr.
  unfold Extraire.main. executer_monade.
  rewrite detecter_seance_la_plus_recente_eq, site_noter.
  destruct (resultat_detection (site m URL_BASE)) as [[id nom]|e'|]; [|done..].
  destruct (negb (truthy (of_option id))); [done|].
  set (m1 := ajouter _ (noter _ m)).
  destruct (extraire_liens_deliberations_trace fuel (default "" id) m1)
    as (evs & Hevs & _).
  destruct (extraire_liens_deliberations fuel (default "" id) m1) as [[liens|e'|] m2];
    [|done..].
  simpl in Hevs. subst m2.
  destruct liens as [|lien liens]; [done|].
  executer_monade.
  destruct (boucle_extraction_eq (lien :: liens) 1 (length (lien :: liens)) []
              (noter (Affiche (MsgDebutExtraction (length (lien :: liens))))
                 (ajouter evs m1))) as [evs2 ->].
  destruct (sauvegarder_resultats _ _ _ _ _) as [[[]|e'|] m4]; [|done..].
  destruct (creer_resume_texte _ _ _ _) as [[[]|e'|] m5]; [|done..].
  intros [= <-]. done.
Qed.

End ProgrammeExtraction.

(** * Further properties of the orchestrator *)

Module OrchestrateurSuite.
Import Extraire ExtraireFaits Exemples Extracteur Pipeline PipelineFaits AllerRetour
  Orchestrateur Idempotence Independance Cadre ProgrammeExtraction.

#[local] Arguments noter : simpl never.
#[local] Arguments ajouter : simpl never.

Lemma code_analyse_ajouter evs m : code_analyse (ajouter evs m) = code_analyse m.
Proof. reflexivity. Qed.

Lemma code_analyse_noter e m : code_analyse (noter e m) = code_analyse m.
Proof. reflexivity. Qed.

Lemma filtre_vide f evs : compter f evs = 0 → List.filter f evs = [].
Proof.
  induction evs as [|e evs IH]; simpl; [done|].
  destruct (f e); [done|]. apply IH.
Qed.

Lemma compter_exclus (P f : evenement → bool) evs :
  (∀ e, P e = true → f e = false) →
  forallb P evs = true → compter f evs = 0.
Proof.
  intros Hex. induction evs as [|e evs IH]; simpl; [done|].
  intros [HP Hr]%andb_true_iff. by rewrite (Hex e HP), IH.
Qed.

(** The analysis step only adds to the journal; it returns, or raises
    [RuntimeError] when the analysis program exits with a non-zero
    status. *)
Lemma etape_analyse_issue fuel args m :
  ∃ evs,
    (etape_analyse fuel args m).2 = ajouter evs m
    ∧ compter est_ecriture evs = 0
    ∧ compter est_requete evs = 0
    ∧ ((etape_analyse fuel args m).1 = Retour SansAnalyse
       ∨ (etape_analyse fuel args m).1 = Retour Complete
       ∨ (code_analyse m ≠ 0
          ∧ ∃ msg, (etape_analyse fuel args m).1 = Leve (Exc RuntimeError msg))).
Proof.
  unfold etape_analyse. destruct (skip_analyse args).
  { executer_monade. rewrite noter_ajouter. eexists. split_and!; try done. by left. }
  set (commande := match details args with Some (n :: l) => _ | _ => _ end).
  assert (∃ suite, commande = sys_executable :: "analyser_sujets.py" :: suite)
    as [suite ->].
  { subst commande.
    destruct (truthy _), (skip_html args), (skip_json args),
      (details args) as [[|n l]|]; by eexists. }
  unfold executer, subprocess_run. executer_monade.
  cbn [sys_executable]. rewrite !noter_ajouter, !ajouter_ajouter.
  rewrite !code_analyse_ajouter.
  destruct (Nat.eqb_spec (code_analyse m) 0) as [Hc|Hc]; executer_monade.
  - rewrite !noter_ajouter, !ajouter_ajouter. eexists. split_and!; try done.
    right. by left.
  - eexists. split_and!; try done.
    right. right. split; [done|]. by eexists.
Qed.

(** Reading the last session only reads. *)
Lemma charger_derniere_seance_lecture_seule path m :
  ∃ evs, (charger_derniere_seance path m).2 = ajouter evs m
         ∧ compter est_requete evs = 0
         ∧ compter est_ecriture evs = 0
         ∧ compter est_lancement evs = 0.
Proof.
  rewrite charger_derniere_seance_eq.
  destruct (fichiers m !! path) as [[raison|s]|].
  - by eexists.
  - destruct (utf8_valide s); [|by eexists].
    destruct (json_loads s); by eexists.
  - exists []. by rewrite ajouter_nil.
Qed.

Definition echec_extraction : exception :=
  Exc RuntimeError
    ("Échec de l'étape '" +:+ etape_extraction +:+ "' (code " +:+ pretty 1 +:+ ")").

(** What the orchestrator does when it does not skip: it launches the
    extraction program, and goes on to the analysis when that program
    exits normally. *)
Lemma main_lance_extraction fuel args m vu_id vu_nom id nom :
  skip_extraction args = false →
  (charger_derniere_seance FICHIER_DELIB m).1 = Retour (vu_id, vu_nom) →
  (detecter_seance_la_plus_recente m).1 = Retour (id, nom) →
  truthy (of_option id) && egal vu_id id && negb (force args) = false →
  ∃ evs,
    compter est_requete evs = 1
    ∧ List.filter est_lancement evs = [Lancement commande_extraction]
    ∧ compter est_ecriture evs = 0
    ∧ Pipeline.main fuel args m =
        match Extraire.main fuel (ajouter evs m) with
        | (Retour _, m2) =>
            etape_analyse fuel args
              (ajouter [Affiche (MsgEtapeTerminee etape_extraction)] m2)
        | (Leve _, m2) => (Leve echec_extraction, m2)
        | (Epuise, m2) => (Epuise, m2)
        end.
Proof.
  intros Hskip Hvu Hd Hcond.
  rewrite detecter_seance_la_plus_recente_eq in Hd. simpl in Hd.
  destruct (charger_derniere_seance_lecture_seule FICHIER_DELIB m)
    as (evs_l & Hl & Hreq & Hecr & Hlan).
  unfold Pipeline.main. rewrite Hskip. cbn [negb]. executer_monade.
  destruct (charger_derniere_seance FICHIER_DELIB m) as [r m1].
  simpl in Hvu, Hl. subst r m1.
  rewrite detecter_seance_la_plus_recente_eq, site_ajouter, Hd, Hcond.
  fold etape_extraction commande_extraction.
  assert (compter est_requete (trace_detection (site m URL_BASE)) = 1
          ∧ compter est_lancement (trace_detection (site m URL_BASE)) = 0
          ∧ compter est_ecriture (trace_detection (site m URL_BASE)) = 0)
    as (Hr1 & Hr2 & Hr3).
  { unfold trace_detection. rewrite !compter_app. simpl.
    destruct (site m URL_BASE) as [e|p]; [done|].
    by destruct (select_seance p) as [[o|]|]. }
  destruct (bool_decide (id = None)); executer_monade;
    rewrite executer_extraction, ?noter_ajouter, ?ajouter_ajouter;
    lazymatch goal with
    | |- context [Extraire.main fuel (ajouter ?evs m)] => exists evs
    end;
    (split_and!;
     [rewrite !compter_app, ?Hreq, ?Hr1; done
     |rewrite !List.filter_app, (filtre_vide _ _ Hlan), (filtre_vide _ _ Hr2); done
     |rewrite !compter_app, ?Hecr, ?Hr3; done
     |by destruct (Extraire.main fuel _) as [[?|?|] ?]]).
Qed.

Lemma etape_analyse_jamais_ignoree fuel args m :
  (etape_analyse fuel args m).1 ≠ Retour Ignoree.
Proof.
  destruct (etape_analyse_issue fuel args m)
    as (evs & _ & _ & _ & [H|[H|(_ & msg & H)]]); by rewrite H.
Qed.

(** The early return has one cause. *)
Lemma main_ignoree_inverse fuel args m :
  (Pipeline.main fuel args m).1 = Retour Ignoree →
  skip_extraction args = false
  ∧ force args = false
  ∧ ∃ sid nom vu_nom,
      sid ≠ ""
      ∧ (detecter_seance_la_plus_recente m).1 = Retour (Some sid, nom)
      ∧ (charger_derniere_seance FICHIER_DELIB m).1 = Retour (JStr sid, vu_nom).
Proof.
  intros Hmain.
  destruct (skip_extraction args) eqn:Hskip.
  { exfalso. revert Hmain. unfold Pipeline.main. rewrite Hskip. cbn [negb].
    executer_monade. apply etape_analyse_jamais_ignoree. }
  destruct (charger_derniere_seance_lecture_seule FICHIER_DELIB m)
    as (evs_l & Hl & _).
  destruct (charger_derniere_seance FICHIER_DELIB m) as [[[vu_id vu_nom]|e|] m1] eqn:Hvu;
    [|exfalso; revert Hmain; unfold Pipeline.main; rewrite Hskip; cbn [negb];
      executer_monade; by rewrite Hvu..].
  simpl in Hl. subst m1.
  rewrite detecter_seance_la_plus_recente_eq. cbn [fst].
  destruct (resultat_detection (site m URL_BASE)) as [[id nom]|e|] eqn:Hd;
    [|exfalso; revert Hmain; unfold Pipeline.main; rewrite Hskip; cbn [negb];
      executer_monade; rewrite Hvu, detecter_seance_la_plus_recente_eq, site_ajouter, Hd;
      done..].
  destruct (truthy (of_option id) && egal vu_id id && negb (force args)) eqn:Hcond.
  - apply andb_true_iff in Hcond as [[Hid Heg]%andb_true_iff Hforce].
    apply negb_true_iff in Hforce.
    destruct id as [sid|]; [|done]. destruct vu_id as [| | | |s| |]; try done.
    simpl in Heg. apply String.eqb_eq in Heg as ->.
    split_and!; [done..|]. exists sid, nom, vu_nom. split_and!; [|done..].
    intros ->. done.
  - exfalso.
    destruct (main_lance_extraction fuel args m vu_id vu_nom id nom)
      as (evs & _ & _ & _ & Hrun); [done|by rewrite Hvu| |done|].
    { by rewrite detecter_seance_la_plus_recente_eq. }
    rewrite Hrun in Hmain.
    destruct (Extraire.main fuel (ajouter evs m)) as [[r|e|] m2]; [|done..].
    by apply etape_analyse_jamais_ignoree in Hmain.
Qed.

Lemma compter_filter f evs : compter f evs = length (List.filter f evs).
Proof.
  induction evs as [|e evs IH]; [done|]. cbn [compter List.filter].
  destruct (f e); cbn [length]; lia.
Qed.

(** When the orchestrator launches the extraction, the launch is in the
    journal of the run, whatever the extraction and the analysis do. *)
Lemma main_lance_extraction_journal fuel args m vu_id vu_nom id nom :
  skip_extraction args = false →
  (charger_derniere_seance FICHIER_DELIB m).1 = Retour (vu_id, vu_nom) →
  (detecter_seance_la_plus_recente m).1 = Retour (id, nom) →
  truthy (of_option id) && egal vu_id id && negb (force args) = false →
  ∃ evs,
    journal (Pipeline.main fuel args m).2 = journal m ++ evs
    ∧ Lancement commande_extraction ∈ evs.
Proof.
  intros Hskip Hvu Hd Hcond.
  destruct (main_lance_extraction fuel args m vu_id vu_nom id nom Hskip Hvu Hd Hcond)
    as (evs & _ & Hlan & _ & ->).
  assert (Lancement commande_extraction ∈ evs) as Hin.
  { apply list_elem_of_In. eapply (proj1 (List.filter_In est_lancement _ evs)).
    rewrite Hlan. by left. }
  destruct (emissions_main fuel (ajouter evs m)) as (evs2 & Hj & _).
  destruct (Extraire.main fuel (ajouter evs m)) as [[r|e|] m2]; cbn [snd] in *.
  - destruct (etape_analyse_issue fuel args
                (ajouter [Affiche (MsgEtapeTerminee etape_extraction)] m2))
      as (evs3 & -> & _).
    exists (evs ++ evs2 ++ [Affiche (MsgEtapeTerminee etape_extraction)] ++ evs3).
    rewrite !journal_ajouter, Hj, journal_ajouter, <- !app_assoc.
    split; [done|]. apply elem_of_app. by left.
  - exists (evs ++ evs2). rewrite Hj, journal_ajouter, <- app_assoc.
    split; [done|]. apply elem_of_app. by left.
  - exists (evs ++ evs2). rewrite Hj, journal_ajouter, <- app_assoc.
    split; [done|]. apply elem_of_app. by left.
Qed.

Lemma compter_element f e evs : e ∈ evs → f e = true → 0 < compter f evs.
Proof.
  induction evs as [|x evs IH]; [by intros ?%elem_of_nil|].
  intros [->|Hin]%elem_of_cons Hf; cbn [compter].
  - rewrite Hf. lia.
  - specialize (IH Hin Hf). lia.
Qed.

(** The analysis step, when it is not disabled, launches one program. *)
Lemma etape_analyse_lance fuel args m :
  skip_analyse args = false →
  ∃ evs, (etape_analyse fuel args m).2 = ajouter evs m
         ∧ 0 < compter est_lancement evs.
Proof.
  intros Hskip. unfold etape_analyse. rewrite Hskip.
  set (commande := match details args with Some (n :: l) => _ | _ => _ end).
  assert (∃ suite, commande = sys_executable :: "analyser_sujets.py" :: suite)
    as [suite ->].
  { subst commande.
    destruct (truthy _), (skip_html args), (skip_json args),
      (details args) as [[|n l]|]; by eexists. }
  unfold executer, subprocess_run. executer_monade.
  cbn [sys_executable]. rewrite !noter_ajouter, !ajouter_ajouter.
  rewrite !code_analyse_ajouter.
  destruct (Nat.eqb_spec (code_analyse m) 0) as [Hc|Hc]; executer_monade.
  - rewrite !noter_ajouter, !ajouter_ajouter. eexists. split; [done|].
    rewrite !compter_app. cbn. lia.
  - eexists. split; [done|]. rewrite !compter_app. cbn. lia.
Qed.

(** X8 — Returning without a launch has two causes.  A run of the
    orchestrator that returns without having launched any program is
    one of two: both --skip-extraction and --skip-analyse are set, and
    nothing was to be done; or extraction is not disabled, the force flag
    is not set, and the detector returned a non-empty identifier equal
    to the one read from the snapshot. *)
Theorem return_without_launch fuel args m r evs :
  (Pipeline.main fuel args m).1 = Retour r →
  journal (Pipeline.main fuel args m).2 = journal m ++ evs →
  compter est_lancement evs = 0 →
  (skip_extraction args = true ∧ skip_analyse args = true ∧ r = SansAnalyse)
  ∨ (skip_extraction args = false
     ∧ force args = false
     ∧ r = Ignoree
     ∧ ∃ sid nom vu_nom,
         sid ≠ ""
         ∧ (detecter_seance_la_plus_recente m).1 = Retour (Some sid, nom)
         ∧ (charger_derniere_seance FICHIER_DELIB m).1 = Retour (JStr sid, vu_nom)).
Proof.
  intros Hr Hj Hzero.
  destruct (skip_extraction args) eqn:Hskip.
  - left. split; [done|]. revert Hr Hj.
    unfold Pipeline.main. rewrite Hskip. cbn [negb]. executer_monade.
    destruct (skip_analyse args) eqn:Hana.
    + unfold etape_analyse. rewrite Hana. executer_monade. by intros [= <-].
    + intros _ Hj. exfalso.
      destruct (etape_analyse_lance fuel args (noter (Affiche MsgExtractionIgnoree) m)
                  Hana) as (evs' & Hm & Hpos).
      rewrite Hm, noter_ajouter, ajouter_ajouter, journal_ajouter in Hj.
      apply app_inv_head in Hj. subst evs.
      rewrite compter_app in Hzero. lia.
  - right. split; [done|].
    destruct (charger_derniere_seance FICHIER_DELIB m) as [[[vu_id vu_nom]|e|] m1]
      eqn:Hvu;
      [|exfalso; revert Hr; unfold Pipeline.main; rewrite Hskip; cbn [negb];
        executer_monade; by rewrite Hvu..].
    destruct (resultat_detection (site m URL_BASE)) as [[id nom]|e|] eqn:Hd;
      [|exfalso; revert Hr; unfold Pipeline.main; rewrite Hskip; cbn [negb];
        executer_monade;
        destruct (charger_derniere_seance_lecture_seule FICHIER_DELIB m)
          as (evs_l & Hl & _);
        rewrite Hvu in Hl |- *; simpl in Hl; subst m1;
        rewrite detecter_seance_la_plus_recente_eq, site_ajouter, Hd; done..].
    destruct (truthy (of_option id) && egal vu_id id && negb (force args)) eqn:Hcond.
    + assert ((Pipeline.main fuel args m).1 = Retour Ignoree) as Hign.
      { apply andb_true_iff in Hcond as [[Hid Heg]%andb_true_iff Hforce].
        apply negb_true_iff in Hforce.
        destruct id as [sid|]; [|done]. destruct vu_id as [| | | |s| |]; try done.
        simpl in Heg. apply String.eqb_eq in Heg as ->.
        rewrite (main_ignoree fuel args m sid vu_nom nom); try done.
        - by rewrite Hvu.
        - intros ->. done. }
      rewrite Hign in Hr. injection Hr as <-.
      destruct (main_ignoree_inverse fuel args m Hign) as (_ & Hforce & Hcause).
      by rewrite Hvu in Hcause.
    + exfalso.
      destruct (main_lance_extraction_journal fuel args m vu_id vu_nom id nom)
        as (evs' & Hj' & Hin); [done|by rewrite Hvu| |done|].
      { by rewrite detecter_seance_la_plus_recente_eq. }
      rewrite Hj' in Hj. apply app_inv_head in Hj. subst evs'.
      pose proof (compter_element est_lancement _ _ Hin eq_refl). lia.
Qed.

Lemma return_without_launch_witness :
  (skip_extraction sans_options = true ∧ skip_analyse sans_options = true
   ∧ Ignoree = SansAnalyse)
  ∨ (skip_extraction sans_options = false
     ∧ force sans_options = false
     ∧ Ignoree = Ignoree
     ∧ ∃ sid nom vu_nom,
         sid ≠ ""
         ∧ (detecter_seance_la_plus_recente monde_deja_moissonne).1
           = Retour (Some sid, nom)
         ∧ (charger_derniere_seance FICHIER_DELIB monde_deja_moissonne).1
           = Retour (JStr sid, vu_nom)).
Proof.
  apply (return_without_launch 10 sans_options monde_deja_moissonne Ignoree
           [Lecture FICHIER_DELIB;
            Affiche MsgDetection;
            Requete URL_BASE None;
            Affiche (MsgSeanceDetectee (Some "Conseil communal du 21 mai") (Some "S1"));
            Affiche MsgAucuneNouvelleSeance]).
  - by vm_compute.
  - by vm_compute.
  - reflexivity.
Defined.

(** The site does not answer. *)
Definition monde_hors_ligne : monde :=
  Monde (site_de [(URL_BASE, Echec (Exc RequestException "Connection refused"))])
        ∅ "2024-05-22T06:00:00" 0 [].

(** X9 — A failed detection aborts the orchestrator.  When extraction is
    not disabled and the request to the listing root raises, the
    orchestrator raises that same exception right after the request,
    whatever the flags: nothing is launched and nothing is written. *)
Theorem detection_failure_aborts fuel args m vu e :
  skip_extraction args = false →
  (charger_derniere_seance FICHIER_DELIB m).1 = Retour vu →
  site m URL_BASE = Echec e →
  ∃ evs,
    Pipeline.main fuel args m = (Leve e, ajouter evs m)
    ∧ last evs = Some (Requete URL_BASE None)
    ∧ compter est_requete evs = 1
    ∧ compter est_lancement evs = 0
    ∧ compter est_ecriture evs = 0.
Proof.
  intros Hskip Hvu He.
  destruct (charger_derniere_seance_lecture_seule FICHIER_DELIB m)
    as (evs_l & Hl & Hreq & Hecr & Hlan).
  unfold Pipeline.main. rewrite Hskip. cbn [negb]. executer_monade.
  destruct (charger_derniere_seance FICHIER_DELIB m) as [r m1].
  simpl in Hvu, Hl. subst r m1. destruct vu as [vu_id vu_nom].
  rewrite detecter_seance_la_plus_recente_eq, site_ajouter, He.
  cbn [resultat_detection trace_detection]. rewrite ajouter_ajouter.
  eexists. split; [done|].
  rewrite !compter_app, Hreq, Hecr, Hlan.
  split_and!; try done.
  change (trace_detection (Echec e))
    with ([Affiche MsgDetection] ++ [Requete URL_BASE None]).
  by rewrite app_assoc, last_snoc.
Qed.

Lemma detection_failure_aborts_witness :
  ∃ evs,
    Pipeline.main 10 sans_options monde_hors_ligne
    = (Leve (Exc RequestException "Connection refused"), ajouter evs monde_hors_ligne)
    ∧ last evs = Some (Requete URL_BASE None)
    ∧ compter est_requete evs = 1
    ∧ compter est_lancement evs = 0
    ∧ compter est_ecriture evs = 0.
Proof.
  apply (detection_failure_aborts 10 sans_options monde_hors_ligne (JNull, JNull)).
  - reflexivity.
  - by vm_compute.
  - reflexivity.
Defined.

(** X10 — A failed extraction aborts the orchestrator.  When the
    orchestrator launches the extraction program and that program
    raises, the orchestrator raises [RuntimeError] with the message of
    the failed step and exit status 1; the extraction is the only
    program it has launched: the analysis does not run. *)
Theorem extraction_failure_aborts fuel args m vu_id vu_nom id nom e :
  skip_extraction args = false →
  (charger_derniere_seance FICHIER_DELIB m).1 = Retour (vu_id, vu_nom) →
  (detecter_seance_la_plus_recente m).1 = Retour (id, nom) →
  truthy (of_option id) && egal vu_id id && negb (force args) = false →
  (Extraire.main fuel m).1 = Leve e →
  (Pipeline.main fuel args m).1
  = Leve (Exc RuntimeError
            "Échec de l'étape 'Étape 1/2 - Extraction des délibérations' (code 1)")
  ∧ ∃ evs,
      journal (Pipeline.main fuel args m).2 = journal m ++ evs
      ∧ List.filter est_lancement evs
        = [Lancement [sys_executable; "extraire_deliberations.py"]].
Proof.
  intros Hskip Hvu Hd Hcond Hext.
  destruct (main_lance_extraction fuel args m vu_id vu_nom id nom Hskip Hvu Hd Hcond)
    as (evs & _ & Hlan & _ & ->).
  destruct (insensible_main_extraire fuel (ajouter evs m) m (meme_monde_ajouter evs m))
    as [Hr _].
  destruct (emissions_main fuel (ajouter evs m)) as (evs2 & Hj & Hevs2).
  rewrite Hext in Hr.
  destruct (Extraire.main fuel (ajouter evs m)) as [r m2].
  simpl in Hr, Hj. subst r. split; [done|].
  exists (evs ++ evs2). cbn [snd]. rewrite Hj, <- app_assoc.
  split; [done|].
  rewrite List.filter_app, Hlan, (filtre_vide est_lancement evs2); [done|].
  eapply compter_exclus; [|done]. by intros [].
Qed.

Lemma extraction_failure_aborts_witness :
  (Pipeline.main 10 sans_options monde_sans_droit).1
  = Leve (Exc RuntimeError
            "Échec de l'étape 'Étape 1/2 - Extraction des délibérations' (code 1)")
  ∧ ∃ evs,
      journal (Pipeline.main 10 sans_options monde_sans_droit).2
      = journal monde_sans_droit ++ evs
      ∧ List.filter est_lancement evs
        = [Lancement [sys_executable; "extraire_deliberations.py"]].
Proof.
  apply (extraction_failure_aborts 10 sans_options monde_sans_droit JNull JNull
           (Some "S1") (Some "Conseil communal du 21 mai")
           (Exc OSError "Permission denied")).
  - reflexivity.
  - by vm_compute.
  - by vm_compute.
  - reflexivity.
  - by vm_compute.
Defined.




Definition est_lecture (e : evenement) : bool :=
  match e with
  | Lecture _ => true
  | _ => false
  end.

(** Extraction disabled, every other option left out. *)
Definition sans_extraction : arguments :=
  Arguments_ true false None None false false false.

(** X12 — Extraction disabled.  With --skip-extraction the orchestrator
    makes no request, reads no file and writes none.  With
    --skip-analyse as well it launches nothing and returns; otherwise it
    launches the analysis program alone, in automatic mode, and returns
    when that program exits with status 0, and raises [RuntimeError]
    with the status in its message when it does not. *)
Theorem skip_extraction_offline fuel args m :
  skip_extraction args = true →
  ∃ evs,
    (Pipeline.main fuel args m).2 = ajouter evs m
    ∧ compter est_requete evs = 0
    ∧ compter est_lecture evs = 0
    ∧ compter est_ecriture evs = 0
    ∧ if skip_analyse args
      then (Pipeline.main fuel args m).1 = Retour SansAnalyse
           ∧ List.filter est_lancement evs = []
      else (∃ options,
              List.filter est_lancement evs
              = [Lancement ([sys_executable; "analyser_sujets.py"; "--auto"]
                            ++ options)])
           ∧ (Pipeline.main fuel args m).1
             = if code_analyse m =? 0 then Retour Complete
               else Leve (Exc RuntimeError
                            ("Échec de l'étape '" +:+ etape_analyse_texte
                             +:+ "' (code " +:+ pretty (code_analyse m) +:+ ")")).
Proof.
  intros Hskip. unfold Pipeline.main. rewrite Hskip. cbn [negb].
  executer_monade. unfold etape_analyse.
  destruct (skip_analyse args).
  { executer_monade. rewrite !noter_ajouter, !ajouter_ajouter. by eexists. }
  set (commande := match details args with Some (n :: l) => _ | _ => _ end).
  assert (∃ options,
            commande = [sys_executable; "analyser_sujets.py"; "--auto"] ++ options)
    as [options ->].
  { subst commande.
    destruct (truthy _), (skip_html args), (skip_json args),
      (details args) as [[|n l]|]; cbn [app]; by eexists. }
  unfold executer, subprocess_run. executer_monade.
  cbn [sys_executable app]. rewrite !noter_ajouter, !ajouter_ajouter.
  rewrite !code_analyse_ajouter.
  destruct (Nat.eqb_spec (code_analyse m) 0) as [Hc|Hc]; executer_monade.
  - rewrite !noter_ajouter, !ajouter_ajouter. eexists. split_and!; try done.
    by exists options.
  - eexists. split_and!; try done. by exists options.
Qed.

Lemma skip_extraction_offline_witness :
  ∃ evs,
    (Pipeline.main 10 sans_extraction monde_hors_ligne).2 = ajouter evs monde_hors_ligne
    ∧ compter est_requete evs = 0
    ∧ compter est_lecture evs = 0
    ∧ compter est_ecriture evs = 0
    ∧ if skip_analyse sans_extraction
      then (Pipeline.main 10 sans_extraction monde_hors_ligne).1 = Retour SansAnalyse
           ∧ List.filter est_lancement evs = []
      else (∃ options,
              List.filter est_lancement evs
              = [Lancement ([sys_executable; "analyser_sujets.py"; "--auto"]
                            ++ options)])
           ∧ (Pipeline.main 10 sans_extraction monde_hors_ligne).1
             = if code_analyse monde_hors_ligne =? 0 then Retour Complete
               else Leve (Exc RuntimeError
                            ("Échec de l'étape '" +:+ etape_analyse_texte
                             +:+ "' (code " +:+ pretty (code_analyse monde_hors_ligne)
                             +:+ ")")).
Proof.
  apply (skip_extraction_offline 10 sans_extraction monde_hors_ligne).
  reflexivity.
Defined.




End OrchestrateurSuite.

(** * The snapshot between the programs *)

Module Depot.
Import Extraire ExtraireFaits Exemples Extracteur Pipeline PipelineFaits AllerRetour
  Orchestrateur Idempotence Analyser.

#[local] Arguments noter : simpl never.
#[local] Arguments ajouter : simpl never.

Lemma instantane_relu exported_at id nom deliberations :
  Forall (λ d, inscriptible (JObj d) = true) deliberations →
  json_loads (instantane exported_at id nom deliberations)
  = Some (JObj [("exported_at", JStr exported_at);
                ("seance", JObj [("id", of_option id); ("nom", of_option nom)]);
                ("deliberations", JArr (JObj <$> deliberations))]).
Proof.
  intros Hd. unfold instantane. apply json_loads_dumps.
  cbn [inscriptible forallb]. rewrite !andb_true_iff. split_and!; try done.
  - by destruct id.
  - by destruct nom.
  - apply forallb_forall. intros j Hj%list_elem_of_In.
    apply list_elem_of_fmap in Hj as (d & -> & Hin).
    rewrite Forall_forall in Hd. by apply Hd.
Qed.

Lemma sauvegarder_resultats_fichier deliberations id nom f m :
  (sauvegarder_resultats deliberations id nom f m).1 = Retour tt →
  fichiers (sauvegarder_resultats deliberations id nom f m).2 !! f
  = Some (Octets (instantane (utcnow m +:+ "Z") id nom deliberations)).
Proof.
  intros Hr.
  destruct (sauvegarder_resultats deliberations id nom f m) as [[[]|e|] m'] eqn:Hs;
    [|done..].
  by apply sauvegarder_resultats_retour in Hs as [_ Hf].
Qed.

(** X13 — Round trip of the session through the snapshot.  What the
    store writes, the orchestrator reads back: after
    [sauvegarder_resultats] has returned, [charger_derniere_seance]
    returns the identifier and the name of the session the snapshot was
    written with, [None] for the one that was [None]. *)
Theorem snapshot_session_round_trip deliberations id nom m :
  Forall (λ d, inscriptible (JObj d) = true) deliberations →
  (sauvegarder_resultats deliberations id nom FICHIER_DELIB m).1 = Retour tt →
  utf8_valide (instantane (utcnow m +:+ "Z") id nom deliberations) = true →
  (charger_derniere_seance FICHIER_DELIB
     (sauvegarder_resultats deliberations id nom FICHIER_DELIB m).2).1
  = Retour (of_option id, of_option nom).
Proof.
  intros Hd Hr Hutf.
  rewrite charger_derniere_seance_eq, (sauvegarder_resultats_fichier _ _ _ _ _ Hr).
  rewrite Hutf, instantane_relu by done. done.
Qed.

Lemma snapshot_session_round_trip_witness :
  (charger_derniere_seance FICHIER_DELIB
     (sauvegarder_resultats [fiche_a] None (Some "Conseil communal du 21 mai")
        FICHIER_DELIB monde_a_moissonner).2).1
  = Retour (JNull, JStr "Conseil communal du 21 mai").
Proof.
  apply (snapshot_session_round_trip [fiche_a] None (Some "Conseil communal du 21 mai")
           monde_a_moissonner).
  - repeat constructor.
  - by vm_compute.
  - by vm_compute.
Defined.

(** X14 — The analysis loads what the extraction stored.  After
    [sauvegarder_resultats] has returned, [charger_deliberations] of
    analyser_sujets.py returns the stored records, in order, with the
    session metadata, and announces their number; it neither exits nor
    raises. *)
Theorem analysis_loads_stored_snapshot deliberations id nom f m :
  Forall (λ d, inscriptible (JObj d) = true) deliberations →
  (sauvegarder_resultats deliberations id nom f m).1 = Retour tt →
  utf8_valide (instantane (utcnow m +:+ "Z") id nom deliberations) = true →
  charger_deliberations f (fichiers (sauvegarder_resultats deliberations id nom f m).2)
  = (["Chargement de " +:+ f +:+ "...";
      "✓ " +:+ pretty (length deliberations) +:+ " délibération(s) chargée(s)"
      +:+ car 10],
     Charge (JArr (JObj <$> deliberations))
            (JObj [("id", of_option id); ("nom", of_option nom)])).
Proof.
  intros Hd Hr Hutf. unfold charger_deliberations.
  rewrite (sauvegarder_resultats_fichier _ _ _ _ _ Hr), Hutf.
  cbn [negb]. rewrite instantane_relu by done.
  rewrite bool_decide_true by (cbn; set_solver).
  cbn [dict_get String.eqb Ascii.eqb Bool.eqb len]. by rewrite length_fmap.
Qed.

Lemma analysis_loads_stored_snapshot_witness :
  charger_deliberations "deliberations_wavre.json"
    (fichiers (sauvegarder_resultats [fiche_a] (Some "S1")
                 (Some "Conseil communal du 21 mai")
                 "deliberations_wavre.json" monde_a_moissonner).2)
  = (["Chargement de " +:+ "deliberations_wavre.json" +:+ "...";
      "✓ " +:+ pretty (length [fiche_a]) +:+ " délibération(s) chargée(s)"
      +:+ car 10],
     Charge (JArr (JObj <$> [fiche_a]))
            (JObj [("id", of_option (Some "S1"));
                   ("nom", of_option (Some "Conseil communal du 21 mai"))])).
Proof.
  apply (analysis_loads_stored_snapshot [fiche_a] (Some "S1")
           (Some "Conseil communal du 21 mai")
           "deliberations_wavre.json" monde_a_moissonner).
  - repeat constructor.
  - by vm_compute.
  - by vm_compute.
Defined.

End Depot.
